(** * mcp-terminal-awareness: sessions, heuristics, tools and JSON-RPC dispatch

    A shallow embedding of
      - src/heuristics/ansi.ts, src/heuristics/prompts.ts
      - src/sessions.ts   (Session, SessionStore.newSession,
                           scheduleQuietComplete, wireHeuristics)
      - src/server.ts     (terminal.run / terminal.write / terminal.signal)
      - src/mcp/jsonrpc.ts (JSONRPCServer.dispatch)
      - src/sessions.ts   (SessionStore), src/server.ts (terminal.status,
                           terminal.list, terminal.attach, maybeRunPTY's
                           exit conversion, the tool list of startServer)
      - src/mcp/server.ts (createMCPServer)
    followed by the properties established about them.

    Conventions.
      - A JavaScript string is the list of its UTF-16 code units.
      - A JavaScript number that the code only uses as an integer
        (timestamps, byte counts, delays, exit codes) is a [Z].
      - An optional field ([x?: T], [T | null], [T | undefined]) is an
        [option]; [None] stands for both [undefined] and [null], which the
        code never tells apart by truthiness.
      - Host timers live in an explicit timer table; the handle stored in a
        session is the timer's identifier. A timer fires when the host
        runs its callback, at or after its due time.
      - The [progress] callback is the one the MCP glue always passes;
        its messages are collected in a log.
      - Calls on the process adapter are collected in a log; what the
        operating system does with them is outside the model
        (terminal.signal takes the outcome of its [kill] as an
        input). *)

From Stdlib Require Import String Ascii DecimalString.
From Stdlib Require Import ZArith NArith Bool Lia List.
Import ListNotations.

Local Open Scope Z_scope.

(* ===================================================================== *)
(** ** JavaScript strings *)
(* ===================================================================== *)

Module JS.

(** A string value: its UTF-16 code units. *)
Definition jsstring := list N.

(** Literal helper: an ASCII literal as code units. *)
Fixpoint lit (s : string) : jsstring :=
  match s with
  | EmptyString => []
  | String c r => N_of_ascii c :: lit r
  end.

Definition jsstring_eqb (a b : jsstring) : bool :=
  if list_eq_dec N.eq_dec a b then true else false.

(** [s.at(-1)]: the last code unit, [undefined] on the empty string. *)
Definition at_last (s : jsstring) : option N :=
  match rev s with
  | [] => None
  | c :: _ => Some c
  end.

(** [s.slice(0, -1)]: everything but the last code unit. *)
Definition slice_init (s : jsstring) : jsstring := removelast s.

(** [hay.includes(needle)] for a needle that is either the empty string
    or a single code unit (the only needles [ansi.ts] builds). The empty
    string is a substring of every string. *)
Definition includes_short (hay : jsstring) (needle : option N) : bool :=
  match needle with
  | None => true
  | Some c => existsb (N.eqb c) hay
  end.

(** ECMAScript WhiteSpace and LineTerminator code points: what [\s]
    matches and what [trimEnd] removes. *)
Definition is_line_terminator (c : N) : bool :=
  ((c =? 0x0A) || (c =? 0x0D) || (c =? 0x2028) || (c =? 0x2029))%N.

Definition is_white_space (c : N) : bool :=
  ((c =? 0x09) || (c =? 0x0B) || (c =? 0x0C) || (c =? 0x20) || (c =? 0xA0)
   || (c =? 0x1680) || ((0x2000 <=? c) && (c <=? 0x200A)) || (c =? 0x202F)
   || (c =? 0x205F) || (c =? 0x3000) || (c =? 0xFEFF))%N.

Definition is_space (c : N) : bool :=
  is_white_space c || is_line_terminator c.

Fixpoint drop_leading_space (s : jsstring) : jsstring :=
  match s with
  | [] => []
  | c :: r => if is_space c then drop_leading_space r else s
  end.

(** [s.trimEnd()] *)
Definition trimEnd (s : jsstring) : jsstring :=
  rev (drop_leading_space (rev s)).

(** [Buffer.byteLength(s, "utf8")]: a surrogate pair encodes one
    supplementary code point in four bytes, a lone surrogate becomes
    U+FFFD (three bytes). *)
Definition is_high_surrogate (c : N) : bool :=
  ((0xD800 <=? c) && (c <=? 0xDBFF))%N.
Definition is_low_surrogate (c : N) : bool :=
  ((0xDC00 <=? c) && (c <=? 0xDFFF))%N.

Fixpoint byteLength (s : jsstring) : Z :=
  match s with
  | [] => 0
  | c :: r =>
      if (c <? 0x80)%N then 1 + byteLength r
      else if (c <? 0x800)%N then 2 + byteLength r
      else if is_high_surrogate c then
        match r with
        | d :: r' => if is_low_surrogate d then 4 + byteLength r'
                     else 3 + byteLength r
        | [] => 3
        end
      else 3 + byteLength r
  end.

(** [chunks.join('')] *)
Definition join (chunks : list jsstring) : jsstring := concat chunks.

(** [text.split(/\r?\n/)] *)
Fixpoint split_lines_from (cur : jsstring) (s : jsstring) : list jsstring :=
  match s with
  | [] => [rev cur]
  | c :: r =>
      if (c =? 0x0A)%N then rev cur :: split_lines_from [] r
      else if (c =? 0x0D)%N then
        match r with
        | d :: r' =>
            if (d =? 0x0A)%N then rev cur :: split_lines_from [] r'
            else split_lines_from (c :: cur) r
        | [] => split_lines_from (c :: cur) r
        end
      else split_lines_from (c :: cur) r
  end.

Definition split_lines (s : jsstring) : list jsstring :=
  split_lines_from [] s.

End JS.

(* ===================================================================== *)
(** ** Regular expressions *)
(* ===================================================================== *)

(** The fragment of ECMAScript regular expressions the heuristics use,
    matched by backtracking in the priority order of the language
    (left alternative first, greedy repetition). All patterns of
    [prompts.ts] carry the [m] flag, so [^] and [$] are line anchors. *)
Module Regex.
Import JS.

Inductive re : Type :=
| Eps
| Chr (p : N -> bool)        (* one code unit satisfying [p] *)
| Seq (a b : re)
| Alt (a b : re)
| Star (a : re)              (* greedy [a*] *)
| Bol                        (* [^] under /m *)
| Eol.                       (* [$] under /m *)

Definition Plus (a : re) : re := Seq a (Star a).
Definition chr (c : N) : re := Chr (N.eqb c).
Fixpoint str (s : jsstring) : re :=
  match s with
  | [] => Eps
  | c :: r => Seq (chr c) (str r)
  end.

(** The matcher threads the code unit just before the current position
    (needed by [^]) and the remaining input, and hands both to the
    continuation; the result is the input left after the whole match. *)
Definition cont := option N -> jsstring -> option jsstring.

Definition first_some (a : option jsstring) (b : unit -> option jsstring)
  : option jsstring :=
  match a with
  | Some x => Some x
  | None => b tt
  end.

Fixpoint star_loop (step : option N -> jsstring -> cont -> option jsstring)
  (fuel : nat) (prev : option N) (s : jsstring) (k : cont)
  : option jsstring :=
  match fuel with
  | O => k prev s
  | S fuel' =>
      first_some
        (step prev s (fun prev' s' =>
           (* an iteration that consumes nothing ends the repetition *)
           if (length s' <? length s)%nat
           then star_loop step fuel' prev' s' k
           else None))
        (fun _ => k prev s)
  end.

Fixpoint matches (r : re) (prev : option N) (s : jsstring) (k : cont)
  : option jsstring :=
  match r with
  | Eps => k prev s
  | Chr p =>
      match s with
      | c :: s' => if p c then k (Some c) s' else None
      | [] => None
      end
  | Seq a b => matches a prev s (fun prev' s' => matches b prev' s' k)
  | Alt a b => first_some (matches a prev s k) (fun _ => matches b prev s k)
  | Star a => star_loop (matches a) (length s) prev s k
  | Bol =>
      match prev with
      | None => k prev s
      | Some c => if is_line_terminator c then k prev s else None
      end
  | Eol =>
      match s with
      | [] => k prev s
      | c :: _ => if is_line_terminator c then k prev s else None
      end
  end.

(** A match starting exactly at the current position; the remainder of
    the input after it. *)
Definition match_here (r : re) (prev : option N) (s : jsstring)
  : option jsstring :=
  matches r prev s (fun _ rest => Some rest).

(** [re.test(s)] for a pattern without the [g] flag: a match at some
    start position. *)
Fixpoint test_from (r : re) (prev : option N) (s : jsstring) : bool :=
  match match_here r prev s with
  | Some _ => true
  | None =>
      match s with
      | [] => false
      | c :: s' => test_from r (Some c) s'
      end
  end.

Definition test (r : re) (s : jsstring) : bool := test_from r None s.

(** [s.replace(re, empty)] for a pattern with the [g] flag whose matches
    are never empty: leftmost matches are deleted, scanning resumes
    after each. *)
Fixpoint delete_all_from (r : re) (fuel : nat) (prev : option N)
  (s : jsstring) : jsstring :=
  match fuel with
  | O => s
  | S fuel' =>
      match s with
      | [] => []
      | c :: s' =>
          match match_here r prev s with
          | Some rest =>
              if (length rest <? length s)%nat
              then delete_all_from r fuel'
                     (at_last (firstn (length s - length rest) s)) rest
              else c :: delete_all_from r fuel' (Some c) s'
          | None => c :: delete_all_from r fuel' (Some c) s'
          end
      end
  end.

Definition delete_all (r : re) (s : jsstring) : jsstring :=
  delete_all_from r (length s) None s.

End Regex.

(* ===================================================================== *)
(** ** src/heuristics/ansi.ts *)
(* ===================================================================== *)

Module Ansi.
Import JS Regex.

Definition is_digit_or_semicolon (c : N) : bool :=
  (((0x30 <=? c) && (c <=? 0x39)) || (c =? 0x3B))%N.

(** [const ANSI_REGEX = /\u001b\[[0-9;]*m/g] *)
Definition ANSI_REGEX : re :=
  Seq (chr 0x1B) (Seq (chr 0x5B)
    (Seq (Star (Chr is_digit_or_semicolon)) (chr 0x6D))).

Definition stripAnsi (s : jsstring) : jsstring := delete_all ANSI_REGEX s.

(** [const spinners = "|/-\\"] *)
Definition spinners : jsstring := lit "|/-\".

(** [isLikelySpinnerFrame(prev, next)] *)
Definition isLikelySpinnerFrame (prev next : jsstring) : bool :=
  let a := trimEnd (stripAnsi prev) in
  let b := trimEnd (stripAnsi next) in
  if negb (length a =? length b)%nat then false
  else
    let la := at_last a in          (* [a.at(-1)], else empty *)
    let lb := at_last b in
    if negb (includes_short spinners la) || negb (includes_short spinners lb)
    then false
    else jsstring_eqb (slice_init a) (slice_init b).

End Ansi.

(* ===================================================================== *)
(** ** src/heuristics/prompts.ts *)
(* ===================================================================== *)

Module Prompts.
Import JS Regex Ansi.

Definition line_start : re := Alt (chr 0x0A) (Alt (chr 0x0D) Bol).
Definition not_nl (c : N) : bool := negb (c =? 0x0A)%N.
Definition not_nl_gt (c : N) : bool := negb ((c =? 0x0A) || (c =? 0x3E))%N.
Definition dollar_or_hash (c : N) : bool := ((c =? 0x24) || (c =? 0x23))%N.

(** [/(\n|\r|^)PS [^\n>]+>\s$/m] *)
Definition POWERSHELL_PROMPT : re :=
  Seq line_start (Seq (str (lit "PS "))
    (Seq (Plus (Chr not_nl_gt)) (Seq (chr 0x3E) (Seq (Chr is_space) Eol)))).

(** [/(\n|\r|^)[^\n]*[$#]\s$/m] *)
Definition POSIX_PROMPT : re :=
  Seq line_start (Seq (Star (Chr not_nl))
    (Seq (Chr dollar_or_hash) (Seq (Chr is_space) Eol))).

Definition COMMON_PROMPTS : list re := [POWERSHELL_PROMPT; POSIX_PROMPT].

(** [detectPrompt(line)]: the first built-in pattern matching the
    stripped line. *)
Definition detectPrompt (line : jsstring) : option re :=
  find (fun r => test r (stripAnsi line)) COMMON_PROMPTS.

End Prompts.

(* ===================================================================== *)
(** ** Host timers, adapters and the world a session lives in *)
(* ===================================================================== *)

Module Host.
Import JS Regex.

(** [SessionStatus] of sessions.ts *)
Inductive SessionStatus : Type :=
| Idle | Running | Waiting | PossiblyStuck | Completed | Error.

Definition status_eqb (a b : SessionStatus) : bool :=
  match a, b with
  | Idle, Idle | Running, Running | Waiting, Waiting
  | PossiblyStuck, PossiblyStuck | Completed, Completed | Error, Error => true
  | _, _ => false
  end.

Definition is_terminal (st : SessionStatus) : bool :=
  match st with
  | Completed | Error => true
  | _ => false
  end.

(** The two process adapters [maybeRunPTY] can hand out. *)
Inductive Adapter : Type := ChildProcessAdapter | PtyAdapter.

(** A call made on the [ProcessAdapter] interface. *)
Inductive AdapterCall : Type :=
| CallWrite (data : jsstring)
| CallKill (signal : option string).

(** The [Session] interface of sessions.ts. *)
Record Session : Type := mkSession {
  id : string;
  buf : list jsstring;
  lastByteAt : Z;
  status : SessionStatus;
  errorReason : option string;
  promptRe : option re;
  quietTimer : option nat;
  idleTimer : option nat;
  exitCode : option (option Z);        (* unset / null / a number *)
  exitSignal : option (option string); (* unset / null / a signal *)
  totalBytes : option Z;
  maxBufferBytes : option Z;
  adapter : option Adapter
}.

Definition set_buf (s : Session) (v : list jsstring) : Session :=
  mkSession (id s) v (lastByteAt s) (status s) (errorReason s) (promptRe s)
    (quietTimer s) (idleTimer s) (exitCode s) (exitSignal s) (totalBytes s)
    (maxBufferBytes s) (adapter s).
Definition set_lastByteAt (s : Session) (v : Z) : Session :=
  mkSession (id s) (buf s) v (status s) (errorReason s) (promptRe s)
    (quietTimer s) (idleTimer s) (exitCode s) (exitSignal s) (totalBytes s)
    (maxBufferBytes s) (adapter s).
Definition set_status (s : Session) (v : SessionStatus) : Session :=
  mkSession (id s) (buf s) (lastByteAt s) v (errorReason s) (promptRe s)
    (quietTimer s) (idleTimer s) (exitCode s) (exitSignal s) (totalBytes s)
    (maxBufferBytes s) (adapter s).
Definition set_errorReason (s : Session) (v : option string) : Session :=
  mkSession (id s) (buf s) (lastByteAt s) (status s) v (promptRe s)
    (quietTimer s) (idleTimer s) (exitCode s) (exitSignal s) (totalBytes s)
    (maxBufferBytes s) (adapter s).
Definition set_promptRe (s : Session) (v : option re) : Session :=
  mkSession (id s) (buf s) (lastByteAt s) (status s) (errorReason s) v
    (quietTimer s) (idleTimer s) (exitCode s) (exitSignal s) (totalBytes s)
    (maxBufferBytes s) (adapter s).
Definition set_quietTimer (s : Session) (v : option nat) : Session :=
  mkSession (id s) (buf s) (lastByteAt s) (status s) (errorReason s)
    (promptRe s) v (idleTimer s) (exitCode s) (exitSignal s) (totalBytes s)
    (maxBufferBytes s) (adapter s).
Definition set_idleTimer (s : Session) (v : option nat) : Session :=
  mkSession (id s) (buf s) (lastByteAt s) (status s) (errorReason s)
    (promptRe s) (quietTimer s) v (exitCode s) (exitSignal s) (totalBytes s)
    (maxBufferBytes s) (adapter s).
Definition set_exit (s : Session) (code : option Z) (sig : option string)
  : Session :=
  mkSession (id s) (buf s) (lastByteAt s) (status s) (errorReason s)
    (promptRe s) (quietTimer s) (idleTimer s) (Some code) (Some sig)
    (totalBytes s) (maxBufferBytes s) (adapter s).
Definition set_totalBytes (s : Session) (v : option Z) : Session :=
  mkSession (id s) (buf s) (lastByteAt s) (status s) (errorReason s)
    (promptRe s) (quietTimer s) (idleTimer s) (exitCode s) (exitSignal s) v
    (maxBufferBytes s) (adapter s).
Definition set_maxBufferBytes (s : Session) (v : option Z) : Session :=
  mkSession (id s) (buf s) (lastByteAt s) (status s) (errorReason s)
    (promptRe s) (quietTimer s) (idleTimer s) (exitCode s) (exitSignal s)
    (totalBytes s) v (adapter s).
Definition set_adapter (s : Session) (v : option Adapter) : Session :=
  mkSession (id s) (buf s) (lastByteAt s) (status s) (errorReason s)
    (promptRe s) (quietTimer s) (idleTimer s) (exitCode s) (exitSignal s)
    (totalBytes s) (maxBufferBytes s) v.

(** What a host timer does when it fires. The callbacks are closures in
    the source; here each is named by the place that creates it, with
    the values it captures. *)
Inductive TimerKind : Type :=
| QuietComplete                           (* scheduleQuietComplete *)
| IdlePoll (waitingMs stuckMs : Z)        (* startIdleTimers, repeating *)
| CommandTimeout                          (* terminal.run, timeoutMs *)
| StoreRemove.                            (* terminal.run, cleanup *)

Record Timer : Type := mkTimer {
  tid : nat;
  kind : TimerKind;
  due : Z
}.

(** A progress message of the heuristics or of terminal.run. *)
Inductive Progress : Type :=
| IdleWaiting (seconds : Z)      (* "Idle Ns: waiting for next input" *)
| NoOutputStuck (seconds : Z)    (* "No output Ns: possibly stuck" *)
| Received (codeUnits : nat).    (* "Received N bytes" *)

(** The record terminal.run resolves with ([CommandResult]). *)
Record CommandResult : Type := mkResult {
  r_sessionId : string;
  r_output : jsstring;
  r_exitCode : option Z;
  r_success : bool;
  r_error : option string
}.

(** The promise terminal.run returns once the adapter is spawned. *)
Inductive Promise : Type :=
| Pending
| Resolved (r : CommandResult)
| Rejected (message : string).

(** The options the closures of [wireHeuristics] capture. *)
Record Heur : Type := mkHeur {
  quietMs : Z;
  waitingMs : Z;
  stuckMs : Z
}.

(** One session together with everything its callbacks reach. *)
Record World : Type := mkWorld {
  sess : Session;
  lastLine : jsstring;            (* [let lastLine] of wireHeuristics *)
  heur : Heur;
  now : Z;                        (* Date.now() *)
  timers : list Timer;            (* armed timers *)
  nextTimer : nat;                (* next fresh timer identifier *)
  progressLog : list Progress;    (* messages given to [progress] *)
  calls : list AdapterCall;       (* calls made on the adapter *)
  timeoutId : option nat;         (* [let timeoutId] of terminal.run *)
  promise : Promise;              (* the promise of terminal.run *)
  stored : bool;                  (* the session is still in the store *)
  quietFires : nat;               (* ghost: quiet callbacks run so far *)
  completions : nat               (* ghost: [status = "completed"] writes
                                     done by the quiet callback *)
}.

Definition with_sess (w : World) (s : Session) : World :=
  mkWorld s (lastLine w) (heur w) (now w) (timers w) (nextTimer w)
    (progressLog w) (calls w) (timeoutId w) (promise w) (stored w)
    (quietFires w) (completions w).
Definition with_lastLine (w : World) (l : jsstring) : World :=
  mkWorld (sess w) l (heur w) (now w) (timers w) (nextTimer w)
    (progressLog w) (calls w) (timeoutId w) (promise w) (stored w)
    (quietFires w) (completions w).
Definition with_now (w : World) (t : Z) : World :=
  mkWorld (sess w) (lastLine w) (heur w) t (timers w) (nextTimer w)
    (progressLog w) (calls w) (timeoutId w) (promise w) (stored w)
    (quietFires w) (completions w).
Definition with_timers (w : World) (ts : list Timer) (n : nat) : World :=
  mkWorld (sess w) (lastLine w) (heur w) (now w) ts n
    (progressLog w) (calls w) (timeoutId w) (promise w) (stored w)
    (quietFires w) (completions w).
Definition with_progress (w : World) (m : Progress) : World :=
  mkWorld (sess w) (lastLine w) (heur w) (now w) (timers w) (nextTimer w)
    (progressLog w ++ [m]) (calls w) (timeoutId w) (promise w) (stored w)
    (quietFires w) (completions w).
Definition with_call (w : World) (c : AdapterCall) : World :=
  mkWorld (sess w) (lastLine w) (heur w) (now w) (timers w) (nextTimer w)
    (progressLog w) (calls w ++ [c]) (timeoutId w) (promise w) (stored w)
    (quietFires w) (completions w).
Definition with_timeoutId (w : World) (t : option nat) : World :=
  mkWorld (sess w) (lastLine w) (heur w) (now w) (timers w) (nextTimer w)
    (progressLog w) (calls w) t (promise w) (stored w)
    (quietFires w) (completions w).
Definition with_promise (w : World) (p : Promise) : World :=
  mkWorld (sess w) (lastLine w) (heur w) (now w) (timers w) (nextTimer w)
    (progressLog w) (calls w) (timeoutId w) p (stored w)
    (quietFires w) (completions w).
Definition with_stored (w : World) (b : bool) : World :=
  mkWorld (sess w) (lastLine w) (heur w) (now w) (timers w) (nextTimer w)
    (progressLog w) (calls w) (timeoutId w) (promise w) b
    (quietFires w) (completions w).
Definition count_quiet_fire (w : World) : World :=
  mkWorld (sess w) (lastLine w) (heur w) (now w) (timers w) (nextTimer w)
    (progressLog w) (calls w) (timeoutId w) (promise w) (stored w)
    (S (quietFires w)) (completions w).
Definition count_completion (w : World) : World :=
  mkWorld (sess w) (lastLine w) (heur w) (now w) (timers w) (nextTimer w)
    (progressLog w) (calls w) (timeoutId w) (promise w) (stored w)
    (quietFires w) (S (completions w)).

(** The delay a host timer really uses: values below 1 ms or above
    2^31-1 ms are replaced by 1 ms. *)
Definition timer_delay (ms : Z) : Z :=
  if (ms <? 1) || (2147483647 <? ms) then 1 else ms.

(** [setTimeout(cb, ms)] / [setInterval(cb, ms)]: the new handle and the
    world with the timer armed. *)
Definition arm (w : World) (k : TimerKind) (ms : Z) : nat * World :=
  let h := nextTimer w in
  (h, with_timers w (timers w ++ [mkTimer h k (now w + timer_delay ms)])
        (S h)).

(** [clearTimeout(h)] / [clearInterval(h)] *)
Definition disarm (w : World) (h : nat) : World :=
  with_timers w (filter (fun t => negb (Nat.eqb (tid t) h)) (timers w))
    (nextTimer w).

(** [if (h) clearTimeout(h)] *)
Definition disarm_opt (w : World) (h : option nat) : World :=
  match h with
  | Some t => disarm w t
  | None => w
  end.

Definition armed (w : World) (h : nat) : bool :=
  existsb (fun t => Nat.eqb (tid t) h) (timers w).

Definition armed_opt (w : World) (h : option nat) : bool :=
  match h with
  | Some t => armed w t
  | None => false
  end.

Definition is_quiet (t : Timer) : bool :=
  match kind t with QuietComplete => true | _ => false end.

Definition is_idle_poll (t : Timer) : bool :=
  match kind t with IdlePoll _ _ => true | _ => false end.

End Host.

(* ===================================================================== *)
(** ** src/sessions.ts *)
(* ===================================================================== *)

Module Sessions.
Import JS Regex Ansi Prompts Host.

(** [SessionStore.newSession()]; the random identifier and the clock
    reading are inputs. *)
Definition newSession (sid : string) (t : Z) : Session :=
  mkSession sid [] t Idle None None None None None None
    (Some 0) (Some 2000000) None.

(** A session on its own: nothing armed, nothing logged. *)
Definition world_of (s : Session) (t : Z) : World :=
  mkWorld s [] (mkHeur 300 10000 45000) t [] O [] [] None Pending true O O.

(** [x || d] on an optional number: [undefined], [null] and [0] give [d]. *)
Definition or_default (x : option Z) (d : Z) : Z :=
  match x with
  | Some v => if v =? 0 then d else v
  | None => d
  end.

(** [x ?? d] *)
Definition nullish (x : option Z) (d : Z) : Z :=
  match x with
  | Some v => v
  | None => d
  end.

(** The callback [scheduleQuietComplete] hands to [setTimeout]. No caller
    in the repository passes [onComplete], so [onComplete?.()] does
    nothing. *)
Definition quiet_complete_fired (w : World) : World :=
  let w := count_quiet_fire w in
  if negb (is_terminal (status (sess w))) then
    let w := count_completion (with_sess w (set_status (sess w) Completed)) in
    disarm_opt w (idleTimer (sess w))
  else w.

(** [scheduleQuietComplete(sess, delayMs)] *)
Definition scheduleQuietComplete (w : World) (delayMs : Z) : World :=
  let w1 := disarm_opt w (quietTimer (sess w)) in
  let hw := arm w1 QuietComplete delayMs in
  with_sess (snd hw) (set_quietTimer (sess (snd hw)) (Some (fst hw))).

(** [HeuristicOptions] *)
Record HeuristicOptions : Type := mkOpts {
  o_quietMs : option Z;
  o_waitingMs : option Z;
  o_stuckMs : option Z;
  o_maxBufferBytes : option Z
}.

Definition no_opts : HeuristicOptions := mkOpts None None None None.

Definition truthy (x : option Z) : bool :=
  match x with
  | Some v => negb (v =? 0)
  | None => false
  end.

(** [wireHeuristics(sess, progress, opts)]: the statements run before
    the handlers are returned. *)
Definition wireHeuristics (w : World) (opts : HeuristicOptions) : World :=
  let h := mkHeur (nullish (o_quietMs opts) 300)
                  (nullish (o_waitingMs opts) 10000)
                  (nullish (o_stuckMs opts) 45000) in
  let s := if truthy (o_maxBufferBytes opts)
           then set_maxBufferBytes (sess w) (o_maxBufferBytes opts)
           else sess w in
  mkWorld s [] h (now w) (timers w) (nextTimer w) (progressLog w) (calls w)
    (timeoutId w) (promise w) (stored w) (quietFires w) (completions w).

Definition nonempty (line : jsstring) : bool :=
  match line with [] => false | _ => true end.

(** The body of [for (const line of lines)] in [onChunk].
    [looksFinished(line)] guards an empty block and is left out. *)
Definition classify_line (w : World) (line : jsstring) : World :=
  if nonempty line && isLikelySpinnerFrame (lastLine w) line then w
  else
    let w1 := with_lastLine w line in
    let w2 := match promptRe (sess w1) with
              | None =>
                  with_sess w1 (set_promptRe (sess w1) (detectPrompt line))
              | Some _ => w1
              end in
    match promptRe (sess w2) with
    | Some r => if test r line
                then scheduleQuietComplete w2 (quietMs (heur w2))
                else w2
    | None => w2
    end.

(** [while (totalBytes > cap && buf.length > 1) { shift ... }] *)
Fixpoint trim (cap : Z) (b : list jsstring) (total : Z)
  : list jsstring * Z :=
  match b with
  | removed :: ((_ :: _) as rest) =>
      if total >? cap then trim cap rest (total - byteLength removed)
      else (b, total)
  | _ => (b, total)
  end.

(** [onChunk(text)] *)
Definition onChunk (w : World) (text : jsstring) : World :=
  let w1 := fold_left classify_line (split_lines text) w in
  let s := sess w1 in
  let total := or_default (totalBytes s) 0 + byteLength text in
  let cap := or_default (maxBufferBytes s) 2000000 in
  let bt := trim cap (buf s ++ [text]) total in
  let s1 := set_totalBytes (set_buf s (fst bt)) (Some (snd bt)) in
  with_sess w1 (set_lastByteAt s1 (now w1)).

(** [onExit()] *)
Definition onExit (w : World) : World :=
  scheduleQuietComplete w (quietMs (heur w)).

(** [Math.round(ms / 1000)] on an integer number of milliseconds. *)
Definition round_seconds (ms : Z) : Z := (ms + 500) / 1000.

(** The callback [startIdleTimers] hands to [setInterval]. *)
Definition idle_poll_fired (waitingMsParam stuckMsParam : Z) (w : World)
  : World :=
  let idle := now w - lastByteAt (sess w) in
  let w1 :=
    if status_eqb (status (sess w)) Running && (idle >? waitingMsParam)
    then with_progress (with_sess w (set_status (sess w) Waiting))
           (IdleWaiting (round_seconds waitingMsParam))
    else w in
  if (status_eqb (status (sess w1)) Waiting
      || status_eqb (status (sess w1)) Running) && (idle >? stuckMsParam)
  then with_progress (with_sess w1 (set_status (sess w1) PossiblyStuck))
         (NoOutputStuck (round_seconds stuckMsParam))
  else w1.

(** [startIdleTimers(waitingMsParam = waitingMs, stuckMsParam = stuckMs)] *)
Definition startIdleTimers (w : World) (wp sp : option Z) : World :=
  let w1 := disarm_opt w (idleTimer (sess w)) in
  let hw := arm w1 (IdlePoll (nullish wp (waitingMs (heur w)))
                             (nullish sp (stuckMs (heur w)))) 1000 in
  with_sess (snd hw) (set_idleTimer (sess (snd hw)) (Some (fst hw))).

(** *** The host firing a timer *)

Definition find_timer (w : World) (h : nat) : option Timer :=
  find (fun t => Nat.eqb (tid t) h) (timers w).

(** A one-shot leaves the table when it fires; a repeating timer is
    armed again one period later. *)
Definition take_timer (w : World) (t : Timer) : World :=
  match kind t with
  | IdlePoll _ _ =>
      with_timers w
        (map (fun u => if Nat.eqb (tid u) (tid t)
                       then mkTimer (tid u) (kind u) (now w + 1000) else u)
             (timers w))
        (nextTimer w)
  | _ => disarm w (tid t)
  end.

(** A timer fires only when it is armed and due. *)
Definition due_timer (w : World) (h : nat) : option Timer :=
  match find_timer w h with
  | Some t => if due t <=? now w then Some t else None
  | None => None
  end.

(** *** Events a wired session sees *)

Inductive Event : Type :=
| Chunk (text : jsstring)         (* [onChunk(text)] *)
| Exit                            (* [onExit()] *)
| StartIdle (wp sp : option Z)    (* [startIdleTimers(wp, sp)] *)
| Advance (dt : Z)                (* time passes *)
| Fire (h : nat).                 (* the host runs the callback of timer [h] *)

Definition fire (w : World) (h : nat) : option World :=
  match due_timer w h with
  | Some t =>
      match kind t with
      | QuietComplete => Some (quiet_complete_fired (take_timer w t))
      | IdlePoll a b => Some (idle_poll_fired a b (take_timer w t))
      | _ => None
      end
  | None => None
  end.

Definition step (w : World) (e : Event) : option World :=
  match e with
  | Chunk text => Some (onChunk w text)
  | Exit => Some (onExit w)
  | StartIdle wp sp => Some (startIdleTimers w wp sp)
  | Advance dt => if 0 <=? dt then Some (with_now w (now w + dt)) else None
  | Fire h => fire w h
  end.

Fixpoint run (w : World) (es : list Event) : option World :=
  match es with
  | [] => Some w
  | e :: es' =>
      match step w e with
      | Some w' => run w' es'
      | None => None
      end
  end.

End Sessions.

(* ===================================================================== *)
(** ** src/server.ts: terminal.run, terminal.write, terminal.signal *)
(* ===================================================================== *)

Module Server.
Import JS Regex Host Sessions.

Local Open Scope string_scope.

(** What an operation of the environment does: it returns or throws. *)
Inductive Outcome (A : Type) : Type :=
| Ok (a : A)
| Throws (message : string).
Arguments Ok {A} a.
Arguments Throws {A} message.

(** [maybeRunPTY]. The environment decides whether [USE_PTY] is "1" and
    whether the calls of [runPTY] and [runCommand] return or throw. A
    PTY failure falls back to the child process; a throw of
    [runCommand] is rethrown. [Throws] is a failure raised by the call
    itself (the host's [spawn] throws for an argument list that is too
    long, for instance). A failure the host reports after [runCommand]
    has returned, as an error event of the child, is not a throw:
    [maybeRunPTY] has handed out its adapter by then, which is the [Ok]
    case. *)
Definition maybeRunPTY (usePty : bool) (pty child : Outcome unit)
  : Outcome Adapter :=
  let fallback :=
    match child with
    | Ok _ => Ok ChildProcessAdapter
    | Throws m => Throws ("Failed to start command: " ++ m)
    end in
  if usePty then
    match pty with
    | Ok _ => Ok PtyAdapter
    | Throws _ => fallback
    end
  else fallback.

(** [RunCommandOptions]; [command], [cwd], [shell] and [env] only reach
    the adapter. *)
Record RunCommandOptions : Type := mkRun {
  timeoutMs : option Z;
  i_quietMs : option Z;
  i_waitingMs : option Z;
  i_stuckMs : option Z;
  i_maxBufferBytes : option Z
}.

(** [`${code}`] *)
Definition show_code (code : option Z) : string :=
  match code with
  | Some z => NilZero.string_of_int (Z.to_int z)
  | None => "null"
  end.

(** [const cleanup = () => { ... }] of terminal.run *)
Definition cleanup (w : World) : World :=
  let w1 :=
    match quietTimer (sess w) with
    | Some h => let w' := disarm w h in
                with_sess w' (set_quietTimer (sess w') None)
    | None => w
    end in
  let w2 :=
    match idleTimer (sess w1) with
    | Some h => let w' := disarm w1 h in
                with_sess w' (set_idleTimer (sess w') None)
    | None => w1
    end in
  snd (arm w2 StoreRemove 60000).

(** The result of calling [invoke] of terminal.run: it throws, or it
    hands back a promise (held in the world). *)
Inductive Invoked : Type :=
| InvokeThrew (message : string) (w : World)
| InvokeStarted (w : World).

(** [invoke({ input, progress })] of terminal.run up to its [return]. *)
Definition invoke (input : RunCommandOptions) (sid : string) (t : Z)
  (spawn : Outcome Adapter) : Invoked :=
  let maxBuf := nullish (i_maxBufferBytes input) (2 * 1024 * 1024) in
  let session := set_maxBufferBytes (newSession sid t) (Some maxBuf) in
  let w := world_of session t in
  match spawn with
  | Throws errorMessage =>
      let w1 := cleanup w in
      let s1 := set_errorReason (set_status (sess w1) Error)
                  (Some errorMessage) in
      InvokeThrew ("Failed to start command: " ++ errorMessage)
        (with_sess w1 s1)
  | Ok proc =>
      let w1 := with_sess w (set_status (set_adapter (sess w) (Some proc))
                               Running) in
      let w2 := wireHeuristics w1
                  (mkOpts (Some (nullish (i_quietMs input) 300))
                          (Some (nullish (i_waitingMs input) 10000))
                          (Some (nullish (i_stuckMs input) 45000))
                          (Some maxBuf)) in
      let w3 := startIdleTimers w2 None None in
      let tmo := nullish (timeoutMs input) 30000 in
      let w4 := if (tmo >? 0)%Z
                then let hw := arm w3 CommandTimeout tmo in
                     with_timeoutId (snd hw) (Some (fst hw))
                else w3 in
      InvokeStarted w4
  end.

(** The callback given to [proc.onData]. *)
Definition on_data (w : World) (chunk : jsstring) : World :=
  with_progress (onChunk w chunk) (Received (length chunk)).

(** The callback of the [timeoutMs] one-shot. *)
Definition timeout_fired (w : World) : World :=
  if status_eqb (status (sess w)) Running
     || status_eqb (status (sess w)) Waiting
  then
    let s := set_errorReason (set_status (sess w) Error)
               (Some "Command timed out") in
    with_call (with_sess w s) (CallKill (Some "SIGTERM"))
  else w.

(** [resolve(r)] / [reject(e)]: only a pending promise settles. *)
Definition resolve (w : World) (r : CommandResult) : World :=
  match promise w with
  | Pending => with_promise w (Resolved r)
  | _ => w
  end.

Definition reject (w : World) (message : string) : World :=
  match promise w with
  | Pending => with_promise w (Rejected message)
  | _ => w
  end.

Definition is_zero (code : option Z) : bool :=
  match code with
  | Some z => (z =? 0)%Z
  | None => false
  end.

Definition some_signal (signal : option string) : bool :=
  match signal with Some _ => true | None => false end.

(** The first callback given to [proc.onExit]. *)
Definition exit_handler_1 (w : World) (code : option Z)
  (signal : option string) : World :=
  let w1 := disarm_opt w (timeoutId w) in
  let st := if is_zero code then Completed else Error in
  let w2 := with_sess w1 (set_exit (set_status (sess w1) st) code signal) in
  let w3 := cleanup w2 in
  resolve w3
    (mkResult (id (sess w3)) (join (buf (sess w3))) code (is_zero code)
       (if is_zero code then None
        else Some ("Process exited with code " ++ show_code code))).

(** The second callback given to [proc.onExit]. *)
Definition exit_handler_2 (w : World) (code : option Z)
  (signal : option string) : World :=
  let w1 := disarm_opt w (timeoutId w) in
  let isError := negb (is_zero code) || some_signal signal in
  let st := if isError then Error else Completed in
  let w2 := with_sess w1 (set_exit (set_status (sess w1) st) code signal) in
  let w3 :=
    if isError then
      let reason :=
        "Process exited with code " ++ show_code code ++
        match signal with
        | Some sg => if String.eqb sg EmptyString then EmptyString
                     else ", signal: " ++ sg
        | None => EmptyString
        end in
      reject (with_sess w2 (set_errorReason (sess w2) (Some reason))) reason
    else
      resolve w2
        (mkResult (id (sess w2)) (join (buf (sess w2))) code true None) in
  cleanup w3.

(** The adapter reports exit: both callbacks run, in registration order. *)
Definition on_exit (w : World) (code : option Z) (signal : option string)
  : World :=
  exit_handler_2 (exit_handler_1 w code signal) code signal.

(** *** Events of a running terminal.run call *)

Inductive Event : Type :=
| Data (chunk : jsstring)
| ProcExit (code : option Z) (signal : option string)
| Advance (dt : Z)
| Fire (h : nat).

Definition fire (w : World) (h : nat) : option World :=
  match due_timer w h with
  | Some t =>
      match kind t with
      | QuietComplete => Some (quiet_complete_fired (take_timer w t))
      | IdlePoll a b => Some (idle_poll_fired a b (take_timer w t))
      | CommandTimeout => Some (timeout_fired (take_timer w t))
      | StoreRemove => Some (with_stored (take_timer w t) false)
      end
  | None => None
  end.

Definition step (w : World) (e : Event) : option World :=
  match e with
  | Data chunk => Some (on_data w chunk)
  | ProcExit code signal => Some (on_exit w code signal)
  | Advance dt => if (0 <=? dt)%Z then Some (with_now w (now w + dt)) else None
  | Fire h => fire w h
  end.

Fixpoint run (w : World) (es : list Event) : option World :=
  match es with
  | [] => Some w
  | e :: es' =>
      match step w e with
      | Some w' => run w' es'
      | None => None
      end
  end.

(** *** terminal.write and terminal.signal *)

(** [store.get(sessionId)] *)
Definition store_get (w : World) (sessionId : string) : option Session :=
  if stored w && String.eqb sessionId (id (sess w)) then Some (sess w)
  else None.

(** [invoke] of terminal.write *)
Definition write_invoke (w : World) (sessionId : string) (data : jsstring)
  : Outcome bool * World :=
  match store_get w sessionId with
  | Some s =>
      match adapter s with
      | Some _ => (Ok true, with_call w (CallWrite data))
      | None => (Throws "Session not found or not active", w)
      end
  | None => (Throws "Session not found or not active", w)
  end.

(** [invoke] of terminal.signal; [signal] is [None] when the caller
    leaves it out. [kill] is what the adapter's [kill] does with the
    signal it is handed: it returns, or it throws (the child process of
    the host throws for a signal name it does not know) and the
    exception leaves [invoke]. *)
Definition signal_invoke (w : World) (sessionId : string)
  (signal : option string) (kill : string -> Outcome unit)
  : Outcome bool * World :=
  let sg := match signal with Some x => x | None => "SIGTERM" end in
  match store_get w sessionId with
  | Some s =>
      match adapter s with
      | Some _ =>
          let w' := with_call w (CallKill (Some sg)) in
          match kill sg with
          | Ok _ => (Ok true, w')
          | Throws m => (Throws m, w')
          end
      | None => (Throws "Session not found or not active", w)
      end
  | None => (Throws "Session not found or not active", w)
  end.

End Server.

(* ===================================================================== *)
(** ** src/mcp/jsonrpc.ts: JSONRPCServer.dispatch *)
(* ===================================================================== *)

Module Jsonrpc.

Local Open Scope string_scope.

(** A value [JSON.parse] can produce. Numbers are integers here: the
    dispatcher only copies them ([id]) or writes the error codes. *)
#[warnings="-register-all"]
Inductive JSONValue : Type :=
| JNull
| JBool (b : bool)
| JNum (z : Z)
| JStr (s : string)
| JArr (items : list JSONValue)
| JObj (fields : list (string * JSONValue)).

(** [v.key] on a parsed value: own properties of an object, where a
    repeated key keeps its last value; [undefined] everywhere else. *)
Fixpoint lookup_field (key : string) (fields : list (string * JSONValue))
  : option JSONValue :=
  match fields with
  | [] => None
  | (k, v) :: rest =>
      match lookup_field key rest with
      | Some later => Some later
      | None => if String.eqb k key then Some v else None
      end
  end.

Definition prop (v : JSONValue) (key : string) : option JSONValue :=
  match v with
  | JObj fields => lookup_field key fields
  | _ => None
  end.

(** [!msg] *)
Definition falsy (v : JSONValue) : bool :=
  match v with
  | JNull => true
  | JBool b => negb b
  | JNum z => (z =? 0)%Z
  | JStr s => String.eqb s EmptyString
  | _ => false
  end.

(** What a handler does with [(params, id)]. *)
Inductive Handled : Type :=
| Returns (res : option JSONValue)    (* [undefined] when nothing *)
| Raises (message : string).          (* [e?.message || String(e)] *)

Definition Handler : Type :=
  option JSONValue -> option JSONValue -> Handled.

Definition error_object (code : Z) (message : string) : JSONValue :=
  JObj [("code", JNum code); ("message", JStr message)].

Definition error_response (i : JSONValue) (code : Z) (message : string)
  : JSONValue :=
  JObj [("jsonrpc", JStr "2.0"); ("id", i);
        ("error", error_object code message)].

Definition result_response (i : JSONValue) (res : JSONValue) : JSONValue :=
  JObj [("jsonrpc", JStr "2.0"); ("id", i); ("result", res)].

Section Dispatch.

(** [JSON.parse] ([None] when it throws) and [JSON.stringify]. *)
Variable JSON_parse : string -> option JSONValue.
Variable JSON_stringify : JSONValue -> string.

(** [this.handlers]: the methods registered with [on]. *)
Variable handlers : string -> option Handler.

(** [if (msg.id !== undefined) return JSON.stringify(r); return null] *)
Definition reply (msg : JSONValue) (r : JSONValue -> JSONValue)
  : option string :=
  match prop msg "id" with
  | Some i => Some (JSON_stringify (r i))
  | None => None
  end.

(** [dispatch(raw)]; [None] is the [null] of "nothing to send". *)
Definition dispatch (raw : string) : option string :=
  match JSON_parse raw with
  | None => None
  | Some msg =>
      if falsy msg then None
      else
        match prop msg "jsonrpc", prop msg "method" with
        | Some (JStr v), Some (JStr method) =>
            if negb (String.eqb v "2.0") then None
            else
              match handlers method with
              | None =>
                  reply msg (fun i =>
                    error_response i (-32601)
                      ("Method not found: " ++ method))
              | Some h =>
                  match h (prop msg "params") (prop msg "id") with
                  | Returns res =>
                      reply msg (fun i =>
                        result_response i
                          (match res with Some v => v | None => JNull end))
                  | Raises m =>
                      reply msg (fun i => error_response i (-32000) m)
                  end
              end
        | _, _ => None
        end
  end.

End Dispatch.

End Jsonrpc.

(* ===================================================================== *)
(** ** src/sessions.ts: SessionStore *)
(* ===================================================================== *)

Module Store.
Import Host.

(** [private map = new Map<string, Session>()]: the entries in
    insertion order. *)
Definition SessionStore : Type := list (string * Session).

Definition empty : SessionStore := [].

(** [map.set(k, v)]: an existing key keeps its place. *)
Fixpoint map_set (m : SessionStore) (k : string) (v : Session)
  : SessionStore :=
  match m with
  | [] => [(k, v)]
  | (k', v') :: rest =>
      if String.eqb k' k then (k, v) :: rest
      else (k', v') :: map_set rest k v
  end.

(** [newSession()]; the random identifier and the clock are inputs. *)
Definition newSession (st : SessionStore) (sid : string) (t : Z)
  : Session * SessionStore :=
  let s := Sessions.newSession sid t in (s, map_set st sid s).

(** [get(id)] *)
Definition get (st : SessionStore) (sid : string) : option Session :=
  match find (fun kv => String.eqb (fst kv) sid) st with
  | Some kv => Some (snd kv)
  | None => None
  end.

(** [all()] *)
Definition all (st : SessionStore) : list Session := map snd st.

(** [remove(id)] *)
Definition remove (st : SessionStore) (sid : string) : SessionStore :=
  filter (fun kv => negb (String.eqb (fst kv) sid)) st.

End Store.

(* ===================================================================== *)
(** ** src/server.ts: terminal.status, terminal.list, terminal.attach,
       and the exit event of the PTY adapter *)
(* ===================================================================== *)

Module Tools.
Import JS Host Server.

Local Open Scope string_scope.

(** The object terminal.status returns. *)
Record StatusResult : Type := mkStatus {
  st_status : SessionStatus;
  st_exitCode : option (option Z);
  st_output : jsstring
}.

(** The object terminal.attach returns. *)
Record AttachResult : Type := mkAttach {
  at_sessionId : string;
  at_output : jsstring;
  at_status : SessionStatus
}.

(** One element of the array terminal.list returns. *)
Record ListEntry : Type := mkEntry {
  le_id : string;
  le_status : SessionStatus;
  le_command : jsstring;
  le_lastActivity : Z
}.

(** [invoke] of terminal.status *)
Definition status_invoke (w : World) (sessionId : string)
  : Outcome StatusResult :=
  match store_get w sessionId with
  | Some session =>
      Ok (mkStatus (status session) (exitCode session)
            (join (buf session)))
  | None => Throws "Session not found"
  end.

(** [invoke] of terminal.attach *)
Definition attach_invoke (w : World) (sessionId : string)
  : Outcome AttachResult :=
  match store_get w sessionId with
  | Some session =>
      Ok (mkAttach (id session) (join (buf session)) (status session))
  | None => Throws "Session not found"
  end.

(** [s.split('\n')[0]]: the text before the first line feed. *)
Fixpoint first_line (s : jsstring) : jsstring :=
  match s with
  | [] => []
  | c :: r => if (c =? 0x0A)%N then [] else c :: first_line r
  end.

(** [invoke] of terminal.list, on the result of [store.all()]. *)
Definition list_invoke (sessions : list Session) : list ListEntry :=
  map (fun session =>
         mkEntry (id session) (status session)
           (first_line (join (buf session))) (lastByteAt session))
      sessions.

(** The exit event as an adapter of [maybeRunPTY] receives it: the
    child process reports a signal name or [null], the PTY a signal
    number or [null]. *)
Inductive ExitEvent : Type :=
| ChildExit (code : option Z) (signal : option string)
| PtyExit (exitCode : option Z) (signal : option Z).

(** The PTY adapter's [onExit]: a signal number becomes its decimal
    text ([signal.toString()], never empty, so [signalName || null]
    keeps it). *)
Definition pty_signal_name (signal : option Z) : option string :=
  match signal with
  | Some n => Some (NilZero.string_of_int (Z.to_int n))
  | None => None
  end.

(** The adapter hands the exit event to the callbacks registered by
    terminal.run. *)
Definition adapter_exit (w : World) (e : ExitEvent) : World :=
  match e with
  | ChildExit code signal => on_exit w code signal
  | PtyExit code signal => on_exit w code (pty_signal_name signal)
  end.

End Tools.

(* ===================================================================== *)
(** ** src/mcp/server.ts: createMCPServer *)
(* ===================================================================== *)

Module Mcp.
Import Jsonrpc.

Local Open Scope string_scope.

(** [ToolDef]. [invoke] is a function of the input alone here: the
    progress notifications a tool sends while it runs are left out. *)
Record ToolDef : Type := mkTool {
  name : string;
  description : string;
  inputSchema : JSONValue;
  invoke : option JSONValue -> Handled
}.

(** [ServerOptions] *)
Record ServerOptions : Type := mkServerOptions {
  so_name : string;
  so_version : string
}.

(** *** Numbers as text

    [Number::toString(x, 10)] of ECMAScript on the integers. [JNum z]
    stands for the Number nearest to [z]; up to [2 ^ 53] every integer
    is a Number and prints with all its digits, above it a Number
    prints with the fewest digits that read back as the same Number,
    and from [10 ^ 21] on in exponent form. *)

(** The decimal digits of an integer, with a minus sign when negative. *)
Definition decimal (z : Z) : string := NilZero.string_of_int (Z.to_int z).

(** The Number nearest to a non-negative integer: 53 significant bits,
    ties to the even significand; [None] is [Infinity]. *)
Definition to_double (m : Z) : option Z :=
  if (m <? 2 ^ 53)%Z then Some m
  else
    let u := (2 ^ (Z.log2 m - 52))%Z in
    let q := (m / u)%Z in
    let r := (m mod u)%Z in
    let q' := if (2 * r <? u)%Z then q
              else if (u <? 2 * r)%Z then (q + 1)%Z
              else if Z.even q then q else (q + 1)%Z in
    if (q' * u <? 2 ^ 1024)%Z then Some (q' * u)%Z else None.

Definition reads_as (x c : Z) : bool :=
  match to_double c with
  | Some v => (v =? x)%Z
  | None => false
  end.

(** The numeral with [k] significant digits that reads back as the
    Number [x], if there is one: the multiple of [10 ^ (n - k)] just
    below or just above [x] ([n] the number of digits of [x]), the
    nearer one when both read back as [x]. *)
Definition candidate (x k : Z) : option Z :=
  let n := Z.of_nat (String.length (decimal x)) in
  let scale := (10 ^ (n - k))%Z in
  let lo := (x / scale * scale)%Z in
  let hi := (lo + scale)%Z in
  match reads_as x lo, reads_as x hi with
  | true, true =>
      Some (if (x - lo <? hi - x)%Z then lo
            else if (hi - x <? x - lo)%Z then hi
            else if Z.even (lo / scale) then lo else hi)
  | true, false => Some lo
  | false, true => Some hi
  | false, false => None
  end.

Fixpoint shortest_from (fuel : nat) (x k : Z) : Z :=
  match fuel with
  | O => x
  | S fuel' =>
      match candidate x k with
      | Some c => c
      | None => shortest_from fuel' x (k + 1)%Z
      end
  end.

(** The numeral with the fewest significant digits that reads back as
    [x]; seventeen digits always do. *)
Definition shortest (x : Z) : Z := shortest_from 17 x 1.

Fixpoint drop_trailing_zeros (s : string) : string :=
  match s with
  | EmptyString => EmptyString
  | String c r =>
      match drop_trailing_zeros r with
      | EmptyString =>
          if Ascii.eqb c "0"%char then EmptyString
          else String c EmptyString
      | r' => String c r'
      end
  end.

(** [Number::toString]: all digits below [10 ^ 21], then the digits
    [d.ddd] followed by [e+] and the exponent. *)
Definition Number_toString (z : Z) : string :=
  let sign := if (z <? 0)%Z then "-" else EmptyString in
  match to_double (Z.abs z) with
  | None => sign ++ "Infinity"
  | Some x =>
      let c := if (x <? 2 ^ 53)%Z then x else shortest x in
      let d := decimal c in
      let n := Z.of_nat (String.length d) in
      if (n <=? 21)%Z then sign ++ d
      else
        match drop_trailing_zeros d with
        | String c0 EmptyString =>
            sign ++ String c0 ("e+" ++ decimal (n - 1))
        | String c0 rest =>
            sign ++ String c0 ("." ++ rest ++ "e+" ++ decimal (n - 1))
        | EmptyString => sign ++ d
        end
  end.

(** *** Values as text *)

(** An object has an own property [key]. *)
Definition has_own (fields : list (string * JSONValue)) (key : string)
  : bool :=
  existsb (fun kv => String.eqb (fst kv) key) fields.

(** [`${v}`]: the text of a value inside a template literal, [None]
    when the conversion throws a TypeError. An array prints its
    elements separated by commas, [null] elements as nothing. An
    object prints through the [toString] it inherits; when it has an
    own property [toString], that value is not a function (no value of
    [JSON.parse] is), the inherited [valueOf] returns the object
    itself, and the conversion throws. *)
Fixpoint template (v : JSONValue) : option string :=
  match v with
  | JNull => Some "null"
  | JBool true => Some "true"
  | JBool false => Some "false"
  | JNum z => Some (Number_toString z)
  | JStr s => Some s
  | JArr items =>
      (fix go (l : list JSONValue) : option string :=
         match l with
         | [] => Some EmptyString
         | x :: r =>
             match (match x with
                    | JNull => Some EmptyString
                    | _ => template x
                    end) with
             | None => None
             | Some e =>
                 match r with
                 | [] => Some e
                 | _ => match go r with
                        | Some t => Some (e ++ "," ++ t)
                        | None => None
                        end
                 end
             end
         end) items
  | JObj fields =>
      if has_own fields "toString" then None else Some "[object Object]"
  end.

Definition template_opt (v : option JSONValue) : option string :=
  match v with
  | Some x => template x
  | None => Some "undefined"
  end.

(** The message of the TypeError the host (V8) throws when an object
    cannot be converted to a primitive value. *)
Definition to_primitive_error : string :=
  "Cannot convert object to primitive value".

(** [tools.find(t => t.name === name)] *)
Definition find_tool (tools : list ToolDef) (nm : option JSONValue)
  : option ToolDef :=
  match nm with
  | Some (JStr n) => find (fun t => String.eqb (name t) n) tools
  | _ => None
  end.

(** [result && result.content ? result : { content: [ result ] }];
    an [undefined] result inside the array is what [JSON.stringify]
    prints as [null]. *)
Definition wrap_result (result : option JSONValue) : JSONValue :=
  match result with
  | Some r =>
      let content_truthy :=
        match prop r "content" with
        | Some c => negb (falsy c)
        | None => false
        end in
      if negb (falsy r) && content_truthy then r
      else JObj [("content", JArr [r])]
  | None => JObj [("content", JArr [JNull])]
  end.

(** The handler of "tools/call". When no tool is found the error
    message is built with a template literal; if that conversion
    throws, its TypeError is what leaves the handler. *)
Definition tools_call (tools : list ToolDef) : Handler :=
  fun params _ =>
    let p := match params with
             | Some v => if falsy v then JObj [] else v
             | None => JObj []
             end in
    let nm := prop p "name" in
    let input := prop p "arguments" in
    match find_tool tools nm with
    | None =>
        match template_opt nm with
        | Some text => Raises ("Unknown tool: " ++ text)
        | None => Raises to_primitive_error
        end
    | Some tool =>
        match invoke tool input with
        | Returns result => Returns (Some (wrap_result result))
        | Raises m => Raises m
        end
    end.

(** The handler of "initialize". *)
Definition initialize_result (opts : ServerOptions) : JSONValue :=
  JObj [("protocol", JStr "mcp-lite");
        ("server", JObj [("name", JStr (so_name opts));
                         ("version", JStr (so_version opts))]);
        ("capabilities", JObj [("tools", JBool true);
                               ("sampling", JBool false);
                               ("resources", JBool false)])].

(** The handler of "tools/list". *)
Definition tools_list_result (tools : list ToolDef) : JSONValue :=
  JObj [("tools",
         JArr (map (fun t => JObj [("name", JStr (name t));
                                   ("description", JStr (description t));
                                   ("inputSchema", inputSchema t)])
                   tools))].

(** The handlers [createMCPServer] registers with [rpc.on]. *)
Definition handlers (opts : ServerOptions) (tools : list ToolDef)
  (method : string) : option Handler :=
  if String.eqb method "initialize"
  then Some (fun _ _ => Returns (Some (initialize_result opts)))
  else if String.eqb method "tools/list"
  then Some (fun _ _ => Returns (Some (tools_list_result tools)))
  else if String.eqb method "tools/call"
  then Some (tools_call tools)
  else None.

Section Serve.

Variable JSON_parse : string -> option JSONValue.
Variable JSON_stringify : JSONValue -> string.

(** [if (out) tx.send(out)]: an empty string is not sent. *)
Definition sent (out : option string) : option string :=
  match out with
  | Some s => if String.eqb s EmptyString then None else Some s
  | None => None
  end.

(** The callback [createMCPServer] gives to the transport: what it
    sends for one input line. *)
Definition on_line (opts : ServerOptions) (tools : list ToolDef)
  (line : string) : option string :=
  sent (dispatch JSON_parse JSON_stringify (handlers opts tools) line).

End Serve.

(** The tools [startServer] hands to [createMCPServer], in its order:
    the tool of [TerminalAwareness.getTools()] first, then the six of
    server.ts. The schemas (they embed [process.cwd()]) and the
    [invoke] functions are arguments. *)
Record ToolBodies : Type := mkBodies {
  schema_of : string -> JSONValue;
  exec_invoke : option JSONValue -> Handled;   (* TerminalAwareness *)
  run_invoke : option JSONValue -> Handled;    (* createRunTool *)
  status_invoke : option JSONValue -> Handled;
  write_invoke : option JSONValue -> Handled;
  signal_invoke : option JSONValue -> Handled;
  list_invoke : option JSONValue -> Handled;
  attach_invoke : option JSONValue -> Handled
}.

Definition startServer_tools (b : ToolBodies) : list ToolDef :=
  [ mkTool "terminal.run" "Execute a terminal command"
      (schema_of b "exec") (exec_invoke b);
    mkTool "terminal.run"
      "Run a shell command with awareness of completion vs waiting"
      (schema_of b "run") (run_invoke b);
    mkTool "terminal.status" "Get the status of a terminal session"
      (schema_of b "status") (status_invoke b);
    mkTool "terminal.write" "Write to a terminal session"
      (schema_of b "write") (write_invoke b);
    mkTool "terminal.signal" "Send a signal to a terminal session"
      (schema_of b "signal") (signal_invoke b);
    mkTool "terminal.list" "List all active terminal sessions"
      (schema_of b "list") (list_invoke b);
    mkTool "terminal.attach"
      "Attach to a terminal session to receive updates"
      (schema_of b "attach") (attach_invoke b) ].

End Mcp.

(* ===================================================================== *)
(** * Properties *)
(* ===================================================================== *)

(** ** Predicates the statements use *)

Module Props.
Import JS Regex Ansi Prompts Host.

Local Open Scope string_scope.

(** The sentence of the specification about spinner frames, word for
    word: after stripping and trimming, equal length, a final character
    among the four spinner characters on both sides, and equality
    before it. *)
Definition spinner_frame_spec (prev next : jsstring) : Prop :=
  let a := trimEnd (stripAnsi prev) in
  let b := trimEnd (stripAnsi next) in
  length a = length b /\
  exists a0 ca b0 cb,
    a = (a0 ++ [ca])%list /\ b = (b0 ++ [cb])%list /\
    In ca spinners /\ In cb spinners /\ a0 = b0.

(** The fields of a session that no timer bookkeeping touches. *)
Definition data_of (s : Session) :=
  (id s, buf s, lastByteAt s, status s, errorReason s,
   (exitCode s, exitSignal s, totalBytes s, maxBufferBytes s, adapter s)).

(** The part of the world outside the session and the timer table. *)
Definition env_of (w : World) :=
  (heur w, now w, progressLog w, calls w,
   (timeoutId w, promise w, stored w, quietFires w, completions w)).

(** The sum of the UTF-8 byte lengths of the chunks of a buffer. *)
Definition chunk_bytes (b : list jsstring) : Z :=
  fold_right (fun c acc => byteLength c + acc) 0 b.

(** The chunks handed to [onChunk], oldest first. *)
Fixpoint chunks_of (es : list Sessions.Event) : list jsstring :=
  match es with
  | [] => []
  | Sessions.Chunk text :: es' => text :: chunks_of es'
  | _ :: es' => chunks_of es'
  end.

(** The invariant of the buffer under a configured cap [m]. *)
Definition buffer_ok (m : Z) (s : Session) : Prop :=
  maxBufferBytes s = Some m /\
  totalBytes s = Some (chunk_bytes (buf s)) /\
  (chunk_bytes (buf s) <= m \/ length (buf s) = 1%nat).

Definition buffer_of (s : Session) :=
  (buf s, totalBytes s, maxBufferBytes s).

(** The handle through which the code can still reach an armed timer. *)
Definition owned (w : World) (t : Timer) : Prop :=
  match kind t with
  | QuietComplete => quietTimer (sess w) = Some (tid t)
  | IdlePoll _ _ => idleTimer (sess w) = Some (tid t)
  | CommandTimeout => timeoutId w = Some (tid t)
  | StoreRemove => True
  end.

(** Every armed timer has its own identifier, allocated in the past, and
    every armed quiet, idle or timeout timer is the one its handle
    names. *)
Definition timers_ok (w : World) : Prop :=
  NoDup (map tid (timers w)) /\
  Forall (fun t => (tid t < nextTimer w)%nat /\ owned w t) (timers w).

Definition handles (w : World) :=
  (quietTimer (sess w), idleTimer (sess w), timeoutId w).

(** No armed timer satisfies [p]. *)
Definition none_armed (p : Timer -> bool) (w : World) : Prop :=
  forall t, In t (timers w) -> p t = false.

(** Events of a wired session that arm nothing: time passing and
    timers firing. *)
Definition passive (e : Sessions.Event) : Prop :=
  match e with
  | Sessions.Advance _ | Sessions.Fire _ => True
  | _ => False
  end.

(** One quiet timer, reachable through handle [h], is pending on a
    session that is not terminal; [n] callbacks have run and [c]
    completions happened so far. *)
Definition pending_once (n c h N : nat) (w : World) : Prop :=
  timers_ok w /\ is_terminal (status (sess w)) = false /\
  quietFires w = n /\ completions w = c /\
  quietTimer (sess w) = Some h /\ nextTimer w = N /\
  exists t, In t (timers w) /\ kind t = QuietComplete /\ tid t = h.

(** The pending timer has fired, once, and completed the session. *)
Definition fired_once (n c : nat) (w : World) : Prop :=
  timers_ok w /\ status (sess w) = Completed /\
  quietFires w = S n /\ completions w = S c /\
  none_armed is_quiet w.

(** The world the second exit callback hands to [cleanup]. *)
Definition before_cleanup_2 (w : World) (code : option Z)
  (sg : option string) : World :=
  let w1 := disarm_opt w (timeoutId w) in
  let isError := negb (Server.is_zero code) || Server.some_signal sg in
  let st := if isError then Error else Completed in
  let w2 := with_sess w1 (set_exit (set_status (sess w1) st) code sg) in
  if isError then
    let reason :=
      "Process exited with code " ++ Server.show_code code ++
      match sg with
      | Some x => if String.eqb x EmptyString then EmptyString
                  else ", signal: " ++ x
      | None => EmptyString
      end in
    Server.reject
      (with_sess w2 (set_errorReason (sess w2) (Some reason))) reason
  else
    Server.resolve w2
      (mkResult (id (sess w2)) (join (buf (sess w2))) code true None).

(** The status each exit callback writes. *)
Definition exit_status_1 (code : option Z) : SessionStatus :=
  if Server.is_zero code then Completed else Error.

Definition exit_status_2 (code : option Z) (sg : option string)
  : SessionStatus :=
  if negb (Server.is_zero code) || Server.some_signal sg
  then Error else Completed.

(** The record the first exit callback resolves with. *)
Definition exit_result (w : World) (code : option Z) : CommandResult :=
  mkResult (id (sess w)) (join (buf (sess w))) code (Server.is_zero code)
    (if Server.is_zero code then None
     else Some ("Process exited with code " ++ Server.show_code code)).

(** Statuses from which the idle poll and the timeout do nothing. *)
Definition settled (st : SessionStatus) : Prop :=
  st = PossiblyStuck \/ st = Completed \/ st = Error.

Definition not_exit (e : Server.Event) : Prop :=
  match e with
  | Server.ProcExit _ _ => False
  | _ => True
  end.

Definition running_or_waiting (st : SessionStatus) : bool :=
  status_eqb st Running || status_eqb st Waiting.

End Props.

(** ** Concrete inputs the examples run on *)

Module Samples.
Import JS Regex Host Jsonrpc.

Local Open Scope string_scope.

(** A parser and a printer to run [dispatch] on: the parser knows one
    request line and rejects every other line, the printer only tells
    the responses apart by their error code. *)
Definition quoted (s : string) : string :=
  let q := String (Ascii.ascii_of_nat 34) EmptyString in q ++ s ++ q.

Definition unknown_method_line : string :=
  "{" ++ quoted "jsonrpc" ++ ":" ++ quoted "2.0" ++ ","
      ++ quoted "id" ++ ":1,"
      ++ quoted "method" ++ ":" ++ quoted "nope" ++ "}".

Definition sample_parse (raw : string) : option JSONValue :=
  if String.eqb raw unknown_method_line
  then Some (JObj [("jsonrpc", JStr "2.0"); ("id", JNum 1);
                   ("method", JStr "nope")])
  else None.

Definition sample_stringify (v : JSONValue) : string :=
  match prop v "error" with
  | Some e =>
      match prop e "code" with
      | Some (JNum (-32601)) => "error -32601"
      | Some (JNum (-32700)) => "error -32700"
      | _ => "error"
      end
  | None => "result"
  end.

Definition no_handlers (method : string) : option Handler := None.

(** terminal.run spawned an adapter for session [s1] at time 0. *)
Definition default_input : Server.RunCommandOptions :=
  Server.mkRun None None None None None.

Definition started (input : Server.RunCommandOptions) (a : Adapter)
  : World :=
  match Server.invoke input "s1" 0 (Server.Ok a) with
  | Server.InvokeStarted w => w
  | Server.InvokeThrew _ w => w
  end.

Definition after (w : World) (es : list Server.Event) : World :=
  match Server.run w es with
  | Some w' => w'
  | None => w
  end.

(** The session of a command that printed [hi] and exited with code 0. *)
Definition exited_world : World :=
  after (started default_input ChildProcessAdapter)
        [Server.Data (lit "hi"); Server.Advance 20;
         Server.ProcExit (Some 0) None].

(** The session of a command whose prompt came back and stayed quiet
    for 300 ms. *)
Definition quiet_completed_world : World :=
  after (started default_input ChildProcessAdapter)
        [Server.Data (lit "user@host:~$ "); Server.Advance 300;
         Server.Fire 2%nat].

(** The session of a command, run without timeout, that printed one
    byte and then blocked for 46 s: the idle poll first reports
    waiting, then possibly stuck. *)
Definition stuck_world : World :=
  after (started (Server.mkRun (Some 0) None None None None)
           ChildProcessAdapter)
        [Server.Data (lit "x"); Server.Advance 11000; Server.Fire 0%nat;
         Server.Advance 35000; Server.Fire 0%nat].

(** The session terminal.run sets up: a new session, its cap replaced
    by the configured [m], wired with the same cap. *)
Definition configured (sid : string) (t0 m : Z) (q wa st : option Z)
  : World :=
  Sessions.wireHeuristics
    (Sessions.world_of
       (set_maxBufferBytes (Sessions.newSession sid t0) (Some m)) t0)
    (Sessions.mkOpts q wa st (Some m)).

(** A running session with its idle poll started. *)
Definition running_session : Session :=
  set_status (Sessions.newSession "s1" 0) Running.

Definition live_world : World :=
  Sessions.startIdleTimers
    (Sessions.wireHeuristics (Sessions.world_of running_session 0)
       Sessions.no_opts)
    None None.

End Samples.

(** ** Shapes of terminal text *)

Module Texts.
Import JS Regex Ansi Prompts.

(** No ESC (U+001B) occurs in [s]. *)
Definition esc_free (s : jsstring) : bool :=
  forallb (fun c => negb (c =? 0x1B)%N) s.

(** The parameters of an SGR sequence: digits and semicolons. *)
Definition sgr_params (ps : jsstring) : bool :=
  forallb is_digit_or_semicolon ps.

(** An SGR sequence: ESC, an opening bracket, the parameters, [m]. *)
Definition sgr (ps : jsstring) : jsstring :=
  (0x1B :: 0x5B :: ps ++ [0x6D])%N.

(** Text in which every piece of plain text is followed by an SGR
    sequence, then a plain tail; and the same text without the
    sequences. *)
Fixpoint styled (segs : list (jsstring * jsstring)) (tail : jsstring)
  : jsstring :=
  match segs with
  | [] => tail
  | (txt, ps) :: rest => txt ++ sgr ps ++ styled rest tail
  end.

Fixpoint unstyled (segs : list (jsstring * jsstring)) (tail : jsstring)
  : jsstring :=
  match segs with
  | [] => tail
  | (txt, _) :: rest => txt ++ unstyled rest tail
  end.

Definition plain_segment (seg : jsstring * jsstring) : Prop :=
  esc_free (fst seg) = true /\ sgr_params (snd seg) = true.

(** The position right after [pre] is the start of a line, the position
    right before [rest] the end of one. *)
Definition line_begin (pre : jsstring) : Prop :=
  match rev pre with
  | [] => True
  | c :: _ => is_line_terminator c = true
  end.

Definition line_end (rest : jsstring) : Prop :=
  match rest with
  | [] => True
  | c :: _ => is_line_terminator c = true
  end.

(** [s] holds a dollar or hash sign, then white space, at the end of a
    line. *)
Definition posix_shape (s : jsstring) : Prop :=
  exists pre c sp rest,
    s = pre ++ c :: sp :: rest /\
    dollar_or_hash c = true /\ is_space sp = true /\ line_end rest.

(** [s] holds, from the start of a line, [PS ], one or more code units
    other than line feed and [>], then [>] and white space at the end
    of a line. *)
Definition powershell_shape (s : jsstring) : Prop :=
  exists pre body sp rest,
    s = pre ++ lit "PS " ++ body ++ (0x3E)%N :: sp :: rest /\
    line_begin pre /\ body <> [] /\ forallb not_nl_gt body = true /\
    is_space sp = true /\ line_end rest.

(** No line terminator occurs in [s]. *)
Definition one_line (s : jsstring) : bool :=
  forallb (fun c => negb (is_line_terminator c)) s.

(** The prompt pattern of a session is unset or one of the built-in
    patterns. *)
Definition builtin_prompt (p : option re) : Prop :=
  p = None \/ exists r, In r COMMON_PROMPTS /\ p = Some r.

End Texts.
(** ** What a pattern denotes *)

Module RegexSem.
Import JS Regex.

(** What a pattern matches, apart from any matching strategy:
    [Matches r prev s prev' s'] says that [r] can consume a prefix of
    [s], with [prev] the code unit just before it, and leave [s'],
    with [prev'] the code unit just before [s']. *)
Inductive Matches
  : re -> option N -> jsstring -> option N -> jsstring -> Prop :=
| M_eps prev s : Matches Eps prev s prev s
| M_chr p c prev s : p c = true -> Matches (Chr p) prev (c :: s) (Some c) s
| M_seq a b p0 s0 p1 s1 p2 s2 :
    Matches a p0 s0 p1 s1 -> Matches b p1 s1 p2 s2 ->
    Matches (Seq a b) p0 s0 p2 s2
| M_alt_l a b p0 s0 p1 s1 :
    Matches a p0 s0 p1 s1 -> Matches (Alt a b) p0 s0 p1 s1
| M_alt_r a b p0 s0 p1 s1 :
    Matches b p0 s0 p1 s1 -> Matches (Alt a b) p0 s0 p1 s1
| M_star_0 a prev s : Matches (Star a) prev s prev s
| M_star_1 a p0 s0 p1 s1 p2 s2 :
    Matches a p0 s0 p1 s1 -> (length s1 < length s0)%nat ->
    Matches (Star a) p1 s1 p2 s2 ->
    Matches (Star a) p0 s0 p2 s2
| M_bol_start s : Matches Bol None s None s
| M_bol_line c s :
    is_line_terminator c = true -> Matches Bol (Some c) s (Some c) s
| M_eol_end prev : Matches Eol prev [] prev []
| M_eol_line prev c s :
    is_line_terminator c = true -> Matches Eol prev (c :: s) prev (c :: s).

End RegexSem.
(** ** Predicates about a running terminal.run call *)

Module RunProps.
Import JS Host.

Local Open Scope string_scope.

(** The order in which a session moves through its statuses; the two
    final statuses share the last place. *)
Definition status_rank (st : SessionStatus) : nat :=
  match st with
  | Idle => 0
  | Running => 1
  | Waiting => 2
  | PossiblyStuck => 3
  | Completed | Error => 4
  end.

Definition is_waiting_msg (m : Progress) : bool :=
  match m with IdleWaiting _ => true | _ => false end.

Definition is_stuck_msg (m : Progress) : bool :=
  match m with NoOutputStuck _ => true | _ => false end.

(** How many messages of a kind the call has sent so far. *)
Definition count_msgs (p : Progress -> bool) (w : World) : nat :=
  length (filter p (progressLog w)).

(** The idle messages sent so far agree with the status: none while
    running, one waiting message while waiting, one stuck message while
    possibly stuck, and never more than one of each. *)
Definition log_agrees (w : World) : Prop :=
  let cw := count_msgs is_waiting_msg w in
  let cs := count_msgs is_stuck_msg w in
  match status (sess w) with
  | Idle | Running => cw = 0%nat /\ cs = 0%nat
  | Waiting => cw = 1%nat /\ cs = 0%nat
  | PossiblyStuck => (cw <= 1)%nat /\ cs = 1%nat
  | Completed | Error => (cw <= 1)%nat /\ (cs <= 1)%nat
  end.

Definition is_received_msg (m : Progress) : bool :=
  match m with Received _ => true | _ => false end.

(** The call started at [t0] with idle thresholds [wa] and [st]: the
    idle poll carries these thresholds, the last output is not older
    than the start, and a session is waiting (possibly stuck) only
    when more than [wa] ([st]) ms have passed since the start. *)
Definition idle_inv (t0 wa st : Z) (w : World) : Prop :=
  t0 <= now w /\ t0 <= lastByteAt (sess w) /\
  (forall u a b, In u (timers w) -> kind u = IdlePoll a b ->
                 a = wa /\ b = st) /\
  (status (sess w) = Waiting -> t0 + wa < now w) /\
  (status (sess w) = PossiblyStuck -> t0 + st < now w).

(** The chunks the adapter has delivered, oldest first. *)
Fixpoint data_chunks (es : list Server.Event) : list jsstring :=
  match es with
  | [] => []
  | Server.Data chunk :: es' => chunk :: data_chunks es'
  | _ :: es' => data_chunks es'
  end.

(** [held] is the longest suffix of [chunks] that fits in [m] bytes:
    it is a suffix, and the chunk dropped last would not fit with
    it. *)
Definition longest_fit (m : Z) (chunks held : list jsstring) : Prop :=
  exists dropped,
    chunks = (dropped ++ held)%list /\
    match rev dropped with
    | [] => True
    | c :: _ => m < byteLength c + Props.chunk_bytes held
    end.

Definition is_command_timeout (t : Timer) : bool :=
  match kind t with CommandTimeout => true | _ => false end.

(** The one adapter call terminal.run ever makes. *)
Definition kill_sigterm : AdapterCall := CallKill (Some "SIGTERM").

(** Until the timeout timer (due at [D]) has run, terminal.run has made
    no adapter call; afterwards at most the one kill, not before [D],
    and no timeout timer is left. [tmo] is the configured timeout. *)
Definition kill_inv (D tmo : Z) (w : World) : Prop :=
  (calls w = [] /\
   forall u, In u (timers w) -> kind u = CommandTimeout ->
             due u = D /\ 0 < tmo) \/
  (calls w = [kill_sigterm] /\ 0 < tmo /\ D <= now w /\
   forall u, In u (timers w) -> kind u <> CommandTimeout).

(** The session is in the store and no removal is scheduled. *)
Definition kept (w : World) : Prop :=
  stored w = true /\
  forall u, In u (timers w) -> kind u <> StoreRemove.

(** No removal is due before [T], and the session is in the store
    until then. *)
Definition grace_inv (T : Z) (w : World) : Prop :=
  T <= now w + 60000 /\
  (forall u, In u (timers w) -> kind u = StoreRemove -> T <= due u) /\
  (stored w = true \/ T <= now w).

(** The [errorReason] the second exit callback writes when the exit
    counts as an error. *)
Definition exit_reason (code : option Z) (sg : option string) : string :=
  "Process exited with code " ++ Server.show_code code ++
  match sg with
  | Some x => if String.eqb x EmptyString then EmptyString
              else ", signal: " ++ x
  | None => EmptyString
  end.





End RunProps.

(** ** Predicates about requests *)

Module RequestProps.
Import Jsonrpc Mcp.

Local Open Scope string_scope.

(** A line the dispatcher answers: it parses to a value with [jsonrpc]
    "2.0", a string [method] and an [id]. *)
Definition request (parse : string -> option JSONValue) (raw : string)
  (msg : JSONValue) (method : string) (i : JSONValue) : Prop :=
  parse raw = Some msg /\
  prop msg "jsonrpc" = Some (JStr "2.0") /\
  prop msg "method" = Some (JStr method) /\
  prop msg "id" = Some i.

(** The same tools with another [invoke] for the run tool of
    server.ts. *)
Definition set_run_invoke (b : ToolBodies)
  (f : option JSONValue -> Handled) : ToolBodies :=
  mkBodies (schema_of b) (exec_invoke b) f (status_invoke b)
    (write_invoke b) (signal_invoke b) (list_invoke b) (attach_invoke b).

(** [params || {}] *)
Definition params_or_empty (params : option JSONValue) : JSONValue :=
  match params with
  | Some v => if falsy v then JObj [] else v
  | None => JObj []
  end.

(** The text of the error a tools/call for the unknown name [nm]
    carries: the message built with the template literal, or the
    message of the TypeError the literal throws. *)
Definition unknown_tool_text (nm : option JSONValue) : string :=
  match template_opt nm with
  | Some text => "Unknown tool: " ++ text
  | None => to_primitive_error
  end.

(** The entry terminal.list gives for a session: its id, status and
    last activity, and under [command] the output up to its first line
    feed. *)
Definition lists_session (s : Host.Session) (e : Tools.ListEntry)
  : Prop :=
  Tools.le_id e = Host.id s /\
  Tools.le_status e = Host.status s /\
  Tools.le_lastActivity e = Host.lastByteAt s /\
  forallb (fun c => negb (c =? 0x0A)%N) (Tools.le_command e) = true /\
  exists rest,
    JS.join (Host.buf s) = (Tools.le_command e ++ rest)%list /\
    (rest = [] \/ exists r, rest = (0x0A)%N :: r).

End RequestProps.

(** ** The spinner-frame test *)

Module AnsiFacts.
Import JS Regex Ansi Props.

Lemma jsstring_eqb_eq a b : jsstring_eqb a b = true <-> a = b.
Proof.
  unfold jsstring_eqb. destruct (list_eq_dec N.eq_dec a b); split;
    intros; congruence.
Qed.

Lemma at_last_snoc (a : jsstring) c : at_last (a ++ [c]) = Some c.
Proof. unfold at_last. rewrite rev_app_distr. reflexivity. Qed.

Lemma slice_init_snoc (a : jsstring) c : slice_init (a ++ [c]) = a.
Proof. unfold slice_init. apply removelast_last. Qed.

Lemma snoc_cases (a : jsstring) : a = [] \/ exists a0 c, a = a0 ++ [c].
Proof.
  destruct a as [|x a] using rev_ind; [left; reflexivity|].
  right. exists a, x. reflexivity.
Qed.

Lemma includes_spinner c :
  includes_short spinners (Some c) = true <-> In c spinners.
Proof.
  change (includes_short spinners (Some c))
    with (existsb (N.eqb c) spinners).
  rewrite existsb_exists. split.
  - intros [x [Hin Heq]]. apply N.eqb_eq in Heq. subst. exact Hin.
  - intros Hin. exists c. split; [exact Hin | apply N.eqb_refl].
Qed.

Lemma isLikelySpinnerFrame_unfold (prev next : jsstring) :
  isLikelySpinnerFrame prev next =
  let a := trimEnd (stripAnsi prev) in
  let b := trimEnd (stripAnsi next) in
  (length a =? length b)%nat
  && includes_short spinners (at_last a)
  && includes_short spinners (at_last b)
  && jsstring_eqb (slice_init a) (slice_init b).
Proof.
  unfold isLikelySpinnerFrame. cbv zeta.
  destruct (length (trimEnd (stripAnsi prev))
            =? length (trimEnd (stripAnsi next)))%nat; [|reflexivity].
  destruct (includes_short spinners (at_last (trimEnd (stripAnsi prev))));
    [|reflexivity].
  destruct (includes_short spinners (at_last (trimEnd (stripAnsi next))));
    reflexivity.
Qed.

(** What the function computes: the specification's condition, or both
    lines empty once stripped and trimmed. *)
Lemma isLikelySpinnerFrame_char (prev next : jsstring) :
  isLikelySpinnerFrame prev next = true <->
  spinner_frame_spec prev next \/
  (trimEnd (stripAnsi prev) = [] /\ trimEnd (stripAnsi next) = []).
Proof.
  rewrite isLikelySpinnerFrame_unfold. unfold spinner_frame_spec.
  cbv zeta.
  generalize (trimEnd (stripAnsi prev)) as a.
  generalize (trimEnd (stripAnsi next)) as b.
  intros b a.
  rewrite !andb_true_iff, Nat.eqb_eq, jsstring_eqb_eq.
  destruct (snoc_cases a) as [Ha | [a0 [ca Ha]]];
    destruct (snoc_cases b) as [Hb | [b0 [cb Hb]]]; subst a b.
  - split; [intros _; right; split; reflexivity|].
    intros _. repeat split; reflexivity.
  - rewrite length_app. simpl length. split.
    + intros [[[Hl _] _] _]. lia.
    + intros [[Hl _] | [_ Hc]]; [lia | destruct b0; discriminate].
  - rewrite length_app. simpl length. split.
    + intros [[[Hl _] _] _]. lia.
    + intros [[Hl _] | [Hc _]]; [lia | destruct a0; discriminate].
  - rewrite !at_last_snoc, !slice_init_snoc, !includes_spinner. split.
    + intros [[[Hl Hca] Hcb] Heq]. left. split; [exact Hl|].
      exists a0, ca, b0, cb. repeat split; assumption.
    + intros [[Hl [x0 [xa [y0 [yb [H1 [H2 [H3 [H4 H5]]]]]]]]] | [Hc _]].
      * apply app_inj_tail in H1, H2. destruct H1, H2. subst.
        repeat split; auto.
      * destruct a0; discriminate.
Qed.

(** C6. [isLikelySpinnerFrame] is meant to accept exactly the pairs
    that, once stripped and trimmed, have equal length, end in a spinner
    character and agree before it. On an empty previous line and a blank
    next line (the first blank line of a command's output), and on two
    empty lines, neither side has a final character, yet the function
    answers [true]. *)
Theorem isLikelySpinnerFrame_blank_lines :
  isLikelySpinnerFrame [] (lit " ") = true /\
  ~ spinner_frame_spec [] (lit " ") /\
  isLikelySpinnerFrame [] [] = true /\
  ~ spinner_frame_spec [] [].
Proof.
  repeat split; try reflexivity.
  - intros [_ [a0 [ca [b0 [cb [H _]]]]]].
    vm_compute in H. destruct a0; discriminate.
  - intros [_ [a0 [ca [b0 [cb [H _]]]]]].
    vm_compute in H. destruct a0; discriminate.
Qed.

End AnsiFacts.

(* ===================================================================== *)
(** ** JSON-RPC dispatch *)
(* ===================================================================== *)

Module JsonrpcFacts.
Import Jsonrpc Samples.

Local Open Scope string_scope.

(** C9, as the code has it. A request object ([jsonrpc] is "2.0",
    [method] is a string) that carries an [id] and names a method
    without handler is answered with the JSON-RPC error -32601 and the
    request's id; a line [JSON.parse] rejects is answered with nothing
    at all: [dispatch] returns [null], no -32700 error is produced. *)
Theorem dispatch_protocol_errors
  (JSON_parse : string -> option JSONValue)
  (JSON_stringify : JSONValue -> string)
  (handlers : string -> option Handler) (raw : string) :
  (forall fields method i,
      JSON_parse raw = Some (JObj fields) ->
      lookup_field "jsonrpc" fields = Some (JStr "2.0") ->
      lookup_field "method" fields = Some (JStr method) ->
      lookup_field "id" fields = Some i ->
      handlers method = None ->
      dispatch JSON_parse JSON_stringify handlers raw =
      Some (JSON_stringify
              (error_response i (-32601) ("Method not found: " ++ method))))
  /\
  (JSON_parse raw = None ->
   dispatch JSON_parse JSON_stringify handlers raw = None).
Proof.
  split.
  - intros fields method i Hp Hv Hm Hi Hh. unfold dispatch.
    rewrite Hp. simpl falsy. cbv iota. unfold reply. simpl prop.
    rewrite Hv, Hm, Hi. simpl. rewrite Hh. reflexivity.
  - intros Hp. unfold dispatch. rewrite Hp. reflexivity.
Qed.

Lemma dispatch_protocol_errors_witness :
  dispatch sample_parse sample_stringify no_handlers unknown_method_line
    = Some "error -32601"
  /\ dispatch sample_parse sample_stringify no_handlers "{" = None.
Proof.
  destruct (dispatch_protocol_errors sample_parse sample_stringify
              no_handlers unknown_method_line) as [H _].
  destruct (dispatch_protocol_errors sample_parse sample_stringify
              no_handlers "{") as [_ H'].
  split.
  - rewrite (H [("jsonrpc", JStr "2.0"); ("id", JNum 1);
                ("method", JStr "nope")] "nope" (JNum 1));
      reflexivity.
  - apply H'. reflexivity.
Defined.

(** The specification as written asks for a -32700 response to every
    line that is not valid JSON. The line [{] is rejected by the parser
    and the server sends nothing. *)
Lemma dispatch_malformed_line_silent :
  sample_parse "{" = None /\
  ~ (exists response,
        dispatch sample_parse sample_stringify no_handlers "{"
        = Some response).
Proof.
  split; [reflexivity|]. intros [r H]. vm_compute in H. discriminate.
Qed.

End JsonrpcFacts.

(* ===================================================================== *)
(** ** terminal.write, terminal.signal and the run timeout *)
(* ===================================================================== *)

Module ToolFacts.
Import JS Regex Host Sessions Server Props Samples.

Local Open Scope string_scope.

Lemma status_eqb_eq a b : status_eqb a b = true <-> a = b.
Proof. destruct a, b; simpl; split; congruence. Qed.

(** C7, as the code has it. terminal.write fails, and writes nothing,
    exactly when the session is not in the store or has no adapter;
    in every other case, whatever the session status, it hands [data]
    unchanged to the adapter and reports success. *)
Theorem write_invoke_cases (w : World) (sessionId : string)
  (data : jsstring) :
  ((store_get w sessionId = None \/
    exists s, store_get w sessionId = Some s /\ adapter s = None) ->
   write_invoke w sessionId data
   = (Throws "Session not found or not active", w))
  /\
  ((exists s a, store_get w sessionId = Some s /\ adapter s = Some a) ->
   fst (write_invoke w sessionId data) = Ok true /\
   calls (snd (write_invoke w sessionId data))
   = (calls w ++ [CallWrite data])%list /\
   sess (snd (write_invoke w sessionId data)) = sess w).
Proof.
  unfold write_invoke. split.
  - intros [H | [s [H Ha]]]; rewrite H; [reflexivity|].
    rewrite Ha. reflexivity.
  - intros [s [a [H Ha]]]. rewrite H, Ha. repeat split.
Qed.

Lemma write_invoke_cases_witness :
  write_invoke exited_world "s2" (lit "y")
  = (Throws "Session not found or not active", exited_world)
  /\
  calls (snd (write_invoke (started default_input PtyAdapter) "s1"
                (lit "y")))
  = [CallWrite (lit "y")].
Proof.
  destruct (write_invoke_cases exited_world "s2" (lit "y")) as [H1 _].
  destruct (write_invoke_cases (started default_input PtyAdapter) "s1"
              (lit "y")) as [_ H2].
  split.
  - apply H1. left. vm_compute. reflexivity.
  - destruct H2 as [_ [H2 _]].
    + exists (sess (started default_input PtyAdapter)), PtyAdapter.
      split; vm_compute; reflexivity.
    + exact H2.
Defined.

(** The specification as written forbids a write to a session in a
    terminal state. The session of a command that has exited with code
    0 is [completed], still holds its adapter, and terminal.write
    writes to it. *)
Lemma write_reaches_completed_session :
  status (sess exited_world) = Completed /\
  adapter (sess exited_world) = Some ChildProcessAdapter /\
  fst (write_invoke exited_world "s1" (lit "y")) = Ok true /\
  calls (snd (write_invoke exited_world "s1" (lit "y")))
  = [CallWrite (lit "y")].
Proof. vm_compute. repeat split. Qed.

(** C8. terminal.signal is documented to default to SIGINT and to turn
    CTRL_C into a write of the byte 0x03. On a live session the code
    calls [adapter.kill("SIGTERM")] when [signal] is left out, and
    [adapter.kill("CTRL_C")] for CTRL_C; it never writes. This is so
    whether the adapter's [kill] returns or throws. *)
Theorem signal_invoke_default_and_ctrl_c (kill : string -> Outcome unit) :
  let w := started default_input ChildProcessAdapter in
  calls (snd (signal_invoke w "s1" None kill))
  = [CallKill (Some "SIGTERM")]
  /\ calls (snd (signal_invoke w "s1" (Some "CTRL_C") kill))
     = [CallKill (Some "CTRL_C")]
  /\ calls (snd (signal_invoke w "s1" (Some "CTRL_C") kill))
     <> [CallWrite [3%N]].
Proof.
  cbv zeta. unfold signal_invoke.
  assert (E : store_get (started default_input ChildProcessAdapter) "s1"
              = Some (sess (started default_input ChildProcessAdapter)))
    by (vm_compute; reflexivity).
  rewrite E.
  assert (A : adapter (sess (started default_input ChildProcessAdapter))
              = Some ChildProcessAdapter) by (vm_compute; reflexivity).
  rewrite A.
  assert (C : calls (started default_input ChildProcessAdapter) = [])
    by (vm_compute; reflexivity).
  destruct (kill "SIGTERM"); destruct (kill "CTRL_C");
    cbn [snd calls with_call]; rewrite C; cbn [app];
    repeat split; discriminate.
Qed.

(** *** The timeout of terminal.run *)

Lemma sess_take_timer w t : sess (take_timer w t) = sess w.
Proof. unfold take_timer. destruct (kind t); reflexivity. Qed.

Lemma calls_take_timer w t : calls (take_timer w t) = calls w.
Proof. unfold take_timer. destruct (kind t); reflexivity. Qed.

Lemma timeout_fire_effect w h t :
  due_timer w h = Some t -> kind t = CommandTimeout ->
  exists w',
    fire w h = Some w' /\
    (running_or_waiting (status (sess w)) = false ->
     sess w' = sess w /\ calls w' = calls w) /\
    (running_or_waiting (status (sess w)) = true ->
     sess w' = set_errorReason (set_status (sess w) Error)
                 (Some "Command timed out") /\
     calls w' = (calls w ++ [CallKill (Some "SIGTERM")])%list).
Proof.
  intros Hd Hk. unfold fire. rewrite Hd, Hk.
  eexists. split; [reflexivity|].
  unfold timeout_fired, running_or_waiting. rewrite sess_take_timer.
  destruct (status_eqb (status (sess w)) Running
            || status_eqb (status (sess w)) Waiting).
  - split; [discriminate|]. intros _.
    cbn [sess with_sess with_call calls].
    rewrite ?sess_take_timer, ?calls_take_timer. split; reflexivity.
  - split; [|discriminate]. intros _.
    rewrite ?sess_take_timer, ?calls_take_timer. split; reflexivity.
Qed.

(** C10. A run with [timeoutMs > 0] arms one timeout timer. When it
    fires in a status other than running and waiting, no call reaches
    the adapter and the session is unchanged; when it fires in running
    or waiting, the status becomes error, the reason 'Command timed
    out', and the adapter is sent SIGTERM. *)
Theorem timeout_handler_guard (input : RunCommandOptions) (sid : string)
  (t0 : Z) (a : Adapter) (tmo : Z) :
  timeoutMs input = Some tmo -> tmo > 0 ->
  exists w0 h,
    invoke input sid t0 (Ok a) = InvokeStarted w0 /\
    timeoutId w0 = Some h /\
    find_timer w0 h = Some (mkTimer h CommandTimeout (t0 + timer_delay tmo))
    /\
    forall w t,
      due_timer w h = Some t -> kind t = CommandTimeout ->
      exists w',
        fire w h = Some w' /\
        (running_or_waiting (status (sess w)) = false ->
         sess w' = sess w /\ calls w' = calls w) /\
        (running_or_waiting (status (sess w)) = true ->
         sess w' = set_errorReason (set_status (sess w) Error)
                     (Some "Command timed out") /\
         calls w' = (calls w ++ [CallKill (Some "SIGTERM")])%list).
Proof.
  intros Ht Hpos.
  unfold invoke, wireHeuristics. rewrite Ht. cbn [nullish o_maxBufferBytes].
  destruct (Z.gtb_spec tmo 0) as [E | E]; [|lia].
  destruct (truthy (Some (nullish (i_maxBufferBytes input)
                            (2 * 1024 * 1024))));
    (eexists; exists 1%nat;
     split; [reflexivity|]; split; [reflexivity|]; split; [reflexivity|];
     intros w t; apply timeout_fire_effect).
Qed.

Lemma timeout_handler_guard_witness :
  exists w',
    fire (after (started default_input ChildProcessAdapter)
            [Advance 30000]) 1%nat = Some w' /\
    status (sess w') = Error /\
    errorReason (sess w') = Some "Command timed out" /\
    calls w' = [CallKill (Some "SIGTERM")].
Proof.
  destruct (timeout_handler_guard
              (mkRun (Some 30000) None None None None) "s1" 0
              ChildProcessAdapter 30000 eq_refl ltac:(lia))
    as [w0 [h [H1 [H2 [H3 H4]]]]].
  assert (Hw : w0 = started default_input ChildProcessAdapter).
  { vm_compute in H1. injection H1 as <-. vm_compute. reflexivity. }
  assert (Hh : h = 1%nat).
  { rewrite Hw in H2. vm_compute in H2. injection H2 as <-. reflexivity. }
  subst h.
  destruct (H4 (after (started default_input ChildProcessAdapter)
                  [Advance 30000])
               (mkTimer 1 CommandTimeout 30000))
    as [w' [F1 [_ F3]]].
  - vm_compute. reflexivity.
  - reflexivity.
  - exists w'. split; [exact F1|].
    destruct F3 as [S1 S2]; [vm_compute; reflexivity|].
    rewrite S1, S2. vm_compute. repeat split.
Defined.

End ToolFacts.

(* ===================================================================== *)
(** ** What each handler leaves alone *)
(* ===================================================================== *)

Module Frames.
Import JS Regex Ansi Prompts Host Sessions Props.

Lemma data_of_fields s s' :
  data_of s = data_of s' ->
  id s = id s' /\ buf s = buf s' /\ lastByteAt s = lastByteAt s' /\
  status s = status s' /\ errorReason s = errorReason s' /\
  exitCode s = exitCode s' /\ exitSignal s = exitSignal s' /\
  totalBytes s = totalBytes s' /\ maxBufferBytes s = maxBufferBytes s' /\
  adapter s = adapter s'.
Proof.
  unfold data_of. intros H. injection H. intros.
  repeat split; assumption.
Qed.

Lemma env_of_fields w w' :
  env_of w = env_of w' ->
  heur w = heur w' /\ now w = now w' /\ progressLog w = progressLog w' /\
  calls w = calls w' /\ timeoutId w = timeoutId w' /\
  promise w = promise w' /\ stored w = stored w' /\
  quietFires w = quietFires w' /\ completions w = completions w'.
Proof.
  unfold env_of. intros H. injection H. intros.
  repeat split; assumption.
Qed.

Lemma scheduleQuietComplete_frame w d :
  data_of (sess (scheduleQuietComplete w d)) = data_of (sess w) /\
  env_of (scheduleQuietComplete w d) = env_of w /\
  lastLine (scheduleQuietComplete w d) = lastLine w /\
  promptRe (sess (scheduleQuietComplete w d)) = promptRe (sess w) /\
  idleTimer (sess (scheduleQuietComplete w d)) = idleTimer (sess w).
Proof.
  unfold scheduleQuietComplete, disarm_opt.
  destruct (quietTimer (sess w)); repeat split.
Qed.

Lemma classify_line_frame w line :
  data_of (sess (classify_line w line)) = data_of (sess w) /\
  env_of (classify_line w line) = env_of w /\
  idleTimer (sess (classify_line w line)) = idleTimer (sess w).
Proof.
  unfold classify_line.
  destruct (nonempty line && isLikelySpinnerFrame (lastLine w) line);
    [repeat split|].
  destruct (promptRe (sess (with_lastLine w line))) as [r|] eqn:Er.
  - rewrite Er.
    destruct (test r line); [|repeat split].
    match goal with |- context [scheduleQuietComplete ?x ?y] =>
      destruct (scheduleQuietComplete_frame x y) as [H1 [H2 [_ [_ H3]]]]
    end.
    rewrite H1, H2, H3. repeat split.
  - match goal with |- context [match ?x with Some _ => _ | None => _ end] =>
      destruct x as [r|] eqn:Er'
    end; [|repeat split].
    destruct (test r line); [|repeat split].
    match goal with |- context [scheduleQuietComplete ?x ?y] =>
      destruct (scheduleQuietComplete_frame x y) as [H1 [H2 [_ [_ H3]]]]
    end.
    rewrite H1, H2, H3. repeat split.
Qed.

Lemma classify_lines_frame lines : forall w,
  data_of (sess (fold_left classify_line lines w)) = data_of (sess w) /\
  env_of (fold_left classify_line lines w) = env_of w /\
  idleTimer (sess (fold_left classify_line lines w)) = idleTimer (sess w).
Proof.
  induction lines as [|l lines IH]; intros w; simpl; [repeat split|].
  destruct (IH (classify_line w l)) as [H1 [H2 H3]].
  destruct (classify_line_frame w l) as [G1 [G2 G3]].
  rewrite H1, H2, H3, G1, G2, G3. repeat split.
Qed.

End Frames.

(* ===================================================================== *)
(** ** The timer table *)
(* ===================================================================== *)

Module TimerFacts.
Import JS Regex Ansi Prompts Host Sessions Props Frames.

Lemma owned_ext w w' t : handles w = handles w' -> owned w t -> owned w' t.
Proof.
  unfold handles, owned. intros H. injection H as H1 H2 H3.
  destruct (kind t); congruence.
Qed.

Lemma timers_ok_ext w w' :
  timers w' = timers w -> nextTimer w' = nextTimer w ->
  handles w' = handles w -> timers_ok w -> timers_ok w'.
Proof.
  intros Ht Hn Hh [Hnd Hall]. unfold timers_ok. rewrite Ht, Hn.
  split; [exact Hnd|].
  eapply Forall_impl; [|exact Hall]. intros t [H1 H2].
  split; [exact H1|]. eapply owned_ext; [symmetry; exact Hh | exact H2].
Qed.

(** The world differs from one satisfying [timers_ok] only outside the
    timer table and the handles. *)
Ltac same_timers H :=
  eapply timers_ok_ext; [| | |exact H]; reflexivity.

Lemma NoDup_map_filter {A B} (f : A -> B) (p : A -> bool) l :
  NoDup (map f l) -> NoDup (map f (filter p l)).
Proof.
  induction l as [|x l IH]; simpl; intros H; [constructor|].
  inversion H as [|? ? Hx Hl]; subst.
  destruct (p x); simpl; [constructor|]; auto.
  intros Hin. apply Hx. apply in_map_iff in Hin.
  destruct Hin as [y [Hy Hin]]. apply filter_In in Hin.
  apply in_map_iff. exists y. tauto.
Qed.

Lemma disarm_ok w h : timers_ok w -> timers_ok (disarm w h).
Proof.
  intros [Hnd Hall]. unfold timers_ok, disarm.
  cbn [timers nextTimer with_timers].
  split; [apply NoDup_map_filter; exact Hnd|].
  apply Forall_forall. intros t Hin. apply filter_In in Hin.
  rewrite Forall_forall in Hall. destruct (Hall t (proj1 Hin)) as [H1 H2].
  split; [exact H1 | exact H2].
Qed.

Lemma disarm_opt_ok w h : timers_ok w -> timers_ok (disarm_opt w h).
Proof. destruct h; simpl; [apply disarm_ok | auto]. Qed.

Lemma in_disarm w h t :
  In t (timers (disarm w h)) <-> In t (timers w) /\ tid t <> h.
Proof.
  unfold disarm. cbn [timers with_timers]. rewrite filter_In.
  destruct (Nat.eqb_spec (tid t) h); simpl; intuition congruence.
Qed.

(** Disarming through the handle removes every timer of that kind. *)
Lemma disarm_quiet_none w :
  timers_ok w -> none_armed is_quiet (disarm_opt w (quietTimer (sess w))).
Proof.
  intros [_ Hall] t Hin. rewrite Forall_forall in Hall.
  destruct (is_quiet t) eqn:E; [|reflexivity]. exfalso.
  unfold is_quiet in E.
  destruct (quietTimer (sess w)) as [h|] eqn:Eh; simpl in Hin.
  - apply in_disarm in Hin. destruct Hin as [Hin Hne].
    destruct (Hall t Hin) as [_ Ho]. unfold owned in Ho.
    destruct (kind t); try discriminate. congruence.
  - destruct (Hall t Hin) as [_ Ho]. unfold owned in Ho.
    destruct (kind t); try discriminate. congruence.
Qed.

Lemma disarm_idle_none w :
  timers_ok w -> none_armed is_idle_poll (disarm_opt w (idleTimer (sess w))).
Proof.
  intros [_ Hall] t Hin. rewrite Forall_forall in Hall.
  destruct (is_idle_poll t) eqn:E; [|reflexivity]. exfalso.
  unfold is_idle_poll in E.
  destruct (idleTimer (sess w)) as [h|] eqn:Eh; simpl in Hin.
  - apply in_disarm in Hin. destruct Hin as [Hin Hne].
    destruct (Hall t Hin) as [_ Ho]. unfold owned in Ho.
    destruct (kind t); try discriminate. congruence.
  - destruct (Hall t Hin) as [_ Ho]. unfold owned in Ho.
    destruct (kind t); try discriminate. congruence.
Qed.

Lemma none_armed_disarm p w h :
  none_armed p w -> none_armed p (disarm w h).
Proof. intros H t Hin. apply in_disarm in Hin. apply H. tauto. Qed.

Lemma none_armed_disarm_opt p w h :
  none_armed p w -> none_armed p (disarm_opt w h).
Proof. destruct h; simpl; [apply none_armed_disarm | auto]. Qed.

(** Arming a timer in a world [w], then updating handles to reach [w']. *)
Lemma arm_ok w w' k d :
  timers_ok w ->
  timers w' = timers w ++ [mkTimer (nextTimer w) k d] ->
  nextTimer w' = S (nextTimer w) ->
  (forall t, In t (timers w) -> owned w t -> owned w' t) ->
  owned w' (mkTimer (nextTimer w) k d) ->
  timers_ok w'.
Proof.
  intros [Hnd Hall] Ht Hn Hold Hnew. unfold timers_ok. rewrite Ht, Hn.
  rewrite Forall_forall in Hall. split.
  - rewrite map_app. simpl. apply NoDup_app; [exact Hnd | | ].
    + constructor; [intros []|constructor].
    + intros x Hx [Hy | []]. subst x. apply in_map_iff in Hx.
      destruct Hx as [t [Heq Hin]]. destruct (Hall t Hin) as [Hlt _]. lia.
  - apply Forall_forall. intros t Hin. apply in_app_or in Hin.
    destruct Hin as [Hin | [Heq | []]].
    + destruct (Hall t Hin) as [Hlt Ho]. split; [lia | auto].
    + subst t. split; [simpl; lia | exact Hnew].
Qed.

Lemma scheduleQuietComplete_timers w d :
  timers (scheduleQuietComplete w d)
  = timers (disarm_opt w (quietTimer (sess w)))
    ++ [mkTimer (nextTimer w) QuietComplete (now w + timer_delay d)] /\
  nextTimer (scheduleQuietComplete w d) = S (nextTimer w) /\
  quietTimer (sess (scheduleQuietComplete w d)) = Some (nextTimer w).
Proof.
  unfold scheduleQuietComplete, disarm_opt.
  destruct (quietTimer (sess w)); repeat split.
Qed.

Lemma scheduleQuietComplete_ok w d :
  timers_ok w -> timers_ok (scheduleQuietComplete w d).
Proof.
  intros Hok.
  destruct (scheduleQuietComplete_timers w d) as [Ht [Hn Hq]].
  destruct (scheduleQuietComplete_frame w d) as [_ [He [_ [_ Hi]]]].
  apply env_of_fields in He.
  assert (Hd := disarm_opt_ok w (quietTimer (sess w)) Hok).
  assert (Hnone := disarm_quiet_none w Hok).
  set (w1 := disarm_opt w (quietTimer (sess w))) in *.
  assert (Hs1 : sess w1 = sess w /\ nextTimer w1 = nextTimer w
                /\ timeoutId w1 = timeoutId w /\ now w1 = now w).
  { unfold w1, disarm_opt. destruct (quietTimer (sess w)); repeat split. }
  destruct Hs1 as [Hs1 [Hn1 [Ht1 Hnow1]]].
  apply (arm_ok w1 _ QuietComplete (now w + timer_delay d) Hd).
  - rewrite Hn1. exact Ht.
  - rewrite Hn1. exact Hn.
  - intros t Hin Ho. specialize (Hnone t Hin). unfold is_quiet in Hnone.
    unfold owned in *. destruct (kind t); try discriminate.
    + rewrite Hi, <- Hs1. exact Ho.
    + destruct He as [_ [_ [_ [_ [He _]]]]]. rewrite He, <- Ht1. exact Ho.
    + exact I.
  - unfold owned. simpl. rewrite Hn1. exact Hq.
Qed.


Lemma world_of_ok s t : timers_ok (world_of s t).
Proof. split; constructor. Qed.

Lemma wireHeuristics_ok w opts :
  timers_ok w -> timers_ok (wireHeuristics w opts).
Proof.
  intros Hok. unfold wireHeuristics.
  destruct (truthy (o_maxBufferBytes opts));
    (same_timers Hok).
Qed.

Lemma classify_line_ok w line : timers_ok w -> timers_ok (classify_line w line).
Proof.
  intros Hok. unfold classify_line.
  destruct (nonempty line && isLikelySpinnerFrame (lastLine w) line);
    [exact Hok|].
  assert (H1 : timers_ok (with_lastLine w line))
    by (same_timers Hok).
  destruct (promptRe (sess (with_lastLine w line))) as [r|] eqn:Er.
  - rewrite Er. destruct (test r line); [|exact H1].
    apply scheduleQuietComplete_ok. exact H1.
  - match goal with |- context [match ?x with Some _ => _ | None => _ end] =>
      destruct x as [r|] eqn:Er'
    end.
    + destruct (test r line).
      * apply scheduleQuietComplete_ok.
        same_timers H1.
      * same_timers H1.
    + same_timers H1.
Qed.

Lemma classify_lines_ok lines : forall w,
  timers_ok w -> timers_ok (fold_left classify_line lines w).
Proof.
  induction lines as [|l lines IH]; intros w Hok; simpl; [exact Hok|].
  apply IH. apply classify_line_ok. exact Hok.
Qed.

Lemma onChunk_ok w text : timers_ok w -> timers_ok (onChunk w text).
Proof.
  intros Hok. unfold onChunk.
  same_timers (classify_lines_ok (split_lines text) w Hok).
Qed.

Lemma startIdleTimers_ok w wp sp :
  timers_ok w -> timers_ok (startIdleTimers w wp sp).
Proof.
  intros Hok.
  assert (Hd := disarm_opt_ok w (idleTimer (sess w)) Hok).
  assert (Hnone := disarm_idle_none w Hok).
  unfold startIdleTimers.
  set (w1 := disarm_opt w (idleTimer (sess w))) in *.
  assert (Hs1 : sess w1 = sess w /\ timeoutId w1 = timeoutId w).
  { unfold w1, disarm_opt. destruct (idleTimer (sess w)); repeat split. }
  destruct Hs1 as [Hs1 Ht1].
  eapply (arm_ok w1 _ _ _ Hd).
  - reflexivity.
  - reflexivity.
  - intros t Hin Ho. specialize (Hnone t Hin). unfold is_idle_poll in Hnone.
    unfold owned in *. destruct (kind t); try discriminate; exact Ho.
  - reflexivity.
Qed.

Lemma in_find_timer w h t :
  find_timer w h = Some t -> In t (timers w) /\ tid t = h.
Proof.
  unfold find_timer. intros H. apply find_some in H.
  destruct H as [H1 H2]. apply Nat.eqb_eq in H2. tauto.
Qed.

Lemma in_due_timer w h t :
  due_timer w h = Some t ->
  In t (timers w) /\ tid t = h /\ due t <= now w.
Proof.
  unfold due_timer. destruct (find_timer w h) as [u|] eqn:E; [|discriminate].
  destruct (Z.leb_spec (due u) (now w)) as [Hle|Hgt]; [|discriminate].
  intros Heq. injection Heq as ->. apply in_find_timer in E. tauto.
Qed.

Lemma take_timer_ok w t : timers_ok w -> timers_ok (take_timer w t).
Proof.
  intros Hok. unfold take_timer.
  destruct (kind t); try (apply disarm_ok; exact Hok).
  destruct Hok as [Hnd Hall]. unfold timers_ok.
  cbn [timers nextTimer with_timers]. split.
  - rewrite map_map.
    erewrite map_ext; [exact Hnd|].
    intros u. simpl. destruct (Nat.eqb (tid u) (tid t)); reflexivity.
  - apply Forall_forall. intros u Hin. apply in_map_iff in Hin.
    destruct Hin as [v [Hv Hin]]. rewrite Forall_forall in Hall.
    destruct (Hall v Hin) as [H1 H2].
    destruct (Nat.eqb (tid v) (tid t)); subst u; split; auto.
Qed.

Lemma take_timer_frame w t :
  sess (take_timer w t) = sess w /\ env_of (take_timer w t) = env_of w /\
  nextTimer (take_timer w t) = nextTimer w /\
  lastLine (take_timer w t) = lastLine w.
Proof. unfold take_timer. destruct (kind t); repeat split. Qed.

(** A one-shot is gone from the table once taken. *)
Lemma take_one_shot w t :
  (forall a b, kind t <> IdlePoll a b) ->
  take_timer w t = disarm w (tid t).
Proof.
  unfold take_timer. destruct (kind t); intros Hk; try reflexivity.
  exfalso. eapply Hk; reflexivity.
Qed.

Lemma quiet_complete_fired_ok w :
  timers_ok w -> timers_ok (quiet_complete_fired w).
Proof.
  intros Hok. unfold quiet_complete_fired.
  cbn [sess count_quiet_fire].
  destruct (negb (is_terminal (status (sess w)))).
  - cbn [sess with_sess count_completion idleTimer set_status].
    apply disarm_opt_ok.
    same_timers Hok.
  - same_timers Hok.
Qed.

Lemma idle_poll_fired_ok a b w :
  timers_ok w -> timers_ok (idle_poll_fired a b w).
Proof.
  intros Hok. unfold idle_poll_fired.
  repeat match goal with
  | |- context [if ?c then _ else _] => destruct c
  end; (same_timers Hok).
Qed.

Lemma fire_ok w h w' : timers_ok w -> fire w h = Some w' -> timers_ok w'.
Proof.
  intros Hok. unfold fire. destruct (due_timer w h) as [t|]; [|discriminate].
  destruct (kind t); intros H; try discriminate; injection H as <-.
  - apply quiet_complete_fired_ok, take_timer_ok, Hok.
  - apply idle_poll_fired_ok, take_timer_ok, Hok.
Qed.

Lemma step_ok w e w' : timers_ok w -> step w e = Some w' -> timers_ok w'.
Proof.
  intros Hok. destruct e as [text| |wp sp|dt|h]; simpl.
  - intros H. injection H as <-. apply onChunk_ok, Hok.
  - intros H. injection H as <-. apply scheduleQuietComplete_ok, Hok.
  - intros H. injection H as <-. apply startIdleTimers_ok, Hok.
  - destruct (0 <=? dt); intros H; [|discriminate]. injection H as <-.
    same_timers Hok.
  - apply fire_ok, Hok.
Qed.

Lemma run_ok es : forall w w',
  timers_ok w -> run w es = Some w' -> timers_ok w'.
Proof.
  induction es as [|e es IH]; intros w w' Hok; simpl.
  - intros H. injection H as <-. exact Hok.
  - destruct (step w e) as [w1|] eqn:E; [|discriminate].
    apply IH. eapply step_ok; eauto.
Qed.


(** The effect of the quiet-complete callback on a session that is not
    yet terminal: one transition to completed, and neither a quiet nor
    an idle timer stays armed. *)
Lemma quiet_fire_live w t :
  timers_ok w -> In t (timers w) -> kind t = QuietComplete ->
  is_terminal (status (sess w)) = false ->
  let w' := quiet_complete_fired (take_timer w t) in
  status (sess w') = Completed /\
  none_armed is_quiet w' /\ none_armed is_idle_poll w' /\
  quietFires w' = S (quietFires w) /\
  completions w' = S (completions w) /\
  adapter (sess w') = adapter (sess w) /\
  quietTimer (sess w') = quietTimer (sess w) /\
  idleTimer (sess w') = idleTimer (sess w).
Proof.
  intros Hok Hin Hk Hlive. cbv zeta.
  assert (Hq : quietTimer (sess w) = Some (tid t)).
  { destruct Hok as [_ Hall]. rewrite Forall_forall in Hall.
    destruct (Hall t Hin) as [_ Ho]. unfold owned in Ho.
    rewrite Hk in Ho. exact Ho. }
  assert (Hnq := disarm_quiet_none w Hok). rewrite Hq in Hnq. simpl in Hnq.
  rewrite take_one_shot by (intros a b; rewrite Hk; discriminate).
  assert (Hok1 := disarm_ok w (tid t) Hok).
  unfold quiet_complete_fired. cbn [sess count_quiet_fire disarm with_timers].
  rewrite Hlive. cbn [negb].
  set (w1 := count_completion _).
  assert (Hok2 : timers_ok w1)
    by (same_timers Hok1).
  assert (Hni := disarm_idle_none w1 Hok2).
  assert (Hnq1 : none_armed is_quiet w1) by exact Hnq.
  change (idleTimer (set_status (sess w) Completed))
    with (idleTimer (sess w1)).
  split; [destruct (idleTimer (sess w1)); reflexivity|].
  split; [apply none_armed_disarm_opt; exact Hnq1|].
  split; [exact Hni|].
  repeat split; destruct (idleTimer (sess w1)); reflexivity.
Qed.


(** The idle poll never touches a session outside running and waiting,
    and never produces a terminal status. *)
Lemma idle_poll_status a b w :
  let st := status (sess w) in
  let st' := status (sess (idle_poll_fired a b w)) in
  (st' = st \/
   (st = Running /\ (st' = Waiting \/ st' = PossiblyStuck)) \/
   (st = Waiting /\ st' = PossiblyStuck)).
Proof.
  cbv zeta. unfold idle_poll_fired.
  destruct (status (sess w)) eqn:Es; cbn [status_eqb andb orb];
    rewrite ?Es; cbn [status_eqb andb orb]; try (left; exact Es).
  - destruct (now w - lastByteAt (sess w) >? a);
      destruct (now w - lastByteAt (sess w) >? b);
      cbn [sess with_sess with_progress status set_status status_eqb
           andb orb];
      rewrite ?Es; cbn [status_eqb andb orb sess with_sess with_progress
                        status set_status]; tauto.
  - destruct (now w - lastByteAt (sess w) >? b);
      cbn [sess with_sess with_progress status set_status]; rewrite ?Es;
      tauto.
Qed.

Lemma idle_poll_frame a b w :
  timers (idle_poll_fired a b w) = timers w /\
  nextTimer (idle_poll_fired a b w) = nextTimer w /\
  handles (idle_poll_fired a b w) = handles w /\
  quietFires (idle_poll_fired a b w) = quietFires w /\
  completions (idle_poll_fired a b w) = completions w /\
  now (idle_poll_fired a b w) = now w /\
  calls (idle_poll_fired a b w) = calls w /\
  promise (idle_poll_fired a b w) = promise w.
Proof.
  unfold idle_poll_fired.
  repeat match goal with
  | |- context [if ?c then _ else _] => destruct c
  end; repeat split.
Qed.

End TimerFacts.

(* ===================================================================== *)
(** ** The bounded output buffer *)
(* ===================================================================== *)

Module BufferFacts.
Import JS Regex Ansi Prompts Host Sessions Props Samples Frames.

Lemma chunk_bytes_app b c :
  chunk_bytes (b ++ c) = chunk_bytes b + chunk_bytes c.
Proof. induction b as [|x b IH]; simpl; [reflexivity | rewrite IH; lia]. Qed.

(** The trimming loop keeps the byte count exact, drops chunks from the
    front only, and stops either under the cap or at a single chunk. *)
Lemma trim_spec cap : forall b total,
  total = chunk_bytes b -> b <> [] ->
  snd (trim cap b total) = chunk_bytes (fst (trim cap b total)) /\
  (exists dropped, b = dropped ++ fst (trim cap b total)) /\
  (snd (trim cap b total) <= cap \/ length (fst (trim cap b total)) = 1%nat)
  /\ fst (trim cap b total) <> [].
Proof.
  induction b as [|x b IH]; intros total Ht Hne; [congruence|].
  destruct b as [|y b].
  - simpl. split; [exact Ht|]. split; [exists []; reflexivity|].
    split; [right; reflexivity | discriminate].
  - cbn [trim]. destruct (Z.gtb_spec total cap) as [Hgt | Hle].
    + destruct (IH (total - byteLength x)) as [H1 [[d H2] [H3 H4]]].
      * rewrite Ht. simpl. lia.
      * discriminate.
      * split; [exact H1|]. split; [|split; [exact H3 | exact H4]].
        exists (x :: d). rewrite <- app_comm_cons. f_equal. exact H2.
    + cbn [fst snd]. split; [exact Ht|]. split; [exists []; reflexivity|].
      split; [left; exact Hle | discriminate].
Qed.

Lemma or_default_pos m d : 0 < m -> or_default (Some m) d = m.
Proof.
  intros H. unfold or_default. destruct (Z.eqb_spec m 0); [lia | reflexivity].
Qed.

Lemma or_default_total b :
  or_default (Some (chunk_bytes b)) 0 = chunk_bytes b.
Proof.
  unfold or_default. destruct (Z.eqb_spec (chunk_bytes b) 0); congruence.
Qed.

Lemma onChunk_buffer m w text :
  0 < m -> buffer_ok m (sess w) ->
  buffer_ok m (sess (onChunk w text)) /\
  buf (sess (onChunk w text)) <> [] /\
  exists dropped,
    buf (sess w) ++ [text] = dropped ++ buf (sess (onChunk w text)).
Proof.
  intros Hm [Hmax [Htot Hcap]].
  unfold onChunk.
  destruct (classify_lines_frame (split_lines text) w) as [Hd _].
  apply data_of_fields in Hd.
  destruct Hd as [_ [Hb [_ [_ [_ [_ [_ [Ht [Hx _]]]]]]]]].
  set (w1 := fold_left classify_line (split_lines text) w) in *.
  rewrite Hb, Ht, Hx, Hmax, Htot, or_default_total, (or_default_pos _ _ Hm).
  cbn [sess with_sess buf set_lastByteAt set_totalBytes set_buf
       maxBufferBytes totalBytes].
  destruct (trim_spec m (buf (sess w) ++ [text])
              (chunk_bytes (buf (sess w)) + byteLength text))
    as [H1 [H2 [H3 H4]]].
  - rewrite chunk_bytes_app. simpl. lia.
  - destruct (buf (sess w)); discriminate.
  - split; [|split; [exact H4 | exact H2]].
    unfold buffer_ok.
    cbn [sess with_sess buf set_lastByteAt set_totalBytes set_buf
         maxBufferBytes totalBytes].
    split; [congruence|]. split; [rewrite H1; reflexivity|].
    rewrite <- H1. exact H3.
Qed.


Lemma buffer_ok_ext m s s' :
  buffer_of s' = buffer_of s -> buffer_ok m s -> buffer_ok m s'.
Proof.
  unfold buffer_of, buffer_ok. intros H. injection H as -> -> ->. auto.
Qed.

Lemma take_timer_sess w t : sess (take_timer w t) = sess w.
Proof. unfold take_timer. destruct (kind t); reflexivity. Qed.

Lemma quiet_complete_fired_buffer w :
  buffer_of (sess (quiet_complete_fired w)) = buffer_of (sess w).
Proof.
  unfold quiet_complete_fired. cbn [sess count_quiet_fire].
  destruct (negb (is_terminal (status (sess w)))); [|reflexivity].
  cbn [sess with_sess count_completion idleTimer set_status].
  destruct (idleTimer (sess w)); reflexivity.
Qed.

Lemma idle_poll_fired_buffer a b w :
  buffer_of (sess (idle_poll_fired a b w)) = buffer_of (sess w).
Proof.
  unfold idle_poll_fired.
  repeat match goal with
  | |- context [if ?c then _ else _] => destruct c
  end; reflexivity.
Qed.

Lemma scheduleQuietComplete_buffer w d :
  buffer_of (sess (scheduleQuietComplete w d)) = buffer_of (sess w).
Proof.
  unfold scheduleQuietComplete, disarm_opt.
  destruct (quietTimer (sess w)); reflexivity.
Qed.

Lemma startIdleTimers_buffer w wp sp :
  buffer_of (sess (startIdleTimers w wp sp)) = buffer_of (sess w).
Proof.
  unfold startIdleTimers, disarm_opt.
  destruct (idleTimer (sess w)); reflexivity.
Qed.

(** Only [onChunk] touches the buffer. *)
Lemma step_buffer w e w' :
  step w e = Some w' -> (forall text, e <> Chunk text) ->
  buffer_of (sess w') = buffer_of (sess w).
Proof.
  destruct e as [text| |wp sp|dt|h]; simpl; intros H Hne.
  - exfalso. eapply Hne. reflexivity.
  - injection H as <-. apply scheduleQuietComplete_buffer.
  - injection H as <-. apply startIdleTimers_buffer.
  - destruct (0 <=? dt); [|discriminate]. injection H as <-. reflexivity.
  - unfold fire in H. destruct (due_timer w h) as [t|]; [|discriminate].
    destruct (kind t); try discriminate; injection H as <-.
    + rewrite quiet_complete_fired_buffer, take_timer_sess. reflexivity.
    + rewrite idle_poll_fired_buffer, take_timer_sess. reflexivity.
Qed.

Lemma run_buffer m es : forall w w',
  0 < m -> buffer_ok m (sess w) -> run w es = Some w' ->
  buffer_ok m (sess w') /\
  (buf (sess w) ++ chunks_of es <> [] -> buf (sess w') <> []) /\
  exists dropped, buf (sess w) ++ chunks_of es = dropped ++ buf (sess w').
Proof.
  induction es as [|e es IH]; intros w w' Hm Hok; simpl.
  - intros H. injection H as <-. split; [exact Hok|].
    rewrite app_nil_r. split; [auto|]. exists []. reflexivity.
  - destruct (step w e) as [w1|] eqn:E; [|discriminate]. intros Hr.
    assert (Hquiet : (forall text, e <> Chunk text) ->
              buffer_ok m (sess w') /\
              (buf (sess w) ++ chunks_of es <> [] -> buf (sess w') <> []) /\
              exists dropped,
                buf (sess w) ++ chunks_of es = dropped ++ buf (sess w')).
    { intros Hne. assert (Hb := step_buffer _ _ _ E Hne).
      destruct (IH _ _ Hm (buffer_ok_ext _ _ _ Hb Hok) Hr) as [Hok' Hd].
      injection Hb as Hb _ _. rewrite Hb in Hd. auto. }
    destruct e as [text| |wp sp|dt|h];
      try (apply Hquiet; discriminate).
    simpl in E. injection E as <-.
    destruct (onChunk_buffer m w text Hm Hok) as [Hok1 [Hne1 [d1 Hd1]]].
    destruct (IH _ _ Hm Hok1 Hr) as [Hok' [Hne' [d2 Hd2]]].
    split; [exact Hok'|]. split.
    + intros _. apply Hne'. intros Hnil. apply app_eq_nil in Hnil.
      apply Hne1. tauto.
    + exists (d1 ++ d2).
      change (text :: chunks_of es) with ([text] ++ chunks_of es).
      rewrite app_assoc, Hd1, <- !app_assoc, Hd2. reflexivity.
Qed.

(** C2. With a positive configured cap [m], after every sequence of
    [onChunk], [onExit], [startIdleTimers] and timer events,
    [totalBytes] is the sum of the UTF-8 lengths of the buffered
    chunks, and it is at most [m] unless the buffer holds exactly one
    chunk; the buffer is a suffix of the chunks received (trimming
    dropped whole chunks, oldest first) and is not empty once a chunk
    has arrived, so the newest chunk is kept whatever its size. *)
Theorem buffer_invariant (sid : string) (t0 m : Z) (q wa st : option Z)
  (es : list Event) (w : World) :
  0 < m ->
  run (configured sid t0 m q wa st) es = Some w ->
  maxBufferBytes (sess w) = Some m /\
  totalBytes (sess w) = Some (chunk_bytes (buf (sess w))) /\
  (chunk_bytes (buf (sess w)) <= m \/ length (buf (sess w)) = 1%nat) /\
  (chunks_of es <> [] -> buf (sess w) <> []) /\
  exists dropped, chunks_of es = dropped ++ buf (sess w).
Proof.
  intros Hm Hr.
  assert (H0 : buffer_ok m (sess (configured sid t0 m q wa st))).
  { unfold configured, wireHeuristics. cbn [o_maxBufferBytes].
    destruct (truthy (Some m)); unfold buffer_ok; simpl;
      (split; [reflexivity|]); (split; [reflexivity|]); left; lia. }
  destruct (run_buffer m es _ _ Hm H0 Hr) as [[H1 [H2 H3]] [Hne [d Hd]]].
  assert (Hb : buf (sess (configured sid t0 m q wa st)) = []).
  { unfold configured, wireHeuristics. cbn [o_maxBufferBytes].
    destruct (truthy (Some m)); reflexivity. }
  rewrite Hb in Hne, Hd.
  repeat (split; [assumption|]).
  exists d. exact Hd.
Qed.

(** A cap of 8 bytes and the chunks [aaaaa], [bbbbb], [c]: the first
    chunk is dropped, six bytes stay. *)
Lemma buffer_invariant_witness :
  exists w,
    run (configured "s1" 0 8 None None None)
        [Chunk (lit "aaaaa"); Chunk (lit "bbbbb"); Exit; Chunk (lit "c")]
    = Some w /\
    buf (sess w) = [lit "bbbbb"; lit "c"] /\
    totalBytes (sess w) = Some 6 /\
    (chunk_bytes (buf (sess w)) <= 8 \/ length (buf (sess w)) = 1%nat).
Proof.
  eexists. split; [vm_compute; reflexivity|].
  split; [reflexivity|].
  assert (H := buffer_invariant "s1" 0 8 None None None
                 [Chunk (lit "aaaaa"); Chunk (lit "bbbbb"); Exit;
                  Chunk (lit "c")] _ ltac:(lia) ltac:(vm_compute; reflexivity)).
  destruct H as [_ [H2 [H3 _]]]. split; [exact H2 | exact H3].
Defined.

End BufferFacts.

(* ===================================================================== *)
(** ** Re-arming the quiet-complete timer *)
(* ===================================================================== *)

Module QuietFacts.
Import JS Regex Ansi Prompts Host Sessions Props Samples Frames TimerFacts.

Lemma in_take_interval w t u :
  In u (timers w) -> tid u <> tid t ->
  In u (timers (take_timer w t)).
Proof.
  intros Hin Hne. unfold take_timer.
  destruct (kind t); try (apply in_disarm; tauto).
  cbn [timers with_timers]. apply in_map_iff. exists u.
  destruct (Nat.eqb_spec (tid u) (tid t)); [contradiction|tauto].
Qed.

Lemma none_armed_take p w t :
  (forall u v, kind u = kind v -> p u = p v) ->
  none_armed p w -> none_armed p (take_timer w t).
Proof.
  intros Hp Hn u Hin. unfold take_timer in Hin.
  destruct (kind t); try (apply in_disarm in Hin; apply Hn; tauto).
  cbn [timers with_timers] in Hin. apply in_map_iff in Hin.
  destruct Hin as [v [Hv Hin]]. specialize (Hn v Hin).
  destruct (Nat.eqb (tid v) (tid t)); subst u; [|exact Hn].
  rewrite <- Hn. apply Hp. reflexivity.
Qed.

Lemma is_quiet_kind u v : kind u = kind v -> is_quiet u = is_quiet v.
Proof. unfold is_quiet. intros ->. reflexivity. Qed.

Lemma passive_step_pending n c h N w e w' :
  passive e -> step w e = Some w' -> pending_once n c h N w ->
  pending_once n c h N w' \/ fired_once n c w'.
Proof.
  intros Hp Hs [Hok [Hlive [Hn [Hc [Hq [HN [t [Hin [Hk Ht]]]]]]]]].
  assert (Hok' := step_ok w e w' Hok Hs).
  destruct e as [text| |wp sp|dt|g]; try contradiction; simpl in Hs.
  - destruct (0 <=? dt); [|discriminate]. injection Hs as <-.
    left. unfold pending_once.
    repeat (split; [assumption|]). exists t. auto.
  - unfold fire in Hs. destruct (due_timer w g) as [u|] eqn:Ed; [|discriminate].
    apply in_due_timer in Ed. destruct Ed as [Hu [Hg _]].
    destruct (kind u) as [|a b| |] eqn:Eu; try discriminate;
      injection Hs as <-.
    + right.
      destruct (quiet_fire_live w u Hok Hu Eu Hlive)
        as [H1 [H2 [_ [H4 [H5 _]]]]].
      unfold fired_once. rewrite H4, H5, Hn, Hc. auto.
    + left. destruct (take_timer_frame w u) as [Hs1 [He1 [Hn1 _]]].
      apply env_of_fields in He1.
      destruct (idle_poll_frame a b (take_timer w u))
        as [Ht2 [Hn2 [Hh2 [Hf2 [Hc2 _]]]]].
      unfold handles in Hh2. injection Hh2 as Hq2 _ _.
      assert (Hst := idle_poll_status a b (take_timer w u)).
      cbv zeta in Hst. rewrite Hs1 in Hst, Hq2.
      unfold pending_once. split; [exact Hok'|].
      split.
      { destruct Hst as [-> | [[_ [-> | ->]] | [_ ->]]];
          [exact Hlive | reflexivity ..]. }
      rewrite Hf2, Hc2, Hq2, Hn2, Hn1.
      destruct He1 as [_ [_ [_ [_ [_ [_ [_ [-> ->]]]]]]]].
      repeat (split; [assumption|]).
      exists t. rewrite Ht2. split; [|auto].
      apply in_take_interval; [exact Hin|].
      intros Heq. assert (u = t).
      { destruct Hok as [Hnd _].
        clear - Hnd Hin Hu Heq. induction (timers w) as [|x l IH];
          [contradiction|].
        simpl in Hnd. inversion Hnd as [|? ? Hx Hl]; subst.
        destruct Hin as [-> | Hin]; destruct Hu as [-> | Hu]; auto.
        - exfalso. apply Hx. apply in_map_iff. exists u. auto.
        - exfalso. apply Hx. apply in_map_iff. exists t. auto. }
      subst u. congruence.
Qed.

Lemma passive_step_fired n c w e w' :
  passive e -> step w e = Some w' -> fired_once n c w -> fired_once n c w'.
Proof.
  intros Hp Hs [Hok [Hst [Hn [Hc Hnone]]]].
  assert (Hok' := step_ok w e w' Hok Hs).
  destruct e as [text| |wp sp|dt|g]; try contradiction; simpl in Hs.
  - destruct (0 <=? dt); [|discriminate]. injection Hs as <-.
    unfold fired_once. repeat (split; [assumption|]). exact Hnone.
  - unfold fire in Hs. destruct (due_timer w g) as [u|] eqn:Ed; [|discriminate].
    apply in_due_timer in Ed. destruct Ed as [Hu [Hg _]].
    destruct (kind u) as [|a b| |] eqn:Eu; try discriminate;
      injection Hs as <-.
    + specialize (Hnone u Hu). unfold is_quiet in Hnone.
      rewrite Eu in Hnone. discriminate.
    + destruct (take_timer_frame w u) as [Hs1 [He1 [Hn1 _]]].
      apply env_of_fields in He1.
      destruct (idle_poll_frame a b (take_timer w u))
        as [Ht2 [Hn2 [Hh2 [Hf2 [Hc2 _]]]]].
      assert (Hsx := idle_poll_status a b (take_timer w u)).
      cbv zeta in Hsx. rewrite Hs1, Hst in Hsx.
      unfold fired_once. split; [exact Hok'|].
      split.
      { destruct Hsx as [-> | [[Hx _] | [Hx _]]];
          [reflexivity | discriminate ..]. }
      rewrite Hf2, Hc2.
      destruct He1 as [_ [_ [_ [_ [_ [_ [_ [-> ->]]]]]]]].
      repeat (split; [assumption|]).
      intros v Hv. rewrite Ht2 in Hv.
      revert v Hv. apply none_armed_take; [apply is_quiet_kind|exact Hnone].
Qed.

Lemma passive_run_fired n c es : forall w w',
  Forall passive es -> run w es = Some w' -> fired_once n c w ->
  fired_once n c w'.
Proof.
  induction es as [|e es IH]; intros w w' Hp; simpl.
  - intros H. injection H as <-. auto.
  - inversion Hp as [|? ? Hpe Hpes]; subst.
    destruct (step w e) as [w1|] eqn:E; [|discriminate].
    intros Hr Hf. eapply IH; eauto. eapply passive_step_fired; eauto.
Qed.

Lemma passive_run_pending n c h N es : forall w w',
  Forall passive es -> run w es = Some w' -> pending_once n c h N w ->
  pending_once n c h N w' \/ fired_once n c w'.
Proof.
  induction es as [|e es IH]; intros w w' Hp; simpl.
  - intros H. injection H as <-. auto.
  - inversion Hp as [|? ? Hpe Hpes]; subst.
    destruct (step w e) as [w1|] eqn:E; [|discriminate].
    intros Hr Hf.
    destruct (passive_step_pending n c h N w e w1) as [H1 | H1]; auto.
    + eapply IH; eauto.
    + right. eapply passive_run_fired; eauto.
Qed.


Lemma timer_delay_pos d : 1 <= timer_delay d.
Proof.
  unfold timer_delay.
  destruct (Z.ltb_spec d 1); simpl; [lia|].
  destruct (Z.ltb_spec 2147483647 d); lia.
Qed.

Lemma find_fresh_last (l : list Timer) h k d :
  (forall u, In u l -> tid u <> h) ->
  find (fun t => Nat.eqb (tid t) h) (l ++ [mkTimer h k d])
  = Some (mkTimer h k d).
Proof.
  induction l as [|x l IH]; intros Hl; simpl.
  - rewrite Nat.eqb_refl. reflexivity.
  - destruct (Nat.eqb_spec (tid x) h) as [E|E].
    + exfalso. apply (Hl x); [left; reflexivity | exact E].
    + apply IH. intros u Hu. apply Hl. right. exact Hu.
Qed.

(** Arming on a live session leaves exactly the new timer pending. *)
Lemma schedule_pending w d :
  timers_ok w -> is_terminal (status (sess w)) = false ->
  pending_once (quietFires w) (completions w) (nextTimer w)
    (S (nextTimer w)) (scheduleQuietComplete w d) /\
  find_timer (scheduleQuietComplete w d) (nextTimer w)
  = Some (mkTimer (nextTimer w) QuietComplete (now w + timer_delay d)) /\
  now (scheduleQuietComplete w d) = now w /\
  forall h, quietTimer (sess w) = Some h -> (h < nextTimer w)%nat ->
            armed (scheduleQuietComplete w d) h = false.
Proof.
  intros Hok Hlive.
  destruct (scheduleQuietComplete_timers w d) as [Ht [Hn Hq]].
  destruct (scheduleQuietComplete_frame w d) as [Hd [He _]].
  apply data_of_fields in Hd. apply env_of_fields in He.
  destruct Hd as [_ [_ [_ [Hst _]]]].
  destruct He as [_ [Hnow [_ [_ [_ [_ [_ [Hf Hc]]]]]]]].
  assert (Hfresh : forall u,
             In u (timers (disarm_opt w (quietTimer (sess w)))) ->
             tid u <> nextTimer w).
  { intros u Hu. destruct (disarm_opt_ok w (quietTimer (sess w)) Hok)
      as [_ Hall].
    rewrite Forall_forall in Hall. destruct (Hall u Hu) as [Hlt _].
    assert (nextTimer (disarm_opt w (quietTimer (sess w))) = nextTimer w)
      by (destruct (quietTimer (sess w)); reflexivity).
    lia. }
  split; [|split; [|split]].
  - unfold pending_once. rewrite Hst, Hf, Hc, Hq, Hn.
    split; [apply scheduleQuietComplete_ok; exact Hok|].
    repeat (split; [first [assumption | reflexivity]|]).
    eexists. rewrite Ht. split; [apply in_or_app; right; left; reflexivity|].
    split; reflexivity.
  - unfold find_timer. rewrite Ht. apply find_fresh_last. exact Hfresh.
  - exact Hnow.
  - intros h Hh Hlt. unfold armed. rewrite Ht, Hh. simpl disarm_opt.
    rewrite existsb_app. simpl.
    replace (Nat.eqb (nextTimer w) h) with false
      by (symmetry; apply Nat.eqb_neq; lia).
    rewrite orb_false_r.
    destruct (existsb _ _) eqn:E; [|reflexivity].
    apply existsb_exists in E. destruct E as [u [Hu Heq]].
    apply in_disarm in Hu. apply Nat.eqb_eq in Heq. tauto.
Qed.


(** The handlers of [wireHeuristics] called on their own, outside
    terminal.run. On a live session, after any history, arm the
    quiet-complete timer, let time pass without that timer firing, and
    arm it again: the first one-shot is cancelled; from then on, as
    long as nothing arms it once more, the callback runs at most once,
    and when it has run the session has made exactly one transition to
    completed and no quiet timer is left; and it does run once the
    delay has passed. *)
Theorem quiet_timer_rearm_fires_once
  (s : Session) (t0 : Z) (opts : HeuristicOptions) (pre mid : list Event)
  (w wm : World) (d1 d2 : Z) :
  run (wireHeuristics (world_of s t0) opts) pre = Some w ->
  is_terminal (status (sess w)) = false ->
  Forall passive mid ->
  run (scheduleQuietComplete w d1) mid = Some wm ->
  quietFires wm = quietFires w ->
  let h1 := nextTimer w in
  let w2 := scheduleQuietComplete wm d2 in
  armed (scheduleQuietComplete w d1) h1 = true /\
  armed w2 h1 = false /\
  (forall es w',
      Forall passive es -> run w2 es = Some w' ->
      (quietFires w' = quietFires w /\ completions w' = completions w /\
       armed_opt w' (quietTimer (sess w')) = true)
      \/
      (quietFires w' = S (quietFires w) /\
       completions w' = S (completions w) /\
       status (sess w') = Completed /\ none_armed is_quiet w')) /\
  (exists w',
      run w2 [Advance (timer_delay d2); Fire (S h1)] = Some w' /\
      quietFires w' = S (quietFires w) /\
      completions w' = S (completions w) /\
      status (sess w') = Completed /\ none_armed is_quiet w').
Proof.
  intros Hpre Hlive Hmid Hrun Hsame. cbv zeta.
  assert (Hok : timers_ok w).
  { eapply run_ok; [|exact Hpre]. apply wireHeuristics_ok, world_of_ok. }
  destruct (schedule_pending w d1 Hok Hlive) as [Hp1 [Hf1 _]].
  destruct (passive_run_pending _ _ _ _ mid _ wm Hmid Hrun Hp1)
    as [Hpm | Hfm];
    [|destruct Hfm as [_ [_ [Hx _]]]; rewrite Hsame in Hx; lia].
  destruct Hpm as [Hokm [Hlivem [Hnm [Hcm [Hqm [HNm _]]]]]].
  destruct (schedule_pending wm d2 Hokm Hlivem) as [Hp2 [Hf2 [Hnow2 Hoff]]].
  rewrite Hnm, Hcm, HNm in Hp2. rewrite HNm in Hf2.
  split; [|split; [|split]].
  - unfold armed. apply existsb_exists.
    apply in_find_timer in Hf1. destruct Hf1 as [Hin Htid].
    eexists. split; [exact Hin|]. simpl. apply Nat.eqb_refl.
  - apply Hoff; [exact Hqm | lia].
  - intros es w' Hes Hr.
    destruct (passive_run_pending _ _ _ _ es _ w' Hes Hr Hp2)
      as [Hp | Hf].
    + left. destruct Hp as [_ [_ [Hn [Hc [Hq [_ [u [Hu [_ Htu]]]]]]]]].
      repeat (split; [assumption|]). rewrite Hq. simpl. unfold armed.
      apply existsb_exists. exists u. split; [exact Hu|].
      apply Nat.eqb_eq. exact Htu.
    + right. destruct Hf as [_ [Hst [Hn [Hc Hnone]]]]. auto.
  - set (w2 := scheduleQuietComplete wm d2) in *.
    assert (Hd := timer_delay_pos d2).
    cbn [run step].
    destruct (Z.leb_spec 0 (timer_delay d2)) as [_|Hneg]; [|lia].
    set (w3 := with_now w2 (now w2 + timer_delay d2)).
    assert (Hok3 : timers_ok w3).
    { destruct Hp2 as [Hok2 _].
      same_timers Hok2. }
    assert (Hdue : due_timer w3 (S (nextTimer w))
                   = Some (mkTimer (S (nextTimer w)) QuietComplete
                             (now wm + timer_delay d2))).
    { unfold due_timer.
      change (find_timer w3 (S (nextTimer w)))
        with (find_timer w2 (S (nextTimer w))).
      rewrite Hf2. cbn [due]. unfold w3. cbn [now with_now].
      rewrite Hnow2.
      destruct (Z.leb_spec (now wm + timer_delay d2)
                  (now wm + timer_delay d2)); [reflexivity | lia]. }
    unfold fire. rewrite Hdue. cbn [kind].
    eexists. split; [reflexivity|].
    apply in_due_timer in Hdue. destruct Hdue as [Hin _].
    assert (Hlive3 : is_terminal (status (sess w3)) = false)
      by (destruct Hp2 as [_ [Hl _]]; exact Hl).
    destruct (quiet_fire_live w3 _ Hok3 Hin eq_refl Hlive3)
      as [H1 [H2 [_ [H4 [H5 _]]]]].
    destruct Hp2 as [_ [_ [Hn2 [Hc2 _]]]].
    rewrite H4, H5. unfold w3. cbn [quietFires completions with_now].
    rewrite Hn2, Hc2. auto.
Qed.

Lemma quiet_timer_rearm_fires_once_witness :
  let w1 := scheduleQuietComplete live_world 300 in
  let w2 := scheduleQuietComplete (with_now w1 50) 300 in
  armed w1 1%nat = true /\ armed w2 1%nat = false /\
  exists w',
    run w2 [Advance 300; Fire 2%nat] = Some w' /\
    quietFires w' = 1%nat /\ completions w' = 1%nat /\
    status (sess w') = Completed.
Proof.
  destruct (quiet_timer_rearm_fires_once running_session 0 no_opts
              [StartIdle None None] [Advance 50] live_world
              (with_now (scheduleQuietComplete live_world 300) 50) 300 300)
    as [H1 [H2 [_ [w' [H4 [H5 [H6 [H7 _]]]]]]]].
  - vm_compute. reflexivity.
  - vm_compute. reflexivity.
  - repeat constructor.
  - vm_compute. reflexivity.
  - vm_compute. reflexivity.
  - split; [exact H1|]. split; [exact H2|]. exists w'. auto.
Defined.

(** The same scenario through the handlers: the prompt line arms the
    timer, [onExit] arms it again, and only the second one-shot (timer
    2) can fire. *)
Example prompt_then_exit :
  exists w',
    run live_world [Chunk (lit "prompt$ "); Advance 50; Exit;
                    Advance 300; Fire 2%nat] = Some w' /\
    quietFires w' = 1%nat /\ completions w' = 1%nat /\
    status (sess w') = Completed /\
    run live_world [Chunk (lit "prompt$ "); Advance 50; Exit;
                    Advance 300; Fire 1%nat] = None.
Proof. eexists. vm_compute. repeat split. Qed.

End QuietFacts.

(* ===================================================================== *)
(** ** A running terminal.run call *)
(* ===================================================================== *)

Module ServerFacts.
Import JS Regex Ansi Prompts Host Sessions Server Props Frames TimerFacts.

Local Open Scope string_scope.

Lemma cleanup_frame w :
  data_of (sess (cleanup w)) = data_of (sess w) /\
  env_of (cleanup w) = env_of w /\
  quietTimer (sess (cleanup w)) = None /\
  idleTimer (sess (cleanup w)) = None.
Proof.
  unfold cleanup.
  destruct (quietTimer (sess w)) eqn:Eq; destruct (idleTimer (sess w)) eqn:Ei;
    cbn [sess with_sess disarm with_timers idleTimer set_quietTimer];
    rewrite ?Ei; repeat split; assumption.
Qed.

Lemma cleanup_ok w : timers_ok w -> timers_ok (cleanup w).
Proof.
  intros Hok. unfold cleanup.
  set (w1 := match quietTimer (sess w) with
             | Some h => with_sess (disarm w h)
                           (set_quietTimer (sess (disarm w h)) None)
             | None => w end).
  assert (H1 : timers_ok w1 /\ none_armed is_quiet w1).
  { assert (Hn := disarm_quiet_none w Hok).
    assert (Hd := disarm_opt_ok w (quietTimer (sess w)) Hok).
    unfold w1. destruct (quietTimer (sess w)) as [h|]; simpl in Hn, Hd;
      [|split; assumption].
    split; [|exact Hn].
    destruct Hd as [Hnd Hall]. split; [exact Hnd|].
    apply Forall_forall. intros t Hin. rewrite Forall_forall in Hall.
    destruct (Hall t Hin) as [Hlt Ho]. split; [exact Hlt|].
    specialize (Hn t Hin). unfold is_quiet in Hn. unfold owned in *.
    destruct (kind t); try discriminate; exact Ho. }
  destruct H1 as [Hok1 Hq1].
  set (w2 := match idleTimer (sess w1) with
             | Some h => with_sess (disarm w1 h)
                           (set_idleTimer (sess (disarm w1 h)) None)
             | None => w1 end).
  assert (H2 : timers_ok w2).
  { assert (Hn := disarm_idle_none w1 Hok1).
    assert (Hd := disarm_opt_ok w1 (idleTimer (sess w1)) Hok1).
    unfold w2. destruct (idleTimer (sess w1)) as [h|]; simpl in Hn, Hd;
      [|assumption].
    destruct Hd as [Hnd Hall]. split; [exact Hnd|].
    apply Forall_forall. intros t Hin. rewrite Forall_forall in Hall.
    destruct (Hall t Hin) as [Hlt Ho]. split; [exact Hlt|].
    specialize (Hn t Hin). unfold is_idle_poll in Hn. unfold owned in *.
    destruct (kind t); try discriminate; exact Ho. }
  eapply (arm_ok w2 _ _ _ H2); try reflexivity.
  intros t _ Ho. exact Ho.
Qed.


Lemma resolve_frame w r :
  sess (resolve w r) = sess w /\ timers (resolve w r) = timers w /\
  nextTimer (resolve w r) = nextTimer w /\
  timeoutId (resolve w r) = timeoutId w /\ calls (resolve w r) = calls w /\
  promise (resolve w r)
  = match promise w with Pending => Resolved r | p => p end.
Proof.
  unfold resolve. destruct (promise w) eqn:E; repeat split; exact E.
Qed.

Lemma reject_frame w m :
  sess (reject w m) = sess w /\ timers (reject w m) = timers w /\
  nextTimer (reject w m) = nextTimer w /\
  timeoutId (reject w m) = timeoutId w /\ calls (reject w m) = calls w /\
  promise (reject w m)
  = match promise w with Pending => Rejected m | p => p end.
Proof.
  unfold reject. destruct (promise w) eqn:E; repeat split; exact E.
Qed.

Lemma resolve_ok w r : timers_ok w -> timers_ok (resolve w r).
Proof.
  intros Hok. destruct (resolve_frame w r) as [H1 [H2 [H3 [H4 _]]]].
  eapply timers_ok_ext; [exact H2 | exact H3 | | exact Hok].
  unfold handles. rewrite H1, H4. reflexivity.
Qed.

Lemma reject_ok w m : timers_ok w -> timers_ok (reject w m).
Proof.
  intros Hok. destruct (reject_frame w m) as [H1 [H2 [H3 [H4 _]]]].
  eapply timers_ok_ext; [exact H2 | exact H3 | | exact Hok].
  unfold handles. rewrite H1, H4. reflexivity.
Qed.

Lemma exit_handler_1_ok w code sg :
  timers_ok w -> timers_ok (exit_handler_1 w code sg).
Proof.
  intros Hok. unfold exit_handler_1. apply resolve_ok, cleanup_ok.
  eapply timers_ok_ext;
    [| | |exact (disarm_opt_ok w (timeoutId w) Hok)];
    destruct (timeoutId w); reflexivity.
Qed.

Lemma exit_handler_2_cleanup w code sg :
  exit_handler_2 w code sg = cleanup (before_cleanup_2 w code sg).
Proof. reflexivity. Qed.

Lemma before_cleanup_2_ok w code sg :
  timers_ok w -> timers_ok (before_cleanup_2 w code sg).
Proof.
  intros Hok. unfold before_cleanup_2. cbv zeta.
  assert (H2 : timers_ok
                 (with_sess (disarm_opt w (timeoutId w))
                    (set_exit
                       (set_status (sess (disarm_opt w (timeoutId w)))
                          (if negb (is_zero code) || some_signal sg
                           then Error else Completed)) code sg))).
  { eapply timers_ok_ext;
      [| | |exact (disarm_opt_ok w (timeoutId w) Hok)];
      destruct (timeoutId w); reflexivity. }
  destruct (negb (is_zero code) || some_signal sg).
  - apply reject_ok. same_timers H2.
  - apply resolve_ok. exact H2.
Qed.

Lemma exit_handler_2_ok w code sg :
  timers_ok w -> timers_ok (exit_handler_2 w code sg).
Proof.
  intros Hok. rewrite exit_handler_2_cleanup.
  apply cleanup_ok, before_cleanup_2_ok, Hok.
Qed.

Lemma on_exit_ok w code sg : timers_ok w -> timers_ok (on_exit w code sg).
Proof. intros. apply exit_handler_2_ok, exit_handler_1_ok. assumption. Qed.


Lemma timeout_fired_ok w : timers_ok w -> timers_ok (timeout_fired w).
Proof.
  intros Hok. unfold timeout_fired.
  destruct (_ || _); [|exact Hok].
  same_timers Hok.
Qed.

Lemma server_fire_ok w h w' :
  timers_ok w -> Server.fire w h = Some w' -> timers_ok w'.
Proof.
  intros Hok. unfold Server.fire.
  destruct (due_timer w h) as [t|]; [|discriminate].
  destruct (kind t); intros H; injection H as <-.
  - apply quiet_complete_fired_ok, take_timer_ok, Hok.
  - apply idle_poll_fired_ok, take_timer_ok, Hok.
  - apply timeout_fired_ok, take_timer_ok, Hok.
  - same_timers (take_timer_ok w t Hok).
Qed.

Lemma server_step_ok w e w' :
  timers_ok w -> Server.step w e = Some w' -> timers_ok w'.
Proof.
  intros Hok. destruct e as [chunk|code sg|dt|h]; simpl.
  - intros H. injection H as <-. unfold on_data.
    same_timers (onChunk_ok w chunk Hok).
  - intros H. injection H as <-. apply on_exit_ok, Hok.
  - destruct (0 <=? dt)%Z; intros H; [|discriminate]. injection H as <-.
    same_timers Hok.
  - apply server_fire_ok, Hok.
Qed.

Lemma server_run_ok es : forall w w',
  timers_ok w -> Server.run w es = Some w' -> timers_ok w'.
Proof.
  induction es as [|e es IH]; intros w w' Hok; simpl.
  - intros H. injection H as <-. exact Hok.
  - destruct (Server.step w e) as [w1|] eqn:E; [|discriminate].
    apply IH. eapply server_step_ok; eauto.
Qed.

(** The world terminal.run hands back after a successful spawn. *)
Lemma invoke_started input sid t0 a :
  exists w0,
    invoke input sid t0 (Ok a) = InvokeStarted w0 /\
    timers_ok w0 /\ promise w0 = Pending /\
    id (sess w0) = sid /\ adapter (sess w0) = Some a /\
    status (sess w0) = Running /\ buf (sess w0) = [].
Proof.
  unfold invoke. eexists. split; [reflexivity|].
  set (w2 := wireHeuristics _ _).
  assert (Hok2 : timers_ok w2) by (apply wireHeuristics_ok, world_of_ok).
  assert (Hok3 := startIdleTimers_ok w2 None None Hok2).
  assert (Hs2 : promise w2 = Pending /\ id (sess w2) = sid /\
                adapter (sess w2) = Some a /\ status (sess w2) = Running /\
                buf (sess w2) = [] /\ timeoutId w2 = None).
  { unfold w2, wireHeuristics. destruct (truthy _); repeat split. }
  destruct Hs2 as [Hp [Hi [Ha [Hst [Hb Hto]]]]].
  assert (Hs3 : sess (startIdleTimers w2 None None)
                = set_idleTimer (sess w2) (Some (nextTimer w2)) /\
                promise (startIdleTimers w2 None None) = promise w2 /\
                timeoutId (startIdleTimers w2 None None) = timeoutId w2).
  { unfold startIdleTimers, disarm_opt.
    destruct (idleTimer (sess w2)); repeat split. }
  destruct Hs3 as [Hs3 [Hp3 Hto3]].
  destruct (_ >? 0)%Z.
  - split.
    + eapply (arm_ok (startIdleTimers w2 None None) _ _ _ Hok3);
        try reflexivity.
      intros t Hin Ho.
      destruct Hok3 as [_ Hall]. rewrite Forall_forall in Hall.
      unfold owned in *. destruct (kind t) eqn:Ek; try exact Ho.
      rewrite Hto3, Hto in Ho. discriminate.
    + cbn [promise sess with_timeoutId arm snd fst with_timers].
      rewrite Hp3, Hs3. cbn [id adapter status buf set_idleTimer].
      repeat split; assumption.
  - split; [exact Hok3|]. rewrite Hp3, Hs3.
    cbn [id adapter status buf set_idleTimer]. repeat split; assumption.
Qed.


Lemma disarm_opt_frame w h :
  sess (disarm_opt w h) = sess w /\ env_of (disarm_opt w h) = env_of w /\
  nextTimer (disarm_opt w h) = nextTimer w.
Proof. destruct h; repeat split. Qed.

(** What the first exit callback leaves behind. *)
Lemma exit_handler_1_effect w code sg :
  let w' := exit_handler_1 w code sg in
  id (sess w') = id (sess w) /\ buf (sess w') = buf (sess w) /\
  totalBytes (sess w') = totalBytes (sess w) /\
  maxBufferBytes (sess w') = maxBufferBytes (sess w) /\
  adapter (sess w') = adapter (sess w) /\
  status (sess w') = exit_status_1 code /\
  calls w' = calls w /\
  promise w' = match promise w with
               | Pending => Resolved (exit_result w code)
               | p => p
               end.
Proof.
  cbv zeta. unfold exit_handler_1.
  set (w2 := with_sess _ _).
  destruct (cleanup_frame w2) as [Hd [He _]].
  apply data_of_fields in Hd. apply env_of_fields in He.
  destruct Hd as [Hi [Hb [_ [Hst [_ [_ [_ [Ht [Hm Ha]]]]]]]]].
  destruct He as [_ [_ [_ [Hc [_ [Hp _]]]]]].
  destruct (disarm_opt_frame w (timeoutId w)) as [Hs1 [He1 _]].
  apply env_of_fields in He1.
  destruct He1 as [_ [_ [_ [Hc1 [_ [Hp1 _]]]]]].
  match goal with |- context [resolve ?x ?r] =>
    destruct (resolve_frame x r) as [Hr1 [_ [_ [_ [Hr5 Hr6]]]]]
  end.
  rewrite Hr1, Hr5, Hr6, Hi, Hb, Hst, Ht, Hm, Ha, Hc, Hp.
  unfold w2. cbn [sess with_sess id buf totalBytes maxBufferBytes adapter
                  status set_exit set_status calls promise].
  rewrite Hs1, Hc1, Hp1. unfold exit_result, exit_status_1.
  repeat split.
Qed.

(** What the second exit callback leaves behind. *)
Lemma exit_handler_2_effect w code sg :
  let w' := exit_handler_2 w code sg in
  id (sess w') = id (sess w) /\ buf (sess w') = buf (sess w) /\
  totalBytes (sess w') = totalBytes (sess w) /\
  maxBufferBytes (sess w') = maxBufferBytes (sess w) /\
  adapter (sess w') = adapter (sess w) /\
  status (sess w') = exit_status_2 code sg /\
  calls w' = calls w /\
  (promise w <> Pending -> promise w' = promise w) /\
  quietTimer (sess w') = None /\ idleTimer (sess w') = None.
Proof.
  cbv zeta. unfold exit_handler_2.
  match goal with |- context [cleanup ?x] => set (w3 := x) end.
  destruct (cleanup_frame w3) as [Hd [He [Hq Hi']]].
  apply data_of_fields in Hd. apply env_of_fields in He.
  destruct Hd as [Hi [Hb [_ [Hst [_ [_ [_ [Ht [Hm Ha]]]]]]]]].
  destruct He as [_ [_ [_ [Hc [_ [Hp _]]]]]].
  destruct (disarm_opt_frame w (timeoutId w)) as [Hs1 [He1 _]].
  apply env_of_fields in He1.
  destruct He1 as [_ [_ [_ [Hc1 [_ [Hp1 _]]]]]].
  rewrite Hi, Hb, Hst, Ht, Hm, Ha, Hc, Hp, Hq, Hi'.
  unfold w3, exit_status_2.
  destruct (negb (is_zero code) || some_signal sg).
  - match goal with |- context [reject ?x ?r] =>
      destruct (reject_frame x r) as [Hr1 [_ [_ [_ [Hr5 Hr6]]]]]
    end.
    rewrite Hr1, Hr5, Hr6.
    cbn [sess with_sess id buf totalBytes maxBufferBytes adapter
         status set_exit set_status set_errorReason calls promise].
    rewrite Hs1, Hc1, Hp1. repeat split.
    intros Hne. destruct (promise w); congruence.
  - match goal with |- context [resolve ?x ?r] =>
      destruct (resolve_frame x r) as [Hr1 [_ [_ [_ [Hr5 Hr6]]]]]
    end.
    rewrite Hr1, Hr5, Hr6.
    cbn [sess with_sess id buf totalBytes maxBufferBytes adapter
         status set_exit set_status set_errorReason calls promise].
    rewrite Hs1, Hc1, Hp1. repeat split.
    intros Hne. destruct (promise w); congruence.
Qed.

Lemma exit_status_terminal code sg :
  is_terminal (exit_status_1 code) = true /\
  is_terminal (exit_status_2 code sg) = true.
Proof.
  unfold exit_status_1, exit_status_2.
  destruct (is_zero code); destruct (some_signal sg); split; reflexivity.
Qed.

(** The adapter reporting exit settles a pending promise with the
    record of the first callback; a settled promise stays as it is. *)
Lemma on_exit_effect w code sg :
  let w' := on_exit w code sg in
  id (sess w') = id (sess w) /\ buf (sess w') = buf (sess w) /\
  adapter (sess w') = adapter (sess w) /\
  status (sess w') = exit_status_2 code sg /\
  calls w' = calls w /\
  promise w' = match promise w with
               | Pending => Resolved (exit_result w code)
               | p => p
               end /\
  quietTimer (sess w') = None /\ idleTimer (sess w') = None.
Proof.
  cbv zeta. unfold on_exit.
  destruct (exit_handler_1_effect w code sg)
    as [A1 [A2 [_ [_ [A5 [_ [A7 A8]]]]]]].
  destruct (exit_handler_2_effect (exit_handler_1 w code sg) code sg)
    as [B1 [B2 [_ [_ [B5 [B6 [B7 [B8 [B9 B10]]]]]]]]].
  rewrite B1, B2, B5, B6, B7, B9, B10, A1, A2, A5, A7.
  repeat split.
  rewrite B8; [exact A8|]. rewrite A8. destruct (promise w); discriminate.
Qed.

End ServerFacts.

(* ===================================================================== *)
(** ** Events of a running call: what they keep *)
(* ===================================================================== *)

Module RunFacts.
Import JS Regex Ansi Prompts Host Sessions Server Props Frames TimerFacts.
Import ServerFacts.
Local Open Scope string_scope.

Lemma onChunk_frame w text :
  id (sess (onChunk w text)) = id (sess w) /\
  status (sess (onChunk w text)) = status (sess w) /\
  adapter (sess (onChunk w text)) = adapter (sess w) /\
  lastByteAt (sess (onChunk w text)) = now w /\
  promise (onChunk w text) = promise w /\
  calls (onChunk w text) = calls w.
Proof.
  unfold onChunk.
  destruct (classify_lines_frame (split_lines text) w) as [Hd [He _]].
  apply data_of_fields in Hd. apply env_of_fields in He.
  destruct Hd as [Hi [_ [_ [Hst [_ [_ [_ [_ [_ Ha]]]]]]]]].
  destruct He as [_ [Hn [_ [Hc [_ [Hp _]]]]]].
  cbn [sess with_sess id status adapter lastByteAt set_lastByteAt
       set_totalBytes set_buf promise calls].
  rewrite Hi, Hst, Ha, Hn, Hp, Hc. repeat split.
Qed.

Lemma quiet_complete_fired_frame w :
  id (sess (quiet_complete_fired w)) = id (sess w) /\
  buf (sess (quiet_complete_fired w)) = buf (sess w) /\
  adapter (sess (quiet_complete_fired w)) = adapter (sess w) /\
  promise (quiet_complete_fired w) = promise w /\
  calls (quiet_complete_fired w) = calls w /\
  (status (sess (quiet_complete_fired w)) = status (sess w) \/
   status (sess (quiet_complete_fired w)) = Completed).
Proof.
  unfold quiet_complete_fired. cbn [sess count_quiet_fire].
  destruct (negb (is_terminal (status (sess w)))); [|repeat split; auto].
  cbn [sess with_sess count_completion idleTimer set_status].
  destruct (idleTimer (sess w)); repeat split; auto.
Qed.

Lemma idle_poll_fired_frame a b w :
  id (sess (idle_poll_fired a b w)) = id (sess w) /\
  buf (sess (idle_poll_fired a b w)) = buf (sess w) /\
  adapter (sess (idle_poll_fired a b w)) = adapter (sess w).
Proof.
  unfold idle_poll_fired.
  repeat match goal with
  | |- context [if ?c then _ else _] => destruct c
  end; repeat split.
Qed.

Lemma idle_poll_settled a b w :
  settled (status (sess w)) ->
  status (sess (idle_poll_fired a b w)) = status (sess w).
Proof.
  intros Hs. destruct (idle_poll_status a b w) as [H | [[H _] | [H _]]];
    [exact H | |]; unfold settled in Hs; rewrite H in Hs;
    destruct Hs as [Hs | [Hs | Hs]]; discriminate.
Qed.

Lemma timeout_fired_frame w :
  id (sess (timeout_fired w)) = id (sess w) /\
  buf (sess (timeout_fired w)) = buf (sess w) /\
  adapter (sess (timeout_fired w)) = adapter (sess w) /\
  promise (timeout_fired w) = promise w /\
  (settled (status (sess w)) -> timeout_fired w = w).
Proof.
  unfold timeout_fired.
  destruct (status (sess w)) eqn:Es; cbn [status_eqb orb];
    repeat split; intros [H | [H | H]]; congruence.
Qed.

(** One event of a running call: what never changes, what only data
    and exit change, and that a settled status stays settled. *)
Lemma server_step_frame w e w' :
  Server.step w e = Some w' ->
  id (sess w') = id (sess w) /\
  adapter (sess w') = adapter (sess w) /\
  ((forall code sg, e <> ProcExit code sg) -> promise w' = promise w) /\
  (promise w <> Pending -> promise w' = promise w) /\
  (settled (status (sess w)) -> settled (status (sess w'))).
Proof.
  destruct e as [chunk|code sg|dt|h]; simpl.
  - intros H. injection H as <-. unfold on_data.
    destruct (onChunk_frame w chunk) as [H1 [H2 [H3 [_ [H5 _]]]]].
    cbn [sess promise with_progress]. rewrite H1, H2, H3, H5.
    repeat split; auto.
  - intros H. injection H as <-.
    destruct (on_exit_effect w code sg) as [H1 [_ [H3 [H4 [_ [H6 _]]]]]].
    rewrite H1, H3, H4, H6. repeat split.
    + intros Hne. exfalso. eapply Hne. reflexivity.
    + intros Hne. destruct (promise w); congruence.
    + intros _. unfold settled, exit_status_2.
      destruct (_ || _); auto.
  - destruct (0 <=? dt)%Z; intros H; [|discriminate]. injection H as <-.
    repeat split; auto.
  - unfold Server.fire. destruct (due_timer w h) as [t|]; [|discriminate].
    destruct (take_timer_frame w t) as [Hs [He _]].
    apply env_of_fields in He.
    destruct He as [_ [_ [_ [_ [_ [Hp _]]]]]].
    destruct (kind t) as [|a b| |]; intros H; injection H as <-.
    + destruct (quiet_complete_fired_frame (take_timer w t))
        as [H1 [_ [H3 [H4 [_ H6]]]]].
      rewrite H1, H3, H4, Hs, Hp. rewrite Hs in H6.
      repeat split; auto.
      intros Hst. destruct H6 as [-> | ->]; [exact Hst|].
      right; left; reflexivity.
    + destruct (idle_poll_fired_frame a b (take_timer w t)) as [H1 [_ H3]].
      destruct (idle_poll_frame a b (take_timer w t))
        as [_ [_ [_ [_ [_ [_ [_ H8]]]]]]].
      rewrite H1, H3, H8, Hs, Hp. repeat split; auto.
      intros Hst. rewrite idle_poll_settled; rewrite Hs; exact Hst.
    + destruct (timeout_fired_frame (take_timer w t))
        as [H1 [_ [H3 [H4 H5]]]].
      rewrite H1, H3, H4, Hs, Hp. repeat split; auto.
      intros Hst. rewrite H5; rewrite Hs; exact Hst.
    + cbn [sess promise with_stored]. rewrite Hs, Hp. repeat split; auto.
Qed.

Lemma server_run_frame es : forall w w',
  Server.run w es = Some w' ->
  id (sess w') = id (sess w) /\
  adapter (sess w') = adapter (sess w) /\
  (Forall not_exit es -> promise w' = promise w) /\
  (promise w <> Pending -> promise w' = promise w) /\
  (settled (status (sess w)) -> settled (status (sess w'))).
Proof.
  induction es as [|e es IH]; intros w w'; simpl.
  - intros H. injection H as <-. repeat split; auto.
  - destruct (Server.step w e) as [w1|] eqn:E; [|discriminate]. intros Hr.
    destruct (server_step_frame _ _ _ E) as [A1 [A2 [A3 [A4 A5]]]].
    destruct (IH _ _ Hr) as [B1 [B2 [B3 [B4 B5]]]].
    rewrite B1, B2, A1, A2. repeat split; auto.
    + intros Hall. inversion Hall as [|? ? He Hes]; subst.
      rewrite B3 by exact Hes. apply A3.
      intros code sg ->. exact He.
    + intros Hne. rewrite B4; [apply A4; exact Hne|].
      rewrite A4; exact Hne.
Qed.

End RunFacts.

(* ===================================================================== *)
(** ** terminal.run: settling the promise, terminal states *)
(* ===================================================================== *)

Module RunTheorems.
Import JS Regex Ansi Prompts Host Sessions Server Props Samples Frames.
Import TimerFacts BufferFacts ServerFacts RunFacts.
Local Open Scope string_scope.

(** C1, as the code has it. When [maybeRunPTY] throws (the call that
    spawns the adapter has thrown), terminal.run marks the session as
    error and throws. When [maybeRunPTY] returns an adapter, the
    promise stays pending until the adapter reports exit;
    the first exit settles it, once and for good, with the record
    [sessionId], [output] (the joined buffer), [exitCode],
    [success = (exitCode == 0)] and an [error] text when the code is not
    0; the record has no [exitSignal]. At that point the status is
    completed or error. *)
Theorem run_settles_on_exit (input : RunCommandOptions) (sid : string)
  (t0 : Z) :
  (forall m, exists w,
      invoke input sid t0 (Throws m)
      = InvokeThrew ("Failed to start command: " ++ m) w /\
      status (sess w) = Error /\ errorReason (sess w) = Some m) /\
  (forall a, exists w0,
      invoke input sid t0 (Ok a) = InvokeStarted w0 /\
      promise w0 = Pending /\
      (forall es w,
          Forall not_exit es -> Server.run w0 es = Some w ->
          promise w = Pending) /\
      (forall pre w1 code sg post w2,
          Forall not_exit pre -> Server.run w0 pre = Some w1 ->
          Server.run (on_exit w1 code sg) post = Some w2 ->
          promise w2
          = Resolved (mkResult sid (join (buf (sess w1))) code
                        (is_zero code)
                        (if is_zero code then None
                         else Some ("Process exited with code "
                                    ++ show_code code))) /\
          is_terminal (status (sess (exit_handler_1 w1 code sg))) = true /\
          is_terminal (status (sess (on_exit w1 code sg))) = true)).
Proof.
  split.
  - intros m. eexists. unfold invoke. split; [reflexivity|].
    split; reflexivity.
  - intros a.
    destruct (invoke_started input sid t0 a)
      as [w0 [Hinv [Hok [Hp [Hid _]]]]].
    exists w0. split; [exact Hinv|]. split; [exact Hp|]. split.
    + intros es w Hne Hr.
      destruct (server_run_frame es _ _ Hr) as [_ [_ [H3 _]]].
      rewrite H3; assumption.
    + intros pre w1 code sg post w2 Hne Hpre Hpost.
      destruct (server_run_frame pre _ _ Hpre) as [A1 [_ [A3 _]]].
      destruct (on_exit_effect w1 code sg) as [_ [_ [_ [B4 [_ [B6 _]]]]]].
      destruct (exit_handler_1_effect w1 code sg)
        as [_ [_ [_ [_ [_ [C6 _]]]]]].
      destruct (server_run_frame post _ _ Hpost) as [_ [_ [_ [D4 _]]]].
      rewrite A3, Hp in B6 by exact Hne.
      rewrite D4, B6 by (rewrite B6; discriminate).
      rewrite B4, C6. unfold exit_result. rewrite A1, Hid.
      destruct (exit_status_terminal code sg) as [T1 T2].
      repeat split; assumption.
Qed.

Lemma run_settles_on_exit_witness :
  promise (after (started default_input ChildProcessAdapter)
             [Data (lit "hi")]) = Pending /\
  promise exited_world
  = Resolved (mkResult "s1" (lit "hi") (Some 0) true None).
Proof.
  destruct (run_settles_on_exit default_input "s1" 0) as [_ H].
  destruct (H ChildProcessAdapter) as [w0 [H1 [_ [H3 H4]]]].
  assert (Hw : w0 = started default_input ChildProcessAdapter).
  { vm_compute in H1. injection H1 as <-. vm_compute. reflexivity. }
  subst w0. split.
  - apply (H3 [Data (lit "hi")]).
    + repeat constructor.
    + vm_compute. reflexivity.
  - destruct (H4 [Data (lit "hi"); Server.Advance 20]
                (after (started default_input ChildProcessAdapter)
                   [Data (lit "hi"); Server.Advance 20])
                (Some 0) None [] exited_world) as [R _].
    + repeat constructor.
    + vm_compute. reflexivity.
    + vm_compute. reflexivity.
    + rewrite R. vm_compute. reflexivity.
Defined.

(** The specification as written promises a returned record with
    [success:false] when the adapter fails to spawn. When the call of
    [runCommand] throws (here the host's [spawn] refuses an argument
    list that is too long), [maybeRunPTY] rethrows and terminal.run
    throws as well, after marking the session as error: no record is
    returned. *)
Lemma run_throws_on_spawn_failure :
  match invoke default_input "s1" 0
          (maybeRunPTY false (Ok tt) (Throws "spawn E2BIG")) with
  | InvokeThrew m w =>
      m = "Failed to start command: Failed to start command: spawn E2BIG"
      /\ status (sess w) = Error
      /\ errorReason (sess w)
         = Some "Failed to start command: spawn E2BIG"
      /\ promise w = Pending
  | InvokeStarted _ => False
  end.
Proof. vm_compute. repeat split. Qed.




(** Two states the statement above leaves aside. After the timeout
    handler has set the status to error the idle poll stays armed until
    the adapter reports exit; and a prompt line arriving on a completed
    session arms the quiet timer again. *)
Example idle_poll_armed_after_timeout :
  let w := after (started (mkRun (Some 500) None None None None)
                    ChildProcessAdapter)
             [Server.Advance 500; Server.Fire 1%nat] in
  status (sess w) = Error /\ armed_opt w (idleTimer (sess w)) = true.
Proof. vm_compute. split; reflexivity. Qed.

Example quiet_timer_rearmed_on_completed_session :
  let w := after quiet_completed_world [Data (lit "user@host:~$ ")] in
  status (sess w) = Completed /\ armed_opt w (quietTimer (sess w)) = true.
Proof. vm_compute. split; reflexivity. Qed.

(** *** The buffer during a terminal.run call *)

Lemma timeout_fired_buffer w :
  buffer_of (sess (timeout_fired w)) = buffer_of (sess w).
Proof.
  unfold timeout_fired.
  destruct (status_eqb (status (sess w)) Running
            || status_eqb (status (sess w)) Waiting); reflexivity.
Qed.

Lemma server_step_buffer w e w' :
  Server.step w e = Some w' -> (forall chunk, e <> Data chunk) ->
  buffer_of (sess w') = buffer_of (sess w).
Proof.
  destruct e as [chunk|code sg|dt|h]; simpl; intros H Hne.
  - exfalso. eapply Hne. reflexivity.
  - injection H as <-. unfold on_exit, buffer_of.
    destruct (exit_handler_1_effect w code sg) as [_ [A2 [A3 [A4 _]]]].
    destruct (exit_handler_2_effect (exit_handler_1 w code sg) code sg)
      as [_ [B2 [B3 [B4 _]]]].
    rewrite B2, B3, B4, A2, A3, A4. reflexivity.
  - destruct (0 <=? dt)%Z; [|discriminate]. injection H as <-. reflexivity.
  - unfold Server.fire in H.
    destruct (due_timer w h) as [t|]; [|discriminate].
    destruct (kind t); injection H as <-.
    + rewrite quiet_complete_fired_buffer, take_timer_sess. reflexivity.
    + rewrite idle_poll_fired_buffer, take_timer_sess. reflexivity.
    + rewrite timeout_fired_buffer, take_timer_sess. reflexivity.
    + cbn [sess with_stored]. rewrite take_timer_sess. reflexivity.
Qed.

(** The invariant of the buffer also holds along every event sequence
    of a running terminal.run call configured with a positive cap. *)
Lemma server_run_buffer (input : RunCommandOptions) (sid : string)
  (t0 : Z) (a : Adapter) (m : Z) (w0 w : World) (es : list Server.Event) :
  nullish (i_maxBufferBytes input) (2 * 1024 * 1024) = m -> 0 < m ->
  invoke input sid t0 (Ok a) = InvokeStarted w0 ->
  Server.run w0 es = Some w ->
  buffer_ok m (sess w).
Proof.
  intros Hm Hpos Hinv Hr.
  assert (H0 : buffer_ok m (sess w0)).
  { unfold invoke, wireHeuristics in Hinv. rewrite Hm in Hinv.
    cbn [o_maxBufferBytes] in Hinv.
    destruct (truthy (Some m)); destruct (_ >? 0)%Z;
      injection Hinv as <-; unfold buffer_ok; simpl;
      (split; [reflexivity|]); (split; [reflexivity|]); left; lia. }
  clear Hinv. revert w0 H0 Hr.
  induction es as [|e es IH]; intros w0 H0; simpl.
  - intros H. injection H as <-. exact H0.
  - destruct (Server.step w0 e) as [w1|] eqn:E; [|discriminate].
    apply IH. destruct e as [chunk|code sg|dt|h].
    + simpl in E. injection E as <-. unfold on_data.
      cbn [sess with_progress].
      apply (onChunk_buffer m w0 chunk Hpos H0).
    + eapply buffer_ok_ext; [|exact H0].
      eapply server_step_buffer; [exact E | discriminate].
    + eapply buffer_ok_ext; [|exact H0].
      eapply server_step_buffer; [exact E | discriminate].
    + eapply buffer_ok_ext; [|exact H0].
      eapply server_step_buffer; [exact E | discriminate].
Qed.

(** The specification as written bounds [totalBytes] by
    [maxBufferBytes] for every session. terminal.run stores the
    [maxBufferBytes] it is given unchecked. With 0, [wireHeuristics]
    leaves the 0 in place and [onChunk] trims against 2,000,000: two
    chunks of 3 and 2 bytes are both held, 5 bytes under a cap of 0.
    With -1 the bound fails before any output: 0 bytes in an empty
    buffer. *)
Lemma buffer_bound_fails_without_positive_cap :
  (exists w0 w,
      invoke (mkRun None None None None (Some 0)) "s1" 0
        (Ok ChildProcessAdapter) = InvokeStarted w0 /\
      Server.run w0 [Data (lit "abc"); Data (lit "de")] = Some w /\
      maxBufferBytes (sess w) = Some 0 /\
      buf (sess w) = [lit "abc"; lit "de"] /\
      totalBytes (sess w) = Some 5 /\
      ~ (5 <= 0 \/ length (buf (sess w)) = 1%nat)) /\
  (exists w0,
      invoke (mkRun None None None None (Some (-1))) "s1" 0
        (Ok ChildProcessAdapter) = InvokeStarted w0 /\
      maxBufferBytes (sess w0) = Some (-1) /\
      buf (sess w0) = [] /\ totalBytes (sess w0) = Some 0 /\
      ~ (0 <= -1 \/ length (buf (sess w0)) = 1%nat)).
Proof.
  split.
  - do 2 eexists.
    split; [vm_compute; reflexivity|].
    split; [vm_compute; reflexivity|].
    split; [reflexivity|]. split; [reflexivity|]. split; [reflexivity|].
    intros [H | H]; [lia | discriminate].
  - eexists.
    split; [vm_compute; reflexivity|].
    split; [reflexivity|]. split; [reflexivity|]. split; [reflexivity|].
    intros [H | H]; [lia | discriminate].
Qed.

(** In a terminal.run call the exit callbacks do not go through
    [onExit]: a prompt line followed 50 ms later by exit code 0 leaves
    the quiet timer cancelled by [cleanup], unfired, and the status
    written once by each exit callback. *)
Example prompt_then_process_exit :
  let w := after (started default_input ChildProcessAdapter)
             [Data (lit "prompt$ "); Server.Advance 50;
              ProcExit (Some 0) None] in
  status (sess w) = Completed /\ quietFires w = 0%nat /\
  armed w 2%nat = false /\ quietTimer (sess w) = None.
Proof. vm_compute. repeat split. Qed.

End RunTheorems.

(* ===================================================================== *)
(** ** The possibly-stuck status *)
(* ===================================================================== *)

Module StuckFacts.
Import JS Regex Ansi Prompts Host Sessions Props Samples Frames TimerFacts.
Import ServerFacts RunFacts.

Lemma scheduleQuietComplete_status w d :
  status (sess (scheduleQuietComplete w d)) = status (sess w).
Proof.
  destruct (scheduleQuietComplete_frame w d) as [Hd _].
  apply data_of_fields in Hd. tauto.
Qed.

Lemma startIdleTimers_status w wp sp :
  status (sess (startIdleTimers w wp sp)) = status (sess w).
Proof.
  unfold startIdleTimers, disarm_opt.
  destruct (idleTimer (sess w)); reflexivity.
Qed.

Lemma sessions_step_settled w e w' :
  Sessions.step w e = Some w' ->
  settled (status (sess w)) -> settled (status (sess w')).
Proof.
  destruct e as [text| |wp sp|dt|h]; simpl; intros H Hst.
  - injection H as <-.
    destruct (onChunk_frame w text) as [_ [-> _]]. exact Hst.
  - injection H as <-. unfold onExit.
    rewrite scheduleQuietComplete_status. exact Hst.
  - injection H as <-. rewrite startIdleTimers_status. exact Hst.
  - destruct (0 <=? dt); [|discriminate]. injection H as <-. exact Hst.
  - unfold Sessions.fire in H.
    destruct (due_timer w h) as [t|]; [|discriminate].
    destruct (take_timer_frame w t) as [Hs _].
    destruct (kind t) as [|a b| |]; try discriminate; injection H as <-.
    + destruct (quiet_complete_fired_frame (take_timer w t))
        as [_ [_ [_ [_ [_ [-> | ->]]]]]].
      * rewrite Hs. exact Hst.
      * right; left; reflexivity.
    + rewrite idle_poll_settled; rewrite Hs; exact Hst.
Qed.

Lemma sessions_run_settled es : forall w w',
  Sessions.run w es = Some w' ->
  settled (status (sess w)) -> settled (status (sess w')).
Proof.
  induction es as [|e es IH]; intros w w'; simpl.
  - intros H. injection H as <-. auto.
  - destruct (Sessions.step w e) as [w1|] eqn:E; [|discriminate].
    intros Hr Hst. eapply IH; eauto. eapply sessions_step_settled; eauto.
Qed.

(** C4, as the code has it. On a possibly-stuck session new output
    updates [lastByteAt] and leaves the status alone; the idle poll,
    whatever its thresholds and whenever it fires, leaves a
    possibly-stuck session possibly-stuck; and no sequence of events,
    of the wired handlers or of a running terminal.run call, brings
    the status back to running: it stays possibly-stuck until it
    becomes completed or error. *)
Theorem possibly_stuck_never_resumes (w : World) (text : jsstring) :
  status (sess w) = PossiblyStuck ->
  lastByteAt (sess (onChunk w text)) = now w /\
  status (sess (onChunk w text)) = PossiblyStuck /\
  (forall a b dt,
      status (sess (idle_poll_fired a b
                      (with_now (onChunk w text) (now w + dt))))
      = PossiblyStuck) /\
  (forall es w',
      Sessions.run (onChunk w text) es = Some w' ->
      settled (status (sess w'))) /\
  (forall es w',
      Server.run (Server.on_data w text) es = Some w' ->
      settled (status (sess w'))).
Proof.
  intros Hst.
  destruct (onChunk_frame w text) as [_ [H2 [_ [H4 _]]]].
  rewrite Hst in H2.
  assert (Hs : settled (status (sess (onChunk w text))))
    by (left; exact H2).
  split; [exact H4|]. split; [exact H2|]. split; [|split].
  - intros a b dt. rewrite idle_poll_settled; [exact H2 | exact Hs].
  - intros es w' Hr. eapply sessions_run_settled; eauto.
  - intros es w' Hr.
    destruct (server_run_frame es _ _ Hr) as [_ [_ [_ [_ H5]]]].
    apply H5. exact Hs.
Qed.

Lemma possibly_stuck_never_resumes_witness :
  status (sess stuck_world) = PossiblyStuck /\
  lastByteAt (sess (onChunk stuck_world (lit "y"))) = 46000 /\
  status (sess (idle_poll_fired 10000 45000
                  (with_now (onChunk stuck_world (lit "y"))
                     (now stuck_world + 1000))))
  = PossiblyStuck.
Proof.
  assert (H0 : status (sess stuck_world) = PossiblyStuck)
    by (vm_compute; reflexivity).
  destruct (possibly_stuck_never_resumes stuck_world (lit "y") H0)
    as [H1 [_ [H3 _]]].
  split; [exact H0|]. split; [exact H1 | apply H3].
Defined.

(** The specification as written has an execution in which new output
    on a possibly-stuck session is followed by an idle tick that sets
    the status to running. No event sequence after the output does
    so. *)
Lemma no_return_to_running :
  ~ (exists (w : World) (text : jsstring) (es : list Server.Event)
            (w' : World),
        status (sess w) = PossiblyStuck /\
        Server.run (Server.on_data w text) es = Some w' /\
        status (sess w') = Running) /\
  ~ (exists (w : World) (text : jsstring) (es : list Sessions.Event)
            (w' : World),
        status (sess w) = PossiblyStuck /\
        Sessions.run (onChunk w text) es = Some w' /\
        status (sess w') = Running).
Proof.
  split; intros [w [text [es [w' [Hst [Hr Hrun]]]]]].
  - destruct (server_run_frame es _ _ Hr) as [_ [_ [_ [_ H5]]]].
    assert (Hs : settled (status (sess (Server.on_data w text)))).
    { unfold Server.on_data. cbn [sess with_progress].
      destruct (onChunk_frame w text) as [_ [-> _]]. left; exact Hst. }
    specialize (H5 Hs). rewrite Hrun in H5.
    destruct H5 as [H | [H | H]]; discriminate.
  - assert (Hs : settled (status (sess (onChunk w text)))).
    { destruct (onChunk_frame w text) as [_ [-> _]]. left; exact Hst. }
    assert (H5 := sessions_run_settled es _ _ Hr Hs). rewrite Hrun in H5.
    destruct H5 as [H | [H | H]]; discriminate.
Qed.

End StuckFacts.

(* ===================================================================== *)
(** * Further properties *)
(* ===================================================================== *)

(** ** The matcher and what a pattern denotes *)

Module RegexFacts.
Import JS Regex RegexSem.

Lemma first_some_none a b :
  first_some a b = None <-> a = None /\ b tt = None.
Proof.
  unfold first_some. destruct a; split; intros H.
  - discriminate.
  - destruct H; discriminate.
  - split; [reflexivity | exact H].
  - apply H.
Qed.

Lemma Matches_shorter r p s p' s' :
  Matches r p s p' s' -> (length s' <= length s)%nat.
Proof. induction 1; simpl in *; lia. Qed.

(** The repetition loop, given that its body agrees with [Matches]. *)
Lemma star_loop_sound a
  (step : option N -> jsstring -> cont -> option jsstring) :
  (forall p s k, step p s k <> None ->
                 exists p' s', Matches a p s p' s' /\ k p' s' <> None) ->
  forall fuel p s k,
    star_loop step fuel p s k <> None ->
    exists p' s', Matches (Star a) p s p' s' /\ k p' s' <> None.
Proof.
  intros Hstep. induction fuel as [|fuel IH]; intros p s k H; simpl in H.
  - exists p, s. split; [constructor | exact H].
  - destruct (step p s
               (fun prev' s' =>
                  if (length s' <? length s)%nat
                  then star_loop step fuel prev' s' k else None)) eqn:E.
    + destruct (Hstep p s _ ltac:(rewrite E; discriminate))
        as [p1 [s1 [M1 K1]]].
      destruct (Nat.ltb_spec (length s1) (length s)) as [Hlt|Hge];
        [|congruence].
      destruct (IH _ _ _ K1) as [p2 [s2 [M2 K2]]].
      exists p2, s2. split; [|exact K2].
      eapply M_star_1; eauto.
    + simpl in H. exists p, s. split; [constructor | exact H].
Qed.

Lemma star_loop_complete a
  (step : option N -> jsstring -> cont -> option jsstring) :
  (forall p s p' s' k, Matches a p s p' s' -> k p' s' <> None ->
                       step p s k <> None) ->
  forall fuel p s p' s' k,
    (length s <= fuel)%nat ->
    Matches (Star a) p s p' s' -> k p' s' <> None ->
    star_loop step fuel p s k <> None.
Proof.
  intros Hstep. induction fuel as [|fuel IH]; intros p s p' s' k Hf HM HK.
  - inversion HM; subst.
    + exact HK.
    + simpl in *. lia.
  - simpl. inversion HM; subst.
    + intros H. apply first_some_none in H. destruct H as [_ H]. auto.
    + intros H. apply first_some_none in H. destruct H as [H _].
      revert H. eapply Hstep; [eassumption|].
      match goal with Hlt : (length ?s1 < length s)%nat |- _ =>
        destruct (Nat.ltb_spec (length s1) (length s)) as [_|Hge]; [|lia]
      end.
      eapply IH; [lia | eassumption | exact HK].
Qed.

(** The backtracking matcher finds a match exactly when there is one. *)
Lemma matches_sound r : forall p s k,
  matches r p s k <> None ->
  exists p' s', Matches r p s p' s' /\ k p' s' <> None.
Proof.
  induction r as [|pr|a IHa b IHb|a IHa b IHb|a IHa| |]; intros p s k H;
    simpl in H.
  - exists p, s. split; [constructor | exact H].
  - destruct s as [|c s]; [congruence|].
    destruct (pr c) eqn:E; [|congruence].
    exists (Some c), s. split; [constructor; exact E | exact H].
  - destruct (IHa _ _ _ H) as [p1 [s1 [M1 K1]]].
    destruct (IHb _ _ _ K1) as [p2 [s2 [M2 K2]]].
    exists p2, s2. split; [econstructor; eauto | exact K2].
  - destruct (matches a p s k) eqn:E.
    + destruct (IHa p s k ltac:(rewrite E; discriminate))
        as [p1 [s1 [M1 K1]]].
      exists p1, s1. split; [apply M_alt_l; exact M1 | exact K1].
    + simpl in H. destruct (IHb _ _ _ H) as [p1 [s1 [M1 K1]]].
      exists p1, s1. split; [apply M_alt_r; exact M1 | exact K1].
  - eapply star_loop_sound; [|exact H]. exact IHa.
  - destruct p as [c|].
    + destruct (is_line_terminator c) eqn:E; [|congruence].
      exists (Some c), s. split; [constructor; exact E | exact H].
    + exists None, s. split; [constructor | exact H].
  - destruct s as [|c s].
    + exists p, []. split; [constructor | exact H].
    + destruct (is_line_terminator c) eqn:E; [|congruence].
      exists p, (c :: s). split; [constructor; exact E | exact H].
Qed.

Lemma matches_complete r : forall p s p' s' k,
  Matches r p s p' s' -> k p' s' <> None -> matches r p s k <> None.
Proof.
  induction r as [|pr|a IHa b IHb|a IHa b IHb|a IHa| |];
    intros p s p' s' k HM HK.
  - inversion HM; subst. exact HK.
  - inversion HM; subst. simpl.
    match goal with H : pr _ = true |- _ => rewrite H end. exact HK.
  - inversion HM; subst. simpl.
    eapply IHa; [eassumption|]. eapply IHb; eassumption.
  - simpl. intros H. apply first_some_none in H. destruct H as [H1 H2].
    inversion HM; subst.
    + revert H1. eapply IHa; eassumption.
    + revert H2. eapply IHb; eassumption.
  - simpl. eapply star_loop_complete; [| |exact HM|exact HK].
    + intros. eapply IHa; eassumption.
    + lia.
  - inversion HM; subst; simpl; [exact HK|].
    match goal with H : is_line_terminator _ = true |- _ => rewrite H end.
    exact HK.
  - inversion HM; subst; simpl; [exact HK|].
    match goal with H : is_line_terminator _ = true |- _ => rewrite H end.
    exact HK.
Qed.

Lemma match_here_some r p s :
  match_here r p s <> None <-> exists p' s', Matches r p s p' s'.
Proof.
  unfold match_here. split.
  - intros H. destruct (matches_sound _ _ _ _ H) as [p' [s' [M _]]]. eauto.
  - intros [p' [s' M]]. eapply matches_complete; [exact M|discriminate].
Qed.

(** [test] looks for a match at every start position. *)
Lemma test_from_true r : forall s p,
  test_from r p s = true <->
  exists pre post p' s',
    s = pre ++ post /\
    Matches r (match rev pre with [] => p | c :: _ => Some c end)
      post p' s'.
Proof.
  induction s as [|c s IH]; intros p; simpl.
  - destruct (match_here r p []) eqn:E.
    + split; [intros _|reflexivity].
      destruct (proj1 (match_here_some r p []) ltac:(rewrite E; discriminate))
        as [p' [s' M]].
      exists [], [], p', s'. split; [reflexivity | exact M].
    + split; [discriminate|].
      intros [pre [post [p' [s' [Heq M]]]]].
      symmetry in Heq. apply app_eq_nil in Heq. destruct Heq; subst.
      simpl in M. exfalso.
      apply (proj2 (match_here_some r p [])); [eauto | exact E].
  - destruct (match_here r p (c :: s)) eqn:E.
    + split; [intros _|reflexivity].
      destruct (proj1 (match_here_some r p (c :: s))
                  ltac:(rewrite E; discriminate)) as [p' [s' M]].
      exists [], (c :: s), p', s'. split; [reflexivity | exact M].
    + rewrite IH. split.
      * intros [pre [post [p' [s' [Heq M]]]]].
        exists (c :: pre), post, p', s'. split; [simpl; congruence|].
        simpl. destruct (rev pre) eqn:Er; simpl; exact M.
      * intros [pre [post [p' [s' [Heq M]]]]].
        destruct pre as [|d pre].
        -- simpl in *. subst post. exfalso.
           apply (proj2 (match_here_some r p (c :: s))); [eauto | exact E].
        -- simpl in Heq. injection Heq as -> ->.
           exists pre, post, p', s'. split; [reflexivity|].
           simpl in M. destruct (rev pre) eqn:Er; simpl in M; exact M.
Qed.

End RegexFacts.

(* ===================================================================== *)
(** ** Stripping SGR sequences *)
(* ===================================================================== *)

Module StripFacts.
Import JS Regex Ansi Texts.

Lemma ansi_here_nil p : match_here ANSI_REGEX p [] = None.
Proof. reflexivity. Qed.

Lemma ansi_here_plain p c s :
  (c =? 0x1B)%N = false -> match_here ANSI_REGEX p (c :: s) = None.
Proof.
  intros H. unfold match_here, ANSI_REGEX, chr. cbn [matches].
  rewrite N.eqb_sym in H. rewrite H. reflexivity.
Qed.

(** The greedy repetition takes all the parameters, then [m] ends the
    sequence. *)
Lemma ansi_params_loop ps : forall fuel p rest,
  sgr_params ps = true -> (length ps <= fuel)%nat ->
  star_loop (matches (Chr is_digit_or_semicolon)) fuel p
    (ps ++ (0x6D)%N :: rest)
    (fun p' s' => matches (chr 0x6D) p' s' (fun _ r => Some r))
  = Some rest.
Proof.
  induction ps as [|d ps IH]; intros fuel p rest Hps Hf.
  - destruct fuel as [|fuel]; reflexivity.
  - destruct fuel as [|fuel]; [simpl in Hf; lia|].
    simpl in Hps. apply andb_prop in Hps. destruct Hps as [Hd Hps].
    cbn [star_loop app matches]. rewrite Hd.
    replace (length (ps ++ (0x6D)%N :: rest)
             <? length (d :: ps ++ (0x6D)%N :: rest))%nat with true
      by (symmetry; apply Nat.ltb_lt; simpl; lia).
    rewrite IH; [reflexivity | exact Hps | simpl in Hf; lia].
Qed.

Lemma ansi_here_sgr p ps rest :
  sgr_params ps = true ->
  match_here ANSI_REGEX p (sgr ps ++ rest) = Some rest.
Proof.
  intros Hps. unfold match_here, ANSI_REGEX, sgr, chr.
  cbn [app matches]. cbn [N.eqb Pos.eqb].
  rewrite <- app_assoc. cbn [app].
  apply ansi_params_loop; [exact Hps|].
  rewrite length_app. lia.
Qed.

Lemma delete_plain_prefix pre : forall s out,
  esc_free pre = true ->
  (forall fuel prev, (length s <= fuel)%nat ->
                     delete_all_from ANSI_REGEX fuel prev s = out) ->
  forall fuel prev, (length (pre ++ s) <= fuel)%nat ->
    delete_all_from ANSI_REGEX fuel prev (pre ++ s) = pre ++ out.
Proof.
  induction pre as [|c pre IH]; intros s out Hpre Hs fuel prev Hf.
  - apply Hs. exact Hf.
  - simpl in Hpre. apply andb_prop in Hpre. destruct Hpre as [Hc Hpre].
    apply negb_true_iff in Hc.
    destruct fuel as [|fuel]; [simpl in Hf; lia|].
    cbn [app delete_all_from]. rewrite (ansi_here_plain _ _ _ Hc).
    f_equal. apply IH; [exact Hpre | exact Hs | simpl in Hf; lia].
Qed.

Lemma delete_sgr ps s out :
  sgr_params ps = true ->
  (forall fuel prev, (length s <= fuel)%nat ->
                     delete_all_from ANSI_REGEX fuel prev s = out) ->
  forall fuel prev, (length (sgr ps ++ s) <= fuel)%nat ->
    delete_all_from ANSI_REGEX fuel prev (sgr ps ++ s) = out.
Proof.
  intros Hps Hs fuel prev Hf.
  assert (Hlen : (length s < length (sgr ps ++ s))%nat)
    by (rewrite length_app; unfold sgr; simpl; lia).
  destruct fuel as [|fuel]; [lia|].
  remember (sgr ps ++ s) as t eqn:Et.
  destruct t as [|c t]; [simpl in Hlen; lia|].
  cbn [delete_all_from]. rewrite Et, (ansi_here_sgr _ _ _ Hps), <- Et.
  apply Nat.ltb_lt in Hlen. rewrite Hlen.
  apply Hs. apply Nat.ltb_lt in Hlen. simpl in Hf, Hlen. lia.
Qed.

Lemma delete_plain s : forall fuel prev,
  esc_free s = true -> (length s <= fuel)%nat ->
  delete_all_from ANSI_REGEX fuel prev s = s.
Proof.
  intros fuel prev Hs Hf.
  pose proof (delete_plain_prefix s [] [] Hs) as H.
  rewrite !app_nil_r in H. apply H; [|exact Hf].
  intros [|f] q _; reflexivity.
Qed.

Lemma delete_styled segs tail :
  Forall plain_segment segs -> esc_free tail = true ->
  forall fuel prev, (length (styled segs tail) <= fuel)%nat ->
    delete_all_from ANSI_REGEX fuel prev (styled segs tail)
    = unstyled segs tail.
Proof.
  intros Hsegs Htail. induction Hsegs as [|[txt ps] segs [Ht Hp] _ IH].
  - intros fuel prev Hf. apply delete_plain; assumption.
  - cbn [styled unstyled]. simpl in Ht, Hp.
    apply delete_plain_prefix; [exact Ht|].
    apply delete_sgr; [exact Hp | exact IH].
Qed.

Lemma stripAnsi_styled segs tail :
  Forall plain_segment segs -> esc_free tail = true ->
  stripAnsi (styled segs tail) = unstyled segs tail.
Proof.
  intros Hsegs Htail. unfold stripAnsi, delete_all.
  apply delete_styled; [exact Hsegs | exact Htail | lia].
Qed.

Lemma stripAnsi_plain s : esc_free s = true -> stripAnsi s = s.
Proof. intros H. exact (stripAnsi_styled [] s (Forall_nil _) H). Qed.

Lemma stripAnsi_trailing_sgr txt ps :
  esc_free txt = true -> sgr_params ps = true ->
  stripAnsi (txt ++ sgr ps) = txt.
Proof.
  intros Ht Hp.
  pose proof (stripAnsi_styled [(txt, ps)] [] ) as H.
  cbn [styled unstyled] in H. rewrite !app_nil_r in H.
  apply H; [|reflexivity]. constructor; [split; assumption | constructor].
Qed.

(** X1. [stripAnsi] removes every SGR sequence of a text whose plain
    pieces hold no ESC, and leaves the plain pieces as they are; in
    particular a text without ESC comes back unchanged. *)
Theorem stripAnsi_removes_sgr (segs : list (jsstring * jsstring))
  (tail : jsstring) :
  Forall plain_segment segs -> esc_free tail = true ->
  stripAnsi (styled segs tail) = unstyled segs tail.
Proof. apply stripAnsi_styled. Qed.

Lemma stripAnsi_removes_sgr_witness :
  stripAnsi (lit "ok " ++ sgr (lit "1;32") ++ lit "done" ++ sgr (lit "0")
             ++ lit "!")
  = lit "ok done!".
Proof.
  apply (stripAnsi_removes_sgr
           [(lit "ok ", lit "1;32"); (lit "done", lit "0")] (lit "!")).
  - repeat constructor.
  - reflexivity.
Defined.

End StripFacts.

(* ===================================================================== *)
(** ** The built-in prompt patterns *)
(* ===================================================================== *)

Module PromptFacts.
Import JS Regex Ansi Prompts Texts RegexSem RegexFacts.

Ltac inv H := inversion H; subst; clear H.

Lemma Matches_consumed r p s p' s' :
  Matches r p s p' s' -> exists used, s = used ++ s'.
Proof.
  induction 1;
    try (exists []; reflexivity);
    try (eexists [_]; reflexivity);
    try assumption.
  - destruct IHMatches1 as [u1 ->]. destruct IHMatches2 as [u2 ->].
    exists (u1 ++ u2). rewrite app_assoc. reflexivity.
  - destruct IHMatches1 as [u1 ->]. destruct IHMatches2 as [u2 ->].
    exists (u1 ++ u2). rewrite app_assoc. reflexivity.
Qed.

Lemma star_chr_intro f mid : forall p t,
  forallb f mid = true -> exists p', Matches (Star (Chr f)) p (mid ++ t) p' t.
Proof.
  induction mid as [|c mid IH]; intros p t H.
  - exists p. apply M_star_0.
  - simpl in H. apply andb_prop in H. destruct H as [Hc Hm].
    destruct (IH (Some c) t Hm) as [p' M]. exists p'.
    cbn [app].
    eapply M_star_1; [apply M_chr; exact Hc | simpl; lia | exact M].
Qed.

Lemma star_chr_elim f p s p' s' :
  Matches (Star (Chr f)) p s p' s' ->
  exists body, s = body ++ s' /\ forallb f body = true.
Proof.
  intros H. remember (Star (Chr f)) as r eqn:Er.
  induction H; try discriminate.
  - exists []. split; reflexivity.
  - injection Er as ->. inv H.
    destruct (IHMatches2 eq_refl) as [body [-> Hb]].
    exists (c :: body). split; [reflexivity|].
    simpl. rewrite Hb. match goal with E : f c = true |- _ => rewrite E end.
    reflexivity.
Qed.

Lemma split_last_nl pre :
  forallb not_nl pre = true \/
  exists pre1 mid, pre = pre1 ++ (0x0A)%N :: mid /\ forallb not_nl mid = true.
Proof.
  induction pre as [|c pre IH].
  - left. reflexivity.
  - destruct IH as [H | [pre1 [mid [-> Hm]]]].
    + destruct (not_nl c) eqn:E.
      * left. simpl. rewrite E. exact H.
      * right. exists [], pre. split; [|exact H].
        unfold not_nl in E. apply negb_false_iff, N.eqb_eq in E.
        subst c. reflexivity.
    + right. exists (c :: pre1), mid. split; [reflexivity | exact Hm].
Qed.

Lemma eol_intro p rest : line_end rest -> Matches Eol p rest p rest.
Proof.
  destruct rest as [|c r]; intros H; [apply M_eol_end|].
  apply M_eol_line. exact H.
Qed.

Lemma eol_elim p s p' s' : Matches Eol p s p' s' -> s' = s /\ line_end s.
Proof. intros H. inv H; split; simpl; auto. Qed.

Lemma chr_elim c p s p' s' :
  Matches (chr c) p s p' s' -> s = c :: s' /\ p' = Some c.
Proof.
  unfold chr. intros H. inv H.
  match goal with E : N.eqb _ _ = true |- _ => apply N.eqb_eq in E; subst end.
  split; reflexivity.
Qed.

Lemma chr_intro c p s : Matches (chr c) p (c :: s) (Some c) s.
Proof. unfold chr. apply M_chr. apply N.eqb_refl. Qed.

Lemma test_true r s :
  test r s = true <->
  exists pre post p' s',
    s = pre ++ post /\
    Matches r (at_last pre) post p' s'.
Proof. unfold test, at_last. apply test_from_true. Qed.

(** The POSIX pattern. *)
Lemma posix_matches s : test POSIX_PROMPT s = true <-> posix_shape s.
Proof.
  rewrite test_true. unfold posix_shape, POSIX_PROMPT, line_start. split.
  - intros [pre [post [p' [s' [-> M]]]]].
    inv M.
    match goal with H : Matches (Alt _ _) _ _ _ _ |- _ =>
      destruct (Matches_consumed _ _ _ _ _ H) as [u1 ->]; clear H end.
    match goal with H : Matches (Seq _ _) _ _ _ _ |- _ => inv H end.
    match goal with H : Matches (Star _) _ _ _ _ |- _ =>
      destruct (Matches_consumed _ _ _ _ _ H) as [u2 ->]; clear H end.
    match goal with H : Matches (Seq _ _) _ _ _ _ |- _ => inv H end.
    match goal with H : Matches (Chr dollar_or_hash) _ _ _ _ |- _ =>
      inv H end.
    match goal with H : Matches (Seq _ _) _ _ _ _ |- _ => inv H end.
    match goal with H : Matches (Chr is_space) _ _ _ _ |- _ => inv H end.
    match goal with H : Matches Eol _ _ _ _ |- _ =>
      apply eol_elim in H; destruct H as [-> He] end.
    exists (pre ++ u1 ++ u2). do 3 eexists.
    split; [rewrite <- !app_assoc; reflexivity|].
    repeat split; assumption.
  - intros [pre [c [sp [rest [-> [Hc [Hsp He]]]]]]].
    assert (Tail : forall p, exists p', Matches
              (Seq (Chr dollar_or_hash) (Seq (Chr is_space) Eol))
              p (c :: sp :: rest) p' rest).
    { intros p. eexists. eapply M_seq; [apply M_chr; exact Hc|].
      eapply M_seq; [apply M_chr; exact Hsp|]. apply eol_intro. exact He. }
    destruct (split_last_nl pre) as [H | [pre1 [mid [-> Hm]]]].
    + exists [], (pre ++ c :: sp :: rest).
      destruct (star_chr_intro not_nl pre None (c :: sp :: rest) H)
        as [p1 M1].
      destruct (Tail p1) as [p2 M2].
      exists p2, rest. split; [reflexivity|].
      eapply M_seq; [apply M_alt_r, M_alt_r, M_bol_start|].
      eapply M_seq; [exact M1 | exact M2].
    + exists pre1, ((0x0A)%N :: mid ++ c :: sp :: rest).
      destruct (star_chr_intro not_nl mid (Some (0x0A)%N)
                  (c :: sp :: rest) Hm) as [p1 M1].
      destruct (Tail p1) as [p2 M2].
      exists p2, rest. split; [rewrite <- app_assoc; reflexivity|].
      eapply M_seq; [apply M_alt_l, chr_intro|].
      eapply M_seq; [exact M1 | exact M2].
Qed.

Lemma line_start_elim pre post p1 s1 :
  Matches line_start (at_last pre) post p1 s1 ->
  exists u, post = u ++ s1 /\ line_begin (pre ++ u).
Proof.
  unfold line_start. intros M. inv M.
  - match goal with H : Matches (chr _) _ _ _ _ |- _ =>
      apply chr_elim in H; destruct H as [-> _] end.
    exists [(0x0A)%N]. split; [reflexivity|].
    unfold line_begin. rewrite rev_app_distr. reflexivity.
  - match goal with H : Matches (Alt _ _) _ _ _ _ |- _ => inv H end.
    + match goal with H : Matches (chr _) _ _ _ _ |- _ =>
        apply chr_elim in H; destruct H as [-> _] end.
      exists [(0x0D)%N]. split; [reflexivity|].
      unfold line_begin. rewrite rev_app_distr. reflexivity.
    + match goal with H : Matches Bol _ _ _ _ |- _ =>
        remember (at_last pre) as q eqn:Eq; inv H end.
      * exists []. split; [reflexivity|]. rewrite app_nil_r.
        unfold line_begin. unfold at_last in *.
        destruct (rev pre); [exact I | discriminate].
      * exists []. split; [reflexivity|]. rewrite app_nil_r.
        unfold line_begin. unfold at_last in *.
        destruct (rev pre); [discriminate|].
        match goal with E : Some _ = Some _ |- _ => injection E as <- end.
        assumption.
Qed.

Lemma line_start_intro pre s :
  line_begin pre -> Matches line_start (at_last pre) s (at_last pre) s.
Proof.
  unfold line_begin, at_last, line_start. intros H.
  apply M_alt_r, M_alt_r.
  destruct (rev pre); [apply M_bol_start | apply M_bol_line; exact H].
Qed.

(** The PowerShell pattern. *)
Lemma powershell_matches s :
  test POWERSHELL_PROMPT s = true <-> powershell_shape s.
Proof.
  rewrite test_true. unfold powershell_shape, POWERSHELL_PROMPT, Plus.
  split.
  - intros [pre [post [p' [s' [-> M]]]]].
    inv M.
    match goal with H : Matches line_start _ _ _ _ |- _ =>
      apply line_start_elim in H; destruct H as [u [-> Hb]] end.
    repeat match goal with
    | H : Matches (Seq _ _) _ _ _ _ |- _ => inv H
    | H : Matches Eps _ _ _ _ |- _ => inv H
    | H : Matches (chr _) _ _ _ _ |- _ =>
        apply chr_elim in H; destruct H as [-> _]
    | H : Matches (Star (Chr _)) _ _ _ _ |- _ =>
        apply star_chr_elim in H; destruct H as [body [-> Hbody]]
    | H : Matches (Chr _) _ _ _ _ |- _ => inv H
    | H : Matches Eol _ _ _ _ |- _ =>
        apply eol_elim in H; destruct H as [-> He]
    end.
    exists (pre ++ u). eexists (_ :: body). do 2 eexists.
    split; [rewrite <- app_assoc; cbn [lit app]; reflexivity|].
    repeat split; try assumption; try discriminate.
    simpl. rewrite Hbody.
    match goal with H : not_nl_gt _ = true |- _ => rewrite H end.
    reflexivity.
  - intros [pre [body [sp [rest [-> [Hb [Hne [Hbody [Hsp He]]]]]]]]].
    destruct body as [|b body]; [contradiction|].
    simpl in Hbody. apply andb_prop in Hbody. destruct Hbody as [Hb1 Hb2].
    exists pre. eexists. 
    destruct (star_chr_intro not_nl_gt body (Some b)
                ((0x3E)%N :: sp :: rest) Hb2) as [p1 M1].
    exists (Some sp), rest. split; [reflexivity|].
    eapply M_seq; [apply line_start_intro; exact Hb|].
    cbn [lit app str].
    eapply M_seq.
    { eapply M_seq; [apply chr_intro|].
      eapply M_seq; [apply chr_intro|].
      eapply M_seq; [apply chr_intro|]. apply M_eps. }
    eapply M_seq.
    { eapply M_seq; [apply M_chr; exact Hb1 | exact M1]. }
    eapply M_seq; [apply chr_intro|].
    eapply M_seq; [apply M_chr; exact Hsp|].
    apply eol_intro. exact He.
Qed.

(** X2. The POSIX prompt pattern matches a text exactly when the text
    holds a dollar or hash sign followed by one white-space code unit
    at the end of a line; nothing else about the line matters. *)
Theorem posix_prompt_matches_exactly (s : jsstring) :
  test POSIX_PROMPT s = true <-> posix_shape s.
Proof. apply posix_matches. Qed.

Lemma posix_prompt_matches_exactly_witness :
  posix_shape (lit "total: 5$ ").
Proof.
  apply (proj1 (posix_prompt_matches_exactly (lit "total: 5$ "))).
  vm_compute. reflexivity.
Defined.

(** X3. The PowerShell prompt pattern matches a text exactly when, from
    the start of a line, the text holds [PS ], then one or more code
    units other than line feed and [>], then [>] and one white-space
    code unit at the end of a line. *)
Theorem powershell_prompt_matches_exactly (s : jsstring) :
  test POWERSHELL_PROMPT s = true <-> powershell_shape s.
Proof. apply powershell_matches. Qed.

Lemma powershell_prompt_matches_exactly_witness :
  powershell_shape (lit "PS C:\Users\me> ").
Proof.
  apply (proj1 (powershell_prompt_matches_exactly
                  (lit "PS C:\Users\me> "))).
  vm_compute. reflexivity.
Defined.

End PromptFacts.

(* ===================================================================== *)
(** ** Events of a call, one at a time *)
(* ===================================================================== *)

Module Steps.
Import JS Regex Ansi Prompts Host Sessions Server Props.
Import Frames TimerFacts ServerFacts.

(** A property kept by every event is kept by every run. *)
Lemma sessions_run_invariant (P : World -> Prop) :
  (forall w e w', P w -> Sessions.step w e = Some w' -> P w') ->
  forall es w w', P w -> Sessions.run w es = Some w' -> P w'.
Proof.
  intros Hstep. induction es as [|e es IH]; intros w w' HP; simpl.
  - intros H. injection H as <-. exact HP.
  - destruct (Sessions.step w e) as [w1|] eqn:E; [|discriminate].
    apply IH. eapply Hstep; eauto.
Qed.

Lemma server_run_invariant (P : World -> Prop) :
  (forall w e w', P w -> Server.step w e = Some w' -> P w') ->
  forall es w w', P w -> Server.run w es = Some w' -> P w'.
Proof.
  intros Hstep. induction es as [|e es IH]; intros w w' HP; simpl.
  - intros H. injection H as <-. exact HP.
  - destruct (Server.step w e) as [w1|] eqn:E; [|discriminate].
    apply IH. eapply Hstep; eauto.
Qed.

Lemma server_run_app es1 : forall es2 w w',
  Server.run w (es1 ++ es2) = Some w' <->
  exists w1, Server.run w es1 = Some w1 /\ Server.run w1 es2 = Some w'.
Proof.
  induction es1 as [|e es1 IH]; intros es2 w w'; simpl.
  - split; [intros H; exists w; auto | intros [w1 [H1 H2]]; congruence].
  - destruct (Server.step w e) as [wa|]; [apply IH|].
    split; [discriminate | intros [w1 [H1 _]]; discriminate].
Qed.

(** The four things the host can do to a running call. *)
Lemma server_step_cases w e w' :
  Server.step w e = Some w' ->
  (exists chunk, e = Data chunk /\ w' = on_data w chunk) \/
  (exists code sg, e = ProcExit code sg /\ w' = on_exit w code sg) \/
  (exists dt, e = Server.Advance dt /\ 0 <= dt /\
              w' = with_now w (now w + dt)) \/
  (exists h t, e = Server.Fire h /\ due_timer w h = Some t /\
     ((kind t = QuietComplete /\
       w' = quiet_complete_fired (take_timer w t)) \/
      (exists a b, kind t = IdlePoll a b /\
                   w' = idle_poll_fired a b (take_timer w t)) \/
      (kind t = CommandTimeout /\ w' = timeout_fired (take_timer w t)) \/
      (kind t = StoreRemove /\ w' = with_stored (take_timer w t) false))).
Proof.
  destruct e as [chunk|code sg|dt|h]; simpl.
  - intros H. injection H as <-. left. eauto.
  - intros H. injection H as <-. right. left. eauto.
  - destruct (0 <=? dt) eqn:E; intros H; [|discriminate]. injection H as <-.
    right. right. left. exists dt. apply Z.leb_le in E. auto.
  - unfold Server.fire. destruct (due_timer w h) as [t|] eqn:Ed;
      [|discriminate].
    intros H. right. right. right. exists h, t.
    split; [reflexivity|]. split; [exact Ed|].
    destruct (kind t) as [|a b| |] eqn:Ek; injection H as <-.
    + left. auto.
    + right. left. eauto.
    + right. right. left. auto.
    + right. right. right. auto.
Qed.

Lemma sessions_step_cases w e w' :
  Sessions.step w e = Some w' ->
  (exists text, e = Chunk text /\ w' = onChunk w text) \/
  (e = Exit /\ w' = onExit w) \/
  (exists wp sp, e = StartIdle wp sp /\ w' = startIdleTimers w wp sp) \/
  (exists dt, e = Sessions.Advance dt /\ 0 <= dt /\
              w' = with_now w (now w + dt)) \/
  (exists h t, e = Sessions.Fire h /\ due_timer w h = Some t /\
     ((kind t = QuietComplete /\
       w' = quiet_complete_fired (take_timer w t)) \/
      (exists a b, kind t = IdlePoll a b /\
                   w' = idle_poll_fired a b (take_timer w t)))).
Proof.
  destruct e as [text| |wp sp|dt|h]; simpl.
  - intros H. injection H as <-. left. eauto.
  - intros H. injection H as <-. right. left. eauto.
  - intros H. injection H as <-. right. right. left. eauto.
  - destruct (0 <=? dt) eqn:E; intros H; [|discriminate]. injection H as <-.
    right. right. right. left. exists dt. apply Z.leb_le in E. auto.
  - unfold Sessions.fire. destruct (due_timer w h) as [t|] eqn:Ed;
      [|discriminate].
    intros H. right. right. right. right. exists h, t.
    split; [reflexivity|]. split; [exact Ed|].
    destruct (kind t) as [|a b| |] eqn:Ek; try discriminate;
      injection H as <-.
    + left. auto.
    + right. eauto.
Qed.

(** What the session record is after each handler. *)
Lemma session_after_take_timer w t : sess (take_timer w t) = sess w.
Proof. apply take_timer_frame. Qed.

Lemma sess_quiet_complete_fired w :
  sess (quiet_complete_fired w)
  = if is_terminal (status (sess w)) then sess w
    else set_status (sess w) Completed.
Proof.
  unfold quiet_complete_fired. cbn [sess count_quiet_fire].
  destruct (is_terminal (status (sess w))); cbn [negb]; [reflexivity|].
  destruct (disarm_opt_frame
              (count_completion
                 (with_sess (count_quiet_fire w)
                    (set_status (sess w) Completed)))
              (idleTimer (set_status (sess w) Completed))) as [H _].
  exact H.
Qed.

Lemma sess_cleanup w :
  sess (cleanup w)
  = set_idleTimer (set_quietTimer (sess w) None) None.
Proof.
  unfold cleanup.
  destruct (quietTimer (sess w)) eqn:Eq; destruct (idleTimer (sess w)) eqn:Ei;
    cbn [sess with_sess disarm with_timers idleTimer set_quietTimer arm snd];
    rewrite ?Ei; cbn [sess with_sess disarm with_timers];
    destruct (sess w); cbn in *; subst; reflexivity.
Qed.

Lemma sess_resolve w r : sess (resolve w r) = sess w.
Proof. apply resolve_frame. Qed.

Lemma sess_reject w m : sess (reject w m) = sess w.
Proof. apply reject_frame. Qed.

Lemma sess_disarm_opt w h : sess (disarm_opt w h) = sess w.
Proof. apply disarm_opt_frame. Qed.

Lemma sess_exit_handler_1 w code sg :
  sess (exit_handler_1 w code sg)
  = set_idleTimer
      (set_quietTimer
         (set_exit (set_status (sess w) (exit_status_1 code)) code sg)
         None) None.
Proof.
  unfold exit_handler_1. rewrite sess_resolve, sess_cleanup.
  cbn [sess with_sess]. rewrite sess_disarm_opt. reflexivity.
Qed.

(** The [errorReason] the second exit callback leaves. *)
Lemma sess_exit_handler_2 w code sg :
  sess (exit_handler_2 w code sg)
  = set_idleTimer
      (set_quietTimer
         (let s2 := set_exit (set_status (sess w) (exit_status_2 code sg))
                      code sg in
          if negb (is_zero code) || some_signal sg
          then set_errorReason s2
                 (Some ("Process exited with code " ++ show_code code ++
                        match sg with
                        | Some x => if String.eqb x EmptyString
                                    then EmptyString
                                    else ", signal: " ++ x
                        | None => EmptyString
                        end)%string)
          else s2)
         None) None.
Proof.
  unfold exit_handler_2, exit_status_2. rewrite sess_cleanup.
  destruct (negb (is_zero code) || some_signal sg).
  - rewrite sess_reject. cbn [sess with_sess]. rewrite sess_disarm_opt.
    reflexivity.
  - rewrite sess_resolve. cbn [sess with_sess]. rewrite sess_disarm_opt.
    reflexivity.
Qed.

Lemma sess_timeout_fired w :
  sess (timeout_fired w)
  = if running_or_waiting (status (sess w))
    then set_errorReason (set_status (sess w) Error)
           (Some "Command timed out"%string)
    else sess w.
Proof.
  unfold timeout_fired, running_or_waiting.
  destruct (status_eqb (status (sess w)) Running
            || status_eqb (status (sess w)) Waiting); reflexivity.
Qed.

Lemma sess_idle_poll_fired a b w :
  sess (idle_poll_fired a b w)
  = set_status (sess w) (status (sess (idle_poll_fired a b w))).
Proof.
  unfold idle_poll_fired.
  destruct (status_eqb (status (sess w)) Running
            && (now w - lastByteAt (sess w) >? a));
    cbn [sess with_progress with_sess status set_status].
  - destruct ((status_eqb Waiting Waiting || status_eqb Waiting Running)
              && (now w - lastByteAt (sess w) >? b));
      cbn [sess with_progress with_sess status set_status];
      destruct (sess w); reflexivity.
  - destruct ((status_eqb (status (sess w)) Waiting
               || status_eqb (status (sess w)) Running)
              && (now w - lastByteAt (sess w) >? b));
      cbn [sess with_progress with_sess status set_status];
      destruct (sess w); reflexivity.
Qed.

Lemma sess_scheduleQuietComplete w d :
  sess (scheduleQuietComplete w d)
  = set_quietTimer (sess w) (Some (nextTimer w)).
Proof.
  unfold scheduleQuietComplete, disarm_opt.
  destruct (quietTimer (sess w)); reflexivity.
Qed.

Lemma sess_startIdleTimers w wp sp :
  sess (startIdleTimers w wp sp)
  = set_idleTimer (sess w) (Some (nextTimer w)).
Proof.
  unfold startIdleTimers, disarm_opt.
  destruct (idleTimer (sess w)); reflexivity.
Qed.

(** Wiring with the cap the session already has leaves the session as
    it is. *)
Lemma wireHeuristics_same_cap w m q wa st :
  maxBufferBytes (sess w) = Some m ->
  wireHeuristics w (mkOpts q wa st (Some m))
  = mkWorld (sess w) [] (mkHeur (nullish q 300) (nullish wa 10000)
                           (nullish st 45000))
      (now w) (timers w) (nextTimer w) (progressLog w) (calls w)
      (timeoutId w) (promise w) (stored w) (quietFires w) (completions w).
Proof.
  intros H. unfold wireHeuristics.
  cbn [o_maxBufferBytes o_quietMs o_waitingMs o_stuckMs].
  destruct (truthy (Some m)); [|reflexivity].
  f_equal. destruct (sess w). cbn in *. subst. reflexivity.
Qed.

(** The world terminal.run starts from. *)
Lemma invoke_world input sid t0 a w0 :
  invoke input sid t0 (Ok a) = InvokeStarted w0 ->
  let tmo := nullish (timeoutMs input) 30000 in
  sess w0
  = mkSession sid [] t0 Running None None None (Some 0%nat) None None
      (Some 0) (Some (nullish (i_maxBufferBytes input) (2 * 1024 * 1024)))
      (Some a) /\
  timers w0
  = mkTimer 0 (IdlePoll (nullish (i_waitingMs input) 10000)
                        (nullish (i_stuckMs input) 45000)) (t0 + 1000)
    :: (if tmo >? 0
        then [mkTimer 1 CommandTimeout (t0 + timer_delay tmo)] else []) /\
  timeoutId w0 = (if tmo >? 0 then Some 1%nat else None) /\
  now w0 = t0 /\ calls w0 = [] /\ progressLog w0 = [] /\
  stored w0 = true /\ promise w0 = Pending /\
  heur w0 = mkHeur (nullish (i_quietMs input) 300)
                   (nullish (i_waitingMs input) 10000)
                   (nullish (i_stuckMs input) 45000).
Proof.
  intros H.
  assert (E : invoke input sid t0 (Ok a)
              = InvokeStarted
                  (let s0 := set_status
                               (set_adapter
                                  (set_maxBufferBytes (newSession sid t0)
                                     (Some (nullish (i_maxBufferBytes input)
                                              (2 * 1024 * 1024))))
                                  (Some a)) Running in
                   let w3 := startIdleTimers
                               (mkWorld s0 []
                                  (mkHeur (nullish (i_quietMs input) 300)
                                     (nullish (i_waitingMs input) 10000)
                                     (nullish (i_stuckMs input) 45000))
                                  t0 [] 0 [] [] None Pending true 0 0)
                               None None in
                   if nullish (timeoutMs input) 30000 >? 0
                   then with_timeoutId
                          (snd (arm w3 CommandTimeout
                                  (nullish (timeoutMs input) 30000)))
                          (Some (fst (arm w3 CommandTimeout
                                        (nullish (timeoutMs input) 30000))))
                   else w3)).
  { unfold invoke. cbv zeta.
    rewrite wireHeuristics_same_cap by reflexivity. reflexivity. }
  rewrite E in H. injection H as <-. cbv zeta.
  destruct (nullish (timeoutMs input) 30000 >? 0); repeat split.
Qed.

End Steps.

(* ===================================================================== *)
(** ** The prompt pattern of a session *)
(* ===================================================================== *)

Module PromptReFacts.
Import JS Regex Ansi Prompts Host Sessions Server Props Samples Texts.
Import Frames TimerFacts ServerFacts Steps.

(** How [onChunk] can change the pattern: not at all, or from unset to
    a built-in pattern. *)
Lemma classify_line_promptRe w line :
  promptRe (sess (classify_line w line)) = promptRe (sess w) \/
  (promptRe (sess w) = None /\
   exists r, In r COMMON_PROMPTS /\
             promptRe (sess (classify_line w line)) = Some r).
Proof.
  unfold classify_line.
  destruct (nonempty line && isLikelySpinnerFrame (lastLine w) line);
    [left; reflexivity|].
  assert (Hs : sess (with_lastLine w line) = sess w) by reflexivity.
  rewrite !Hs.
  destruct (promptRe (sess w)) as [r0|] eqn:E0.
  - left. rewrite Hs, E0. destruct (test r0 line).
    + rewrite sess_scheduleQuietComplete. exact E0.
    + exact E0.
  - cbn [sess with_sess promptRe set_promptRe].
    destruct (detectPrompt line) as [r|] eqn:Ed.
    + right. split; [reflexivity|]. exists r.
      split; [apply find_some in Ed; exact (proj1 Ed)|].
      destruct (test r line); [|reflexivity].
      rewrite sess_scheduleQuietComplete. reflexivity.
    + left. reflexivity.
Qed.

Lemma classify_lines_promptRe lines : forall w,
  promptRe (sess (fold_left classify_line lines w)) = promptRe (sess w) \/
  (promptRe (sess w) = None /\
   exists r, In r COMMON_PROMPTS /\
             promptRe (sess (fold_left classify_line lines w)) = Some r).
Proof.
  induction lines as [|l lines IH]; intros w; [left; reflexivity|].
  cbn [fold_left].
  destruct (IH (classify_line w l)) as [H | [Hn [r [Hr H]]]];
    destruct (classify_line_promptRe w l) as [G | [Gn [r' [Gr G]]]].
  - left. congruence.
  - right. split; [exact Gn|]. exists r'. split; [exact Gr|]. congruence.
  - right. split; [congruence|]. exists r. auto.
  - congruence.
Qed.

Lemma onChunk_promptRe w text :
  promptRe (sess (onChunk w text)) = promptRe (sess w) \/
  (promptRe (sess w) = None /\
   exists r, In r COMMON_PROMPTS /\
             promptRe (sess (onChunk w text)) = Some r).
Proof.
  unfold onChunk. cbn [sess with_sess promptRe set_lastByteAt set_totalBytes
                       set_buf].
  apply classify_lines_promptRe.
Qed.

Lemma on_exit_promptRe w code sg :
  promptRe (sess (on_exit w code sg)) = promptRe (sess w).
Proof.
  unfold on_exit. rewrite sess_exit_handler_2, sess_exit_handler_1.
  cbv zeta. destruct (negb (is_zero code) || some_signal sg); reflexivity.
Qed.

Lemma server_step_promptRe w e w' :
  Server.step w e = Some w' ->
  promptRe (sess w') = promptRe (sess w) \/
  (promptRe (sess w) = None /\
   exists r, In r COMMON_PROMPTS /\ promptRe (sess w') = Some r).
Proof.
  intros H. apply server_step_cases in H.
  destruct H as [[chunk [_ ->]] | [[code [sg [_ ->]]] | [[dt [_ [_ ->]]] |
    [h [t [_ [_ [[_ ->] | [[a [b [_ ->]]] | [[_ ->] | [_ ->]]]]]]]]]]].
  - apply (onChunk_promptRe w chunk).
  - left. apply on_exit_promptRe.
  - left. reflexivity.
  - left. rewrite sess_quiet_complete_fired, session_after_take_timer.
    destruct (is_terminal (status (sess w))); reflexivity.
  - left. rewrite sess_idle_poll_fired. cbn [promptRe set_status].
    rewrite session_after_take_timer. reflexivity.
  - left. rewrite sess_timeout_fired, session_after_take_timer.
    destruct (running_or_waiting (status (sess w))); reflexivity.
  - left. cbn [sess with_stored]. rewrite session_after_take_timer. reflexivity.
Qed.

Lemma sessions_step_promptRe w e w' :
  Sessions.step w e = Some w' ->
  promptRe (sess w') = promptRe (sess w) \/
  (promptRe (sess w) = None /\
   exists r, In r COMMON_PROMPTS /\ promptRe (sess w') = Some r).
Proof.
  intros H. apply sessions_step_cases in H.
  destruct H as [[text [_ ->]] | [[_ ->] | [[wp [sp [_ ->]]] |
    [[dt [_ [_ ->]]] | [h [t [_ [_ [[_ ->] | [a [b [_ ->]]]]]]]]]]]].
  - apply onChunk_promptRe.
  - left. unfold onExit. rewrite sess_scheduleQuietComplete. reflexivity.
  - left. rewrite sess_startIdleTimers. reflexivity.
  - left. reflexivity.
  - left. rewrite sess_quiet_complete_fired, session_after_take_timer.
    destruct (is_terminal (status (sess w))); reflexivity.
  - left. rewrite sess_idle_poll_fired. cbn [promptRe set_status].
    rewrite session_after_take_timer. reflexivity.
Qed.

Lemma server_run_promptRe es w w' :
  Server.run w es = Some w' ->
  (forall r, promptRe (sess w) = Some r -> promptRe (sess w') = Some r) /\
  (builtin_prompt (promptRe (sess w)) ->
   builtin_prompt (promptRe (sess w'))).
Proof.
  intros Hrun. split.
  - intros r Hr. revert Hrun.
    apply (server_run_invariant (fun x => promptRe (sess x) = Some r));
      [|exact Hr].
    intros x e x' Hx Hs. apply server_step_promptRe in Hs.
    destruct Hs as [H | [Hn _]]; congruence.
  - intros Hb. revert Hrun.
    apply (server_run_invariant
             (fun x => builtin_prompt (promptRe (sess x)))); [|exact Hb].
    intros x e x' Hx Hs. apply server_step_promptRe in Hs.
    destruct Hs as [H | [_ [r [Hr H]]]].
    + rewrite H. exact Hx.
    + right. exists r. auto.
Qed.

Lemma sessions_run_promptRe es w w' :
  Sessions.run w es = Some w' ->
  (forall r, promptRe (sess w) = Some r -> promptRe (sess w') = Some r) /\
  (builtin_prompt (promptRe (sess w)) ->
   builtin_prompt (promptRe (sess w'))).
Proof.
  intros Hrun. split.
  - intros r Hr. revert Hrun.
    apply (sessions_run_invariant (fun x => promptRe (sess x) = Some r));
      [|exact Hr].
    intros x e x' Hx Hs. apply sessions_step_promptRe in Hs.
    destruct Hs as [H | [Hn _]]; congruence.
  - intros Hb. revert Hrun.
    apply (sessions_run_invariant
             (fun x => builtin_prompt (promptRe (sess x)))); [|exact Hb].
    intros x e x' Hx Hs. apply sessions_step_promptRe in Hs.
    destruct Hs as [H | [_ [r [Hr H]]]].
    + rewrite H. exact Hx.
    + right. exists r. auto.
Qed.

Lemma invoke_promptRe input sid t0 a w0 :
  invoke input sid t0 (Ok a) = InvokeStarted w0 ->
  promptRe (sess w0) = None.
Proof.
  intros H. destruct (invoke_world _ _ _ _ _ H) as [Hs _].
  rewrite Hs. reflexivity.
Qed.

(** X6. In a terminal.run call the prompt pattern of the session is
    unset or one of the two built-in patterns, and once a pattern is
    stored no later output, timer or exit replaces it. *)
Theorem prompt_pattern_fixed_once_detected (input : RunCommandOptions)
  (sid : string) (t0 : Z) (a : Adapter) (w0 w w' : World)
  (es es' : list Server.Event) :
  invoke input sid t0 (Ok a) = InvokeStarted w0 ->
  Server.run w0 es = Some w -> Server.run w es' = Some w' ->
  builtin_prompt (promptRe (sess w)) /\
  (forall r, promptRe (sess w) = Some r -> promptRe (sess w') = Some r).
Proof.
  intros Hi Hrun Hrun'. split.
  - apply (server_run_promptRe es w0 w Hrun). left.
    exact (invoke_promptRe _ _ _ _ _ Hi).
  - apply (server_run_promptRe es' w w' Hrun').
Qed.

Lemma prompt_pattern_fixed_once_detected_witness :
  let w := after (started default_input ChildProcessAdapter)
             [Data (lit "step 3 # ")] in
  promptRe (sess w) = Some POSIX_PROMPT /\
  promptRe (sess (after w [Data (lit "PS C:\work> ")]))
  = Some POSIX_PROMPT.
Proof.
  destruct (prompt_pattern_fixed_once_detected default_input "s1" 0
              ChildProcessAdapter
              (started default_input ChildProcessAdapter)
              (after (started default_input ChildProcessAdapter)
                 [Data (lit "step 3 # ")])
              (after (after (started default_input ChildProcessAdapter)
                        [Data (lit "step 3 # ")])
                 [Data (lit "PS C:\work> ")])
              [Data (lit "step 3 # ")] [Data (lit "PS C:\work> ")])
    as [_ H].
  - vm_compute. reflexivity.
  - vm_compute. reflexivity.
  - vm_compute. reflexivity.
  - cbv zeta. split; [vm_compute; reflexivity|].
    apply (H POSIX_PROMPT). vm_compute. reflexivity.
Defined.

End PromptReFacts.

(* ===================================================================== *)
(** ** Prompt lines and the quiet timer *)
(* ===================================================================== *)

Module PromptWiring.
Import JS Regex Ansi Prompts Host Sessions Server Props Samples Texts.
Import AnsiFacts Frames TimerFacts QuietFacts ServerFacts RunFacts.
Import StripFacts PromptFacts Steps PromptReFacts.

Lemma param_not_terminator c :
  is_digit_or_semicolon c = true -> is_line_terminator c = false.
Proof.
  unfold is_digit_or_semicolon, is_line_terminator. intros H.
  destruct (N.eqb_spec c 0x0A) as [->|_]; [discriminate H|].
  destruct (N.eqb_spec c 0x0D) as [->|_]; [discriminate H|].
  destruct (N.eqb_spec c 0x2028) as [->|_]; [discriminate H|].
  destruct (N.eqb_spec c 0x2029) as [->|_]; [discriminate H|].
  reflexivity.
Qed.

Lemma one_line_app a b :
  one_line (a ++ b) = one_line a && one_line b.
Proof. apply forallb_app. Qed.

Lemma sgr_one_line ps : sgr_params ps = true -> one_line (sgr ps) = true.
Proof.
  intros H. unfold sgr. change (one_line (?a :: ?b :: ?r))
    with (one_line [a; b] && one_line r).
  cbn [one_line forallb]. unfold one_line. cbn [forallb].
  change (negb (is_line_terminator 27)) with true.
  change (negb (is_line_terminator 91)) with true. cbn [andb].
  rewrite forallb_app. cbn [forallb].
  change (negb (is_line_terminator 109)) with true. rewrite andb_true_r.
  apply forallb_forall. intros c Hc.
  unfold sgr_params in H. rewrite forallb_forall in H.
  rewrite (param_not_terminator c (H c Hc)). reflexivity.
Qed.

(** In a text of one line, a code unit followed by the end of a line is
    the last one. *)
Lemma line_end_is_last L X sp rest :
  one_line L = true -> L = X ++ sp :: rest -> line_end rest ->
  L = X ++ [sp].
Proof.
  intros HL -> He. destruct rest as [|d r]; [reflexivity|].
  exfalso. unfold one_line in HL. rewrite forallb_forall in HL.
  assert (Hd : In d (X ++ sp :: d :: r))
    by (apply in_or_app; right; right; left; reflexivity).
  apply HL in Hd. simpl in He. rewrite He in Hd. discriminate.
Qed.

(** What a built-in pattern needs at the end of a one-line text. *)
Lemma prompt_tail r L :
  In r COMMON_PROMPTS -> one_line L = true -> test r L = true ->
  exists X c sp,
    L = X ++ [c; sp] /\ is_space sp = true /\
    (c = 0x24 \/ c = 0x23 \/ c = 0x3E)%N.
Proof.
  intros Hr HL Ht. destruct Hr as [<- | [<- | []]].
  - apply powershell_matches in Ht.
    destruct Ht as [pre [body [sp [rest [Eq [_ [_ [_ [Hsp He]]]]]]]]].
    exists (pre ++ lit "PS " ++ body), (0x3E)%N, sp.
    split; [|split; [exact Hsp | right; right; reflexivity]].
    rewrite (line_end_is_last L
               (pre ++ lit "PS " ++ body ++ [(0x3E)%N]) sp rest HL);
      [ repeat rewrite <- app_assoc; reflexivity
      | rewrite Eq; repeat rewrite <- app_assoc; reflexivity
      | exact He ].
  - apply posix_matches in Ht.
    destruct Ht as [pre [c [sp [rest [Eq [Hc [Hsp He]]]]]]].
    exists pre, c, sp. split; [|split; [exact Hsp|]].
    + rewrite (line_end_is_last L (pre ++ [c]) sp rest HL);
        [ repeat rewrite <- app_assoc; reflexivity
        | rewrite Eq; repeat rewrite <- app_assoc; reflexivity
        | exact He ].
    + unfold dollar_or_hash in Hc. apply orb_prop in Hc.
      destruct Hc as [Hc|Hc]; apply N.eqb_eq in Hc; auto.
Qed.

(** A line that ends with an SGR sequence matches no built-in pattern. *)
Lemma raw_line_no_prompt r txt ps :
  In r COMMON_PROMPTS -> one_line txt = true -> sgr_params ps = true ->
  test r (txt ++ sgr ps) = false.
Proof.
  intros Hr Ht Hp. destruct (test r (txt ++ sgr ps)) eqn:E; [|reflexivity].
  exfalso.
  assert (HL : one_line (txt ++ sgr ps) = true)
    by (rewrite one_line_app, Ht, (sgr_one_line _ Hp); reflexivity).
  destruct (prompt_tail r _ Hr HL E) as [X [c [sp [Eq [Hsp _]]]]].
  unfold sgr in Eq.
  change (txt ++ 27%N :: 91%N :: ps ++ [109%N])
    with (txt ++ [27%N; 91%N] ++ ps ++ [109%N]) in Eq.
  change (X ++ [c; sp]) with (X ++ [c] ++ [sp]) in Eq.
  rewrite !app_assoc in Eq. apply app_inj_tail in Eq.
  destruct Eq as [_ <-]. discriminate Hsp.
Qed.

Lemma detectPrompt_common line r :
  detectPrompt line = Some r -> In r COMMON_PROMPTS /\
  test r (stripAnsi line) = true.
Proof. unfold detectPrompt. intros H. apply find_some in H. exact H. Qed.

Lemma split_lines_from_one s : forall cur,
  forallb (fun c => negb (c =? 0x0A)%N) s = true ->
  split_lines_from cur s = [rev cur ++ s].
Proof.
  induction s as [|c r IH]; intros cur H.
  - simpl. rewrite app_nil_r. reflexivity.
  - cbn [forallb] in H. apply andb_prop in H. destruct H as [Hc Hr].
    apply negb_true_iff in Hc. cbn [split_lines_from]. rewrite Hc.
    assert (Next : split_lines_from (c :: cur) r = [rev cur ++ c :: r]).
    { rewrite (IH (c :: cur) Hr). cbn [rev]. rewrite <- app_assoc.
      reflexivity. }
    destruct (c =? 0x0D)%N; [|exact Next].
    destruct r as [|d r']; [exact Next|].
    cbn [forallb] in Hr. apply andb_prop in Hr. destruct Hr as [Hd _].
    apply negb_true_iff in Hd. rewrite Hd. exact Next.
Qed.

Lemma one_line_no_nl s :
  one_line s = true -> forallb (fun c => negb (c =? 0x0A)%N) s = true.
Proof.
  unfold one_line. rewrite !forallb_forall. intros H c Hc.
  specialize (H c Hc). unfold is_line_terminator in H.
  destruct (c =? 0x0A)%N; [discriminate H | reflexivity].
Qed.

Lemma split_lines_one_line s : one_line s = true -> split_lines s = [s].
Proof.
  intros H. unfold split_lines.
  rewrite (split_lines_from_one s [] (one_line_no_nl s H)). reflexivity.
Qed.

Lemma trimEnd_tail X c sp :
  is_space sp = true -> is_space c = false ->
  trimEnd (X ++ [c; sp]) = X ++ [c].
Proof.
  intros Hsp Hc. unfold trimEnd. rewrite rev_app_distr.
  cbn [rev app drop_leading_space]. rewrite Hsp.
  cbn [drop_leading_space]. rewrite Hc.
  cbn [rev]. rewrite rev_involutive. reflexivity.
Qed.

(** A text that ends like a prompt is no spinner frame. *)
Lemma prompt_no_spinner prev line X c sp :
  stripAnsi line = X ++ [c; sp] -> is_space sp = true ->
  (c = 0x24 \/ c = 0x23 \/ c = 0x3E)%N ->
  isLikelySpinnerFrame prev line = false.
Proof.
  intros Hs Hsp Hc. rewrite isLikelySpinnerFrame_unfold. cbv zeta.
  rewrite Hs, trimEnd_tail;
    [| exact Hsp | destruct Hc as [-> | [-> | ->]]; reflexivity].
  rewrite at_last_snoc.
  replace (includes_short spinners (Some c)) with false
    by (destruct Hc as [-> | [-> | ->]]; reflexivity).
  rewrite andb_false_r. reflexivity.
Qed.

Lemma timers_with_sess w s : timers (with_sess w s) = timers w.
Proof. reflexivity. Qed.

(** The line loop of [onChunk] on a line that ends with an SGR
    sequence. *)
Lemma classify_sgr_line w txt ps :
  (promptRe (sess w) = None \/
   exists r, In r COMMON_PROMPTS /\ promptRe (sess w) = Some r) ->
  one_line txt = true -> sgr_params ps = true ->
  timers (classify_line w (txt ++ sgr ps)) = timers w /\
  quietTimer (sess (classify_line w (txt ++ sgr ps)))
  = quietTimer (sess w) /\
  (esc_free txt = true -> promptRe (sess w) = None ->
   promptRe (sess (classify_line w (txt ++ sgr ps))) = detectPrompt txt).
Proof.
  intros Hre Ht Hp.
  assert (Hd : esc_free txt = true ->
               detectPrompt (txt ++ sgr ps) = detectPrompt txt).
  { intros He. unfold detectPrompt.
    rewrite (stripAnsi_trailing_sgr txt ps He Hp), (stripAnsi_plain txt He).
    reflexivity. }
  unfold classify_line.
  destruct (nonempty (txt ++ sgr ps)
            && isLikelySpinnerFrame (lastLine w) (txt ++ sgr ps)) eqn:Es.
  - split; [reflexivity|]. split; [reflexivity|].
    intros He Hn. rewrite Hn. symmetry.
    destruct (detectPrompt txt) as [r|] eqn:Ed; [|reflexivity].
    exfalso. apply detectPrompt_common in Ed. destruct Ed as [Hr Htest].
    rewrite (stripAnsi_plain txt He) in Htest.
    destruct (prompt_tail r txt Hr Ht Htest) as [X [c [sp [Eq [Hsp Hc]]]]].
    apply andb_prop in Es. destruct Es as [_ Es].
    rewrite (prompt_no_spinner (lastLine w) (txt ++ sgr ps) X c sp) in Es;
      [discriminate | | exact Hsp | exact Hc].
    rewrite (stripAnsi_trailing_sgr txt ps He Hp). exact Eq.
  - destruct Hre as [Hn | [r [Hr Hs]]].
    + cbn [sess with_lastLine]. rewrite Hn.
      cbn [sess with_sess promptRe set_promptRe].
      destruct (detectPrompt (txt ++ sgr ps)) as [r|] eqn:Ed.
      * pose proof Ed as Ed'.
        apply detectPrompt_common in Ed. destruct Ed as [Hr _].
        rewrite (raw_line_no_prompt r txt ps Hr Ht Hp).
        split; [reflexivity|]. split; [reflexivity|].
        intros He _. cbn [sess with_sess promptRe set_promptRe].
        exact (Hd He).
      * split; [reflexivity|]. split; [reflexivity|].
        intros He _. cbn [sess with_sess promptRe set_promptRe].
        exact (Hd He).
    + cbn [sess with_lastLine]. rewrite Hs.
      cbn [sess with_lastLine]. rewrite Hs.
      rewrite (raw_line_no_prompt r txt ps Hr Ht Hp).
      split; [reflexivity|]. split; [reflexivity|].
      intros _ Hn. rewrite Hn in Hs. discriminate.
Qed.

Lemma onChunk_one_line w line :
  one_line line = true ->
  timers (onChunk w line) = timers (classify_line w line) /\
  nextTimer (onChunk w line) = nextTimer (classify_line w line) /\
  now (onChunk w line) = now (classify_line w line) /\
  quietTimer (sess (onChunk w line))
  = quietTimer (sess (classify_line w line)) /\
  idleTimer (sess (onChunk w line))
  = idleTimer (sess (classify_line w line)) /\
  promptRe (sess (onChunk w line))
  = promptRe (sess (classify_line w line)) /\
  status (sess (onChunk w line)) = status (sess (classify_line w line)).
Proof.
  intros H. unfold onChunk. rewrite (split_lines_one_line line H).
  cbn [fold_left]. repeat split.
Qed.




(** X5. In a terminal.run call, a line that ends with an SGR sequence
    never arms the quiet timer, whatever precedes the sequence: the
    prompt pattern is detected on the stripped line and then tested on
    the raw one. *)
Theorem sgr_ended_line_never_arms (input : RunCommandOptions)
  (sid : string) (t0 : Z) (a : Adapter) (w0 w : World)
  (es : list Server.Event) (txt ps : jsstring) :
  invoke input sid t0 (Ok a) = InvokeStarted w0 ->
  Server.run w0 es = Some w ->
  one_line txt = true -> sgr_params ps = true ->
  timers (on_data w (txt ++ sgr ps)) = timers w /\
  quietTimer (sess (on_data w (txt ++ sgr ps))) = quietTimer (sess w) /\
  (esc_free txt = true -> promptRe (sess w) = None ->
   promptRe (sess (on_data w (txt ++ sgr ps))) = detectPrompt txt).
Proof.
  intros Hi Hrun Ht Hp.
  assert (Hre : builtin_prompt (promptRe (sess w))).
  { apply (server_run_promptRe es w0 w Hrun). left.
    exact (invoke_promptRe _ _ _ _ _ Hi). }
  assert (HL : one_line (txt ++ sgr ps) = true)
    by (rewrite one_line_app, Ht, (sgr_one_line _ Hp); reflexivity).
  destruct (onChunk_one_line w _ HL) as [T1 [_ [_ [T4 [_ [T6 _]]]]]].
  destruct (classify_sgr_line w txt ps Hre Ht Hp) as [C1 [C2 C3]].
  unfold on_data. cbn [sess timers with_progress].
  rewrite T1, T4, T6. auto.
Qed.

Lemma sgr_ended_line_never_arms_witness :
  let w := started default_input ChildProcessAdapter in
  let line := lit "user@host:~$ " ++ sgr (lit "0") in
  timers (on_data w line) = timers w /\
  promptRe (sess (on_data w line)) = Some POSIX_PROMPT.
Proof.
  destruct (sgr_ended_line_never_arms default_input "s1" 0
              ChildProcessAdapter
              (started default_input ChildProcessAdapter)
              (started default_input ChildProcessAdapter) []
              (lit "user@host:~$ ") (lit "0"))
    as [H1 [_ H3]].
  - vm_compute. reflexivity.
  - vm_compute. reflexivity.
  - vm_compute. reflexivity.
  - vm_compute. reflexivity.
  - split; [exact H1|]. rewrite H3; vm_compute; reflexivity.
Defined.

End PromptWiring.

(* ===================================================================== *)
(** ** The status of a session over a whole call *)
(* ===================================================================== *)

Module StatusFacts.
Import JS Regex Ansi Prompts Host Sessions Server Props Samples RunProps.
Import Frames TimerFacts ServerFacts RunFacts Steps.

Lemma status_onChunk w text :
  status (sess (onChunk w text)) = status (sess w).
Proof. apply onChunk_frame. Qed.

Lemma status_on_exit w code sg :
  status (sess (on_exit w code sg)) = exit_status_2 code sg.
Proof. apply on_exit_effect. Qed.

Lemma rank_exit_status_2 code sg :
  status_rank (exit_status_2 code sg) = 4%nat.
Proof. unfold exit_status_2. destruct (_ || _); reflexivity. Qed.

Lemma status_rank_le_4 st : (status_rank st <= 4)%nat.
Proof. destruct st; simpl; lia. Qed.

Lemma server_step_rank w e w' :
  Server.step w e = Some w' ->
  (status_rank (status (sess w)) <= status_rank (status (sess w')))%nat.
Proof.
  intros H. apply server_step_cases in H.
  destruct H as [[chunk [_ ->]] | [[code [sg [_ ->]]] | [[dt [_ [_ ->]]] |
    [h [t [_ [_ [[_ ->] | [[a [b [_ ->]]] | [[_ ->] | [_ ->]]]]]]]]]]].
  - unfold on_data. cbn [sess with_progress]. rewrite status_onChunk. lia.
  - rewrite status_on_exit, rank_exit_status_2. apply status_rank_le_4.
  - cbn [sess with_now]. lia.
  - rewrite sess_quiet_complete_fired, session_after_take_timer.
    destruct (is_terminal (status (sess w))); [lia|].
    cbn [status set_status status_rank]. apply status_rank_le_4.
  - pose proof (idle_poll_status a b (take_timer w t)) as H.
    cbv zeta in H. rewrite session_after_take_timer in H.
    destruct H as [-> | [[-> [-> | ->]] | [-> ->]]]; simpl; lia.
  - rewrite sess_timeout_fired, session_after_take_timer.
    destruct (running_or_waiting (status (sess w))); [|lia].
    cbn [status set_status set_errorReason status_rank].
    apply status_rank_le_4.
  - cbn [sess with_stored]. rewrite session_after_take_timer. lia.
Qed.

(** X7. Over the events of a terminal.run call the status only moves
    forward in the order running, waiting, possibly-stuck, final
    (completed or error): a waiting session is never running again and
    a final status never gives way to a status that is not final. *)
Theorem status_only_moves_forward (w w' : World)
  (es : list Server.Event) :
  Server.run w es = Some w' ->
  (status_rank (status (sess w)) <= status_rank (status (sess w')))%nat.
Proof.
  revert w w'. induction es as [|e es IH]; intros w w'; simpl.
  - intros H. injection H as <-. lia.
  - destruct (Server.step w e) as [w1|] eqn:E; [|discriminate].
    intros H. apply IH in H. apply server_step_rank in E. lia.
Qed.

Lemma status_only_moves_forward_witness :
  status (sess stuck_world) = PossiblyStuck /\
  (status_rank
     (status (sess (started (mkRun (Some 0%Z) None None None None)
                      ChildProcessAdapter)))
   <= status_rank (status (sess stuck_world)))%nat.
Proof.
  split; [reflexivity|].
  apply (status_only_moves_forward
           (started (mkRun (Some 0) None None None None)
              ChildProcessAdapter) stuck_world
           [Data (lit "x"); Server.Advance 11000; Server.Fire 0%nat;
            Server.Advance 35000; Server.Fire 0%nat]).
  vm_compute. reflexivity.
Defined.

(** *** The idle messages *)

Lemma log_onChunk w text : progressLog (onChunk w text) = progressLog w.
Proof.
  unfold onChunk. cbn [progressLog with_sess].
  destruct (classify_lines_frame (split_lines text) w) as [_ [He _]].
  apply env_of_fields in He. tauto.
Qed.

Lemma log_cleanup w : progressLog (cleanup w) = progressLog w.
Proof.
  destruct (cleanup_frame w) as [_ [He _]].
  apply env_of_fields in He. tauto.
Qed.

Lemma log_resolve w r : progressLog (resolve w r) = progressLog w.
Proof. unfold resolve. destruct (promise w); reflexivity. Qed.

Lemma log_reject w m : progressLog (reject w m) = progressLog w.
Proof. unfold reject. destruct (promise w); reflexivity. Qed.

Lemma log_disarm_opt w h : progressLog (disarm_opt w h) = progressLog w.
Proof. destruct h; reflexivity. Qed.

Lemma log_on_exit w code sg :
  progressLog (on_exit w code sg) = progressLog w.
Proof.
  unfold on_exit, exit_handler_2, exit_handler_1.
  rewrite log_cleanup.
  destruct (negb (is_zero code) || some_signal sg).
  - rewrite log_reject. cbn [progressLog with_sess].
    rewrite log_disarm_opt, log_resolve, log_cleanup.
    cbn [progressLog with_sess]. apply log_disarm_opt.
  - rewrite log_resolve. cbn [progressLog with_sess].
    rewrite log_disarm_opt, log_resolve, log_cleanup.
    cbn [progressLog with_sess]. apply log_disarm_opt.
Qed.

Lemma log_take_timer w t : progressLog (take_timer w t) = progressLog w.
Proof.
  destruct (take_timer_frame w t) as [_ [He _]].
  apply env_of_fields in He. tauto.
Qed.

Lemma log_quiet_complete_fired w :
  progressLog (quiet_complete_fired w) = progressLog w.
Proof.
  unfold quiet_complete_fired.
  destruct (negb (is_terminal (status (sess (count_quiet_fire w)))));
    [rewrite log_disarm_opt|]; reflexivity.
Qed.

Lemma log_timeout_fired w : progressLog (timeout_fired w) = progressLog w.
Proof.
  unfold timeout_fired.
  destruct (status_eqb (status (sess w)) Running
            || status_eqb (status (sess w)) Waiting); reflexivity.
Qed.

Lemma log_agrees_ext w w' :
  status (sess w') = status (sess w) ->
  filter is_waiting_msg (progressLog w')
  = filter is_waiting_msg (progressLog w) ->
  filter is_stuck_msg (progressLog w')
  = filter is_stuck_msg (progressLog w) ->
  log_agrees w -> log_agrees w'.
Proof.
  unfold log_agrees, count_msgs. intros -> -> ->. auto.
Qed.

Lemma log_agrees_final w w' :
  is_terminal (status (sess w')) = true ->
  progressLog w' = progressLog w ->
  log_agrees w -> log_agrees w'.
Proof.
  unfold log_agrees, count_msgs. intros Ht ->.
  destruct (status (sess w')); try discriminate Ht;
    destruct (status (sess w)); lia.
Qed.

Lemma idle_poll_log_agrees a b w :
  log_agrees w -> log_agrees (idle_poll_fired a b w).
Proof.
  unfold log_agrees, count_msgs, idle_poll_fired.
  destruct (status (sess w)) eqn:Es;
    destruct (now w - lastByteAt (sess w) >? a);
    destruct (now w - lastByteAt (sess w) >? b);
    cbn [sess with_progress with_sess status set_status status_eqb
         andb orb progressLog];
    rewrite ?Es;
    cbn [sess with_progress with_sess status set_status status_eqb
         andb orb progressLog];
    rewrite ?Es, ?filter_app, ?length_app;
    cbn [filter is_waiting_msg is_stuck_msg length app];
    rewrite ?length_app; cbn [length]; lia.
Qed.

Lemma server_step_log_agrees w e w' :
  Server.step w e = Some w' -> log_agrees w -> log_agrees w'.
Proof.
  intros H Hw. apply server_step_cases in H.
  destruct H as [[chunk [_ ->]] | [[code [sg [_ ->]]] | [[dt [_ [_ ->]]] |
    [h [t [_ [_ [[_ ->] | [[a [b [_ ->]]] | [[_ ->] | [_ ->]]]]]]]]]]].
  - apply (log_agrees_ext w); [| | |exact Hw];
      unfold on_data; cbn [sess progressLog with_progress].
    + apply status_onChunk.
    + rewrite filter_app, log_onChunk. cbn. apply app_nil_r.
    + rewrite filter_app, log_onChunk. cbn. apply app_nil_r.
  - apply (log_agrees_final w); [| apply log_on_exit | exact Hw].
    rewrite status_on_exit. apply exit_status_terminal.
  - exact Hw.
  - destruct (is_terminal (status (sess w))) eqn:Et.
    + apply (log_agrees_ext w); [| | |exact Hw];
        rewrite ?log_quiet_complete_fired, ?log_take_timer; try reflexivity.
      rewrite sess_quiet_complete_fired, session_after_take_timer, Et.
      reflexivity.
    + apply (log_agrees_final w);
        [| rewrite log_quiet_complete_fired; apply log_take_timer
         | exact Hw].
      rewrite sess_quiet_complete_fired, session_after_take_timer, Et.
      reflexivity.
  - apply idle_poll_log_agrees.
    apply (log_agrees_ext w); [| | |exact Hw];
      rewrite ?session_after_take_timer, ?log_take_timer; reflexivity.
  - destruct (running_or_waiting (status (sess w))) eqn:Er.
    + apply (log_agrees_final w);
        [| rewrite log_timeout_fired; apply log_take_timer | exact Hw].
      rewrite sess_timeout_fired, session_after_take_timer, Er. reflexivity.
    + apply (log_agrees_ext w); [| | |exact Hw];
        rewrite ?log_timeout_fired, ?log_take_timer; try reflexivity.
      rewrite sess_timeout_fired, session_after_take_timer, Er. reflexivity.
  - apply (log_agrees_ext w); [| | |exact Hw];
      cbn [sess progressLog with_stored];
      rewrite ?session_after_take_timer, ?log_take_timer; reflexivity.
Qed.

(** X8. In a terminal.run call the idle poll sends the waiting message
    at most once and the possibly-stuck message at most once, and the
    messages sent agree with the status: none while running, exactly
    one waiting message while waiting, exactly one stuck message while
    possibly stuck. *)
Theorem idle_messages_sent_once (input : RunCommandOptions)
  (sid : string) (t0 : Z) (a : Adapter) (w0 w : World)
  (es : list Server.Event) :
  invoke input sid t0 (Ok a) = InvokeStarted w0 ->
  Server.run w0 es = Some w ->
  log_agrees w /\
  (count_msgs is_waiting_msg w <= 1)%nat /\
  (count_msgs is_stuck_msg w <= 1)%nat.
Proof.
  intros Hi Hrun.
  assert (H : log_agrees w).
  { revert Hrun. apply (server_run_invariant log_agrees).
    - intros x e x' Hx Hs. exact (server_step_log_agrees x e x' Hs Hx).
    - destruct (invoke_world _ _ _ _ _ Hi)
        as [Hs [_ [_ [_ [_ [Hl _]]]]]].
      unfold log_agrees, count_msgs. rewrite Hs, Hl. cbn. auto. }
  split; [exact H|]. unfold log_agrees in H. cbv zeta in H.
  destruct (status (sess w)); lia.
Qed.

Lemma idle_messages_sent_once_witness :
  progressLog stuck_world
  = [Received 1; IdleWaiting 10; NoOutputStuck 45] /\
  count_msgs is_waiting_msg stuck_world = 1%nat /\
  (count_msgs is_stuck_msg stuck_world <= 1)%nat.
Proof.
  destruct (idle_messages_sent_once (mkRun (Some 0) None None None None)
              "s1" 0 ChildProcessAdapter
              (started (mkRun (Some 0) None None None None)
                 ChildProcessAdapter) stuck_world
              [Data (lit "x"); Server.Advance 11000; Server.Fire 0%nat;
               Server.Advance 35000; Server.Fire 0%nat])
    as [_ [_ H3]].
  - vm_compute. reflexivity.
  - vm_compute. reflexivity.
  - split; [reflexivity|]. split; [reflexivity | exact H3].
Defined.

End StatusFacts.

(* ===================================================================== *)
(** ** Where the timers of a call come from *)
(* ===================================================================== *)

Module TimerRuns.
Import JS Regex Ansi Prompts Host Sessions Server Props Samples RunProps.
Import Frames TimerFacts ServerFacts RunFacts Steps.

Lemma NoDup_tid_inj (l : list Timer) a b :
  NoDup (map tid l) -> In a l -> In b l -> tid a = tid b -> a = b.
Proof.
  induction l as [|x l IH]; simpl; intros Hnd Ha Hb E; [contradiction|].
  inversion Hnd as [|? ? Hx Hl]; subst.
  destruct Ha as [<-|Ha]; destruct Hb as [<-|Hb]; auto.
  - exfalso. apply Hx. rewrite E. apply in_map. exact Hb.
  - exfalso. apply Hx. rewrite <- E. apply in_map. exact Ha.
Qed.

(** A timer of the table after [take_timer] was there before, under
    another identifier than the one taken, or it is the repeating timer
    itself, armed again. *)
Lemma take_timer_in w t u :
  timers_ok w -> In t (timers w) -> In u (timers (take_timer w t)) ->
  (In u (timers w) /\ tid u <> tid t) \/
  (is_idle_poll t = true /\ kind u = kind t /\ tid u = tid t).
Proof.
  intros [Hnd _] Ht. unfold take_timer, is_idle_poll.
  destruct (kind t) as [|a b| |] eqn:Ek;
    try (intros Hu; apply in_disarm in Hu; left; exact Hu).
  cbn [timers with_timers]. intros Hu. apply in_map_iff in Hu.
  destruct Hu as [v [Hv Hin]].
  destruct (Nat.eqb (tid v) (tid t)) eqn:E.
  - apply Nat.eqb_eq in E. right.
    assert (v = t) by (eapply NoDup_tid_inj; eauto). subst v u.
    cbn [kind tid]. auto.
  - apply Nat.eqb_neq in E. subst u. left. auto.
Qed.

Lemma in_disarm_opt w h u :
  In u (timers (disarm_opt w h)) -> In u (timers w).
Proof.
  destruct h as [h|]; [|auto]. intros H. apply in_disarm in H. tauto.
Qed.

Lemma cleanup_in w u :
  In u (timers (cleanup w)) ->
  In u (timers w) \/ u = mkTimer (nextTimer w) StoreRemove (now w + 60000).
Proof.
  unfold cleanup.
  destruct (quietTimer (sess w)) eqn:Eq; destruct (idleTimer (sess w)) eqn:Ei;
    cbn [sess with_sess disarm with_timers idleTimer set_quietTimer arm snd
         timers nextTimer now];
    rewrite ?Ei; cbn [sess with_sess disarm with_timers arm snd timers
                      nextTimer now];
    intros H; apply in_app_or in H; destruct H as [H|[<-|[]]];
    try (right; reflexivity); left;
    repeat (apply filter_In in H; destruct H as [H _]); exact H.
Qed.

Lemma now_cleanup w : now (cleanup w) = now w.
Proof.
  destruct (cleanup_frame w) as [_ [He _]]. apply env_of_fields in He. tauto.
Qed.

Lemma now_resolve w r : now (resolve w r) = now w.
Proof. unfold resolve. destruct (promise w); reflexivity. Qed.

Lemma now_reject w m : now (reject w m) = now w.
Proof. unfold reject. destruct (promise w); reflexivity. Qed.

Lemma now_disarm_opt w h : now (disarm_opt w h) = now w.
Proof. destruct h; reflexivity. Qed.

Lemma timers_resolve w r : timers (resolve w r) = timers w.
Proof. apply resolve_frame. Qed.

Lemma timers_reject w m : timers (reject w m) = timers w.
Proof. apply reject_frame. Qed.

Lemma exit_handler_1_in w code sg u :
  In u (timers (exit_handler_1 w code sg)) ->
  In u (timers w) \/ (kind u = StoreRemove /\ due u = now w + 60000).
Proof.
  unfold exit_handler_1. rewrite timers_resolve. intros H.
  apply cleanup_in in H. cbn [timers nextTimer now with_sess] in H.
  rewrite now_disarm_opt in H.
  destruct H as [H| ->]; [left; eapply in_disarm_opt; exact H|].
  right. split; reflexivity.
Qed.

Lemma now_exit_handler_1 w code sg : now (exit_handler_1 w code sg) = now w.
Proof.
  unfold exit_handler_1. rewrite now_resolve, now_cleanup.
  cbn [now with_sess]. apply now_disarm_opt.
Qed.

Lemma exit_handler_2_in w code sg u :
  In u (timers (exit_handler_2 w code sg)) ->
  In u (timers w) \/ (kind u = StoreRemove /\ due u = now w + 60000).
Proof.
  unfold exit_handler_2. intros H. apply cleanup_in in H.
  destruct (negb (is_zero code) || some_signal sg).
  - rewrite timers_reject, now_reject in H.
    cbn [timers nextTimer now with_sess] in H. rewrite now_disarm_opt in H.
    destruct H as [H| ->]; [left; eapply in_disarm_opt; exact H|].
    right. split; reflexivity.
  - rewrite timers_resolve, now_resolve in H.
    cbn [timers nextTimer now with_sess] in H. rewrite now_disarm_opt in H.
    destruct H as [H| ->]; [left; eapply in_disarm_opt; exact H|].
    right. split; reflexivity.
Qed.

Lemma on_exit_in w code sg u :
  In u (timers (on_exit w code sg)) ->
  In u (timers w) \/ (kind u = StoreRemove /\ due u = now w + 60000).
Proof.
  unfold on_exit. intros H. apply exit_handler_2_in in H.
  rewrite now_exit_handler_1 in H.
  destruct H as [H|H]; [|right; exact H].
  apply exit_handler_1_in in H. exact H.
Qed.

Lemma scheduleQuietComplete_in w d u :
  In u (timers (scheduleQuietComplete w d)) ->
  In u (timers w) \/ kind u = QuietComplete.
Proof.
  destruct (scheduleQuietComplete_timers w d) as [-> _]. intros H.
  apply in_app_or in H. destruct H as [H|[<-|[]]].
  - left. eapply in_disarm_opt. exact H.
  - right. reflexivity.
Qed.

Lemma classify_line_in w line u :
  In u (timers (classify_line w line)) ->
  In u (timers w) \/ kind u = QuietComplete.
Proof.
  unfold classify_line.
  destruct (nonempty line && isLikelySpinnerFrame (lastLine w) line);
    [auto|].
  set (w2 := match promptRe (sess (with_lastLine w line)) with
             | Some _ => with_lastLine w line
             | None => _
             end).
  assert (E : timers w2 = timers w).
  { unfold w2. destruct (promptRe (sess (with_lastLine w line)));
      reflexivity. }
  destruct (promptRe (sess w2)) as [r|]; [|rewrite E; auto].
  destruct (test r line); [|rewrite E; auto].
  intros H. apply scheduleQuietComplete_in in H. rewrite E in H. exact H.
Qed.

Lemma classify_lines_in lines : forall w u,
  In u (timers (fold_left classify_line lines w)) ->
  In u (timers w) \/ kind u = QuietComplete.
Proof.
  induction lines as [|l lines IH]; intros w u; cbn [fold_left]; [auto|].
  intros H. apply IH in H. destruct H as [H|H]; [|auto].
  apply classify_line_in in H. exact H.
Qed.

Lemma onChunk_in w text u :
  In u (timers (onChunk w text)) ->
  In u (timers w) \/ kind u = QuietComplete.
Proof. unfold onChunk. cbn [timers with_sess]. apply classify_lines_in. Qed.

Lemma quiet_complete_fired_in w u :
  In u (timers (quiet_complete_fired w)) -> In u (timers w).
Proof.
  unfold quiet_complete_fired.
  destruct (negb (is_terminal (status (sess (count_quiet_fire w)))));
    [|auto].
  intros H. apply in_disarm_opt in H. exact H.
Qed.

Lemma timers_timeout_fired w : timers (timeout_fired w) = timers w.
Proof.
  unfold timeout_fired.
  destruct (status_eqb (status (sess w)) Running
            || status_eqb (status (sess w)) Waiting); reflexivity.
Qed.

(** Every timer armed after an event was armed before it, or is a
    quiet timer, or the idle poll, or the removal an exit schedules
    60 s ahead. *)
Lemma server_step_in w e w' u :
  timers_ok w -> Server.step w e = Some w' -> In u (timers w') ->
  In u (timers w) \/ kind u = QuietComplete \/ is_idle_poll u = true \/
  (kind u = StoreRemove /\ due u = now w + 60000 /\
   exists code sg, e = ProcExit code sg).
Proof.
  intros Hok H. apply server_step_cases in H.
  destruct H as [[chunk [_ ->]] | [[code [sg [He ->]]] | [[dt [_ [_ ->]]] |
    [h [t [_ [Hd [[_ ->] | [[a [b [_ ->]]] | [[_ ->] | [_ ->]]]]]]]]]]];
    intros Hu.
  - unfold on_data in Hu. cbn [timers with_progress] in Hu.
    apply onChunk_in in Hu. tauto.
  - apply on_exit_in in Hu. destruct Hu as [Hu|[H1 H2]]; [auto|].
    right. right. right. eauto.
  - auto.
  - apply quiet_complete_fired_in in Hu.
    apply in_due_timer in Hd. destruct Hd as [Ht _].
    apply (take_timer_in w t u Hok Ht) in Hu.
    destruct Hu as [[Hu _]|[Hi [Hk _]]]; [auto|].
    right. right. left. unfold is_idle_poll in *. rewrite Hk. exact Hi.
  - destruct (idle_poll_frame a b (take_timer w t)) as [E _].
    rewrite E in Hu.
    apply in_due_timer in Hd. destruct Hd as [Ht _].
    apply (take_timer_in w t u Hok Ht) in Hu.
    destruct Hu as [[Hu _]|[Hi [Hk _]]]; [auto|].
    right. right. left. unfold is_idle_poll in *. rewrite Hk. exact Hi.
  - rewrite timers_timeout_fired in Hu.
    apply in_due_timer in Hd. destruct Hd as [Ht _].
    apply (take_timer_in w t u Hok Ht) in Hu.
    destruct Hu as [[Hu _]|[Hi [Hk _]]]; [auto|].
    right. right. left. unfold is_idle_poll in *. rewrite Hk. exact Hi.
  - cbn [timers with_stored] in Hu.
    apply in_due_timer in Hd. destruct Hd as [Ht _].
    apply (take_timer_in w t u Hok Ht) in Hu.
    destruct Hu as [[Hu _]|[Hi [Hk _]]]; [auto|].
    right. right. left. unfold is_idle_poll in *. rewrite Hk. exact Hi.
Qed.

Lemma server_step_now w e w' :
  Server.step w e = Some w' -> now w <= now w'.
Proof.
  intros H. apply server_step_cases in H.
  destruct H as [[chunk [_ ->]] | [[code [sg [_ ->]]] | [[dt [_ [Hdt ->]]] |
    [h [t [_ [_ [[_ ->] | [[a [b [_ ->]]] | [[_ ->] | [_ ->]]]]]]]]]]].
  - unfold on_data. cbn [now with_progress].
    destruct (classify_lines_frame (split_lines chunk) w) as [_ [He _]].
    apply env_of_fields in He. unfold onChunk. cbn [now with_sess].
    destruct He as [_ [-> _]]. lia.
  - unfold on_exit, exit_handler_2. rewrite now_cleanup.
    destruct (negb (is_zero code) || some_signal sg);
      rewrite ?now_reject, ?now_resolve; cbn [now with_sess];
      rewrite now_disarm_opt, now_exit_handler_1; lia.
  - cbn [now with_now]. lia.
  - unfold quiet_complete_fired.
    destruct (negb _); rewrite ?now_disarm_opt;
      cbn [now count_completion with_sess count_quiet_fire];
      destruct (take_timer_frame w t) as [_ [He _]];
      apply env_of_fields in He; destruct He as [_ [-> _]]; lia.
  - destruct (idle_poll_frame a b (take_timer w t))
      as [_ [_ [_ [_ [_ [-> _]]]]]].
    destruct (take_timer_frame w t) as [_ [He _]].
    apply env_of_fields in He. destruct He as [_ [-> _]]. lia.
  - unfold timeout_fired.
    destruct (_ || _); cbn [now with_call with_sess];
      destruct (take_timer_frame w t) as [_ [He _]];
      apply env_of_fields in He; destruct He as [_ [-> _]]; lia.
  - cbn [now with_stored].
    destruct (take_timer_frame w t) as [_ [He _]].
    apply env_of_fields in He. destruct He as [_ [-> _]]. lia.
Qed.

Lemma calls_take_timer' w t : calls (take_timer w t) = calls w.
Proof.
  destruct (take_timer_frame w t) as [_ [He _]].
  apply env_of_fields in He. tauto.
Qed.

Lemma stored_take_timer w t : stored (take_timer w t) = stored w.
Proof.
  destruct (take_timer_frame w t) as [_ [He _]].
  apply env_of_fields in He. tauto.
Qed.

(** The only adapter call an event of the call can add is the kill of
    the timeout callback. *)
Lemma server_step_calls w e w' :
  Server.step w e = Some w' ->
  calls w' = calls w \/
  (exists h t, due_timer w h = Some t /\ kind t = CommandTimeout /\
               w' = timeout_fired (take_timer w t) /\
               calls w' = calls w ++ [kill_sigterm]).
Proof.
  intros H. apply server_step_cases in H.
  destruct H as [[chunk [_ ->]] | [[code [sg [_ ->]]] | [[dt [_ [_ ->]]] |
    [h [t [He [Hd [[_ ->] | [[a [b [_ ->]]] | [[Hk ->] | [_ ->]]]]]]]]]]].
  - left. unfold on_data. cbn [calls with_progress]. apply onChunk_frame.
  - left. apply on_exit_effect.
  - left. reflexivity.
  - left. destruct (quiet_complete_fired_frame (take_timer w t))
      as [_ [_ [_ [_ [-> _]]]]]. apply calls_take_timer'.
  - left. destruct (idle_poll_frame a b (take_timer w t))
      as [_ [_ [_ [_ [_ [_ [-> _]]]]]]]. apply calls_take_timer'.
  - destruct (status_eqb (status (sess (take_timer w t))) Running
              || status_eqb (status (sess (take_timer w t))) Waiting) eqn:E.
    + right. exists h, t. split; [exact Hd|]. split; [exact Hk|].
      split; [reflexivity|].
      unfold timeout_fired. rewrite E.
      cbn [calls with_call with_sess]. rewrite calls_take_timer'.
      reflexivity.
    + left. unfold timeout_fired. rewrite E. apply calls_take_timer'.
  - left. cbn [calls with_stored]. apply calls_take_timer'.
Qed.

(** Only the removal timer takes the session out of the store. *)
Lemma server_step_stored w e w' :
  Server.step w e = Some w' ->
  stored w' = stored w \/
  (exists h t, e = Server.Fire h /\ due_timer w h = Some t /\
               kind t = StoreRemove).
Proof.
  intros H. apply server_step_cases in H.
  destruct H as [[chunk [_ ->]] | [[code [sg [_ ->]]] | [[dt [_ [_ ->]]] |
    [h [t [He [Hd [[_ ->] | [[a [b [_ ->]]] | [[_ ->] | [Hk ->]]]]]]]]]]].
  - left. unfold on_data, onChunk. cbn [stored with_progress with_sess].
    destruct (classify_lines_frame (split_lines chunk) w) as [_ [E _]].
    apply env_of_fields in E. tauto.
  - left. unfold on_exit, exit_handler_2, exit_handler_1.
    repeat match goal with
    | |- context [stored (cleanup ?x)] =>
        let E := fresh in
        destruct (cleanup_frame x) as [_ [E _]]; apply env_of_fields in E;
        destruct E as [_ [_ [_ [_ [_ [_ [E _]]]]]]]; rewrite E; clear E
    end.
    assert (R1 : forall x r, stored (resolve x r) = stored x)
      by (intros x r; unfold resolve; destruct (promise x); reflexivity).
    assert (R2 : forall x m, stored (reject x m) = stored x)
      by (intros x m; unfold reject; destruct (promise x); reflexivity).
    assert (R3 : forall x o, stored (disarm_opt x o) = stored x)
      by (intros x [o|]; reflexivity).
    destruct (negb (is_zero code) || some_signal sg);
      rewrite ?R1, ?R2; cbn [stored with_sess]; rewrite R3, R1.
    + destruct (cleanup_frame
                  (with_sess (disarm_opt w (timeoutId w))
                     (set_exit
                        (set_status (sess (disarm_opt w (timeoutId w)))
                           (if is_zero code then Completed else Error))
                        code sg))) as [_ [E _]].
      apply env_of_fields in E.
      destruct E as [_ [_ [_ [_ [_ [_ [E _]]]]]]]. rewrite E.
      cbn [stored with_sess]. apply R3.
    + destruct (cleanup_frame
                  (with_sess (disarm_opt w (timeoutId w))
                     (set_exit
                        (set_status (sess (disarm_opt w (timeoutId w)))
                           (if is_zero code then Completed else Error))
                        code sg))) as [_ [E _]].
      apply env_of_fields in E.
      destruct E as [_ [_ [_ [_ [_ [_ [E _]]]]]]]. rewrite E.
      cbn [stored with_sess]. apply R3.
  - left. reflexivity.
  - left. unfold quiet_complete_fired.
    destruct (negb _); [destruct (idleTimer _)|];
      cbn [stored disarm_opt disarm with_timers count_completion with_sess
           count_quiet_fire]; apply stored_take_timer.
  - left. unfold idle_poll_fired.
    repeat match goal with |- context [if ?c then _ else _] =>
      destruct c end;
      cbn [stored with_progress with_sess]; apply stored_take_timer.
  - left. unfold timeout_fired. destruct (_ || _);
      cbn [stored with_call with_sess]; apply stored_take_timer.
  - right. eauto.
Qed.

(** *** One timer of each kind *)

Lemma filter_single (p : Timer -> bool) (h : nat) (l : list Timer) :
  NoDup (map tid l) ->
  (forall t, In t l -> p t = true -> tid t = h) ->
  (length (filter p l) <= 1)%nat.
Proof.
  induction l as [|x l IH]; intros Hnd Hall; [simpl; lia|].
  inversion Hnd as [|? ? Hx Hl]; subst. cbn [filter].
  destruct (p x) eqn:Ex.
  - assert (E : filter p l = []).
    { destruct (filter p l) as [|y r] eqn:Ef; [reflexivity|].
      exfalso. assert (Hy : In y (filter p l)) by (rewrite Ef; left; auto).
      apply filter_In in Hy. destruct Hy as [Hy Hpy].
      apply Hx. rewrite (Hall x (or_introl eq_refl) Ex).
      rewrite <- (Hall y (or_intror Hy) Hpy). apply in_map. exact Hy. }
    rewrite E. simpl. lia.
  - apply IH; [exact Hl|]. intros t Ht. apply Hall. right. exact Ht.
Qed.

Lemma timers_ok_single w :
  timers_ok w ->
  (length (filter is_quiet (timers w)) <= 1)%nat /\
  (length (filter is_idle_poll (timers w)) <= 1)%nat /\
  (length (filter is_command_timeout (timers w)) <= 1)%nat.
Proof.
  intros [Hnd Hall]. rewrite Forall_forall in Hall.
  split; [|split].
  - destruct (quietTimer (sess w)) as [h|] eqn:E.
    + apply (filter_single _ h); [exact Hnd|].
      intros t Ht Hp. destruct (Hall t Ht) as [_ Ho].
      unfold owned, is_quiet in *. destruct (kind t); try discriminate.
      congruence.
    + apply (filter_single _ 0%nat); [exact Hnd|].
      intros t Ht Hp. destruct (Hall t Ht) as [_ Ho].
      unfold owned, is_quiet in *. destruct (kind t); try discriminate.
      congruence.
  - destruct (idleTimer (sess w)) as [h|] eqn:E.
    + apply (filter_single _ h); [exact Hnd|].
      intros t Ht Hp. destruct (Hall t Ht) as [_ Ho].
      unfold owned, is_idle_poll in *. destruct (kind t); try discriminate.
      congruence.
    + apply (filter_single _ 0%nat); [exact Hnd|].
      intros t Ht Hp. destruct (Hall t Ht) as [_ Ho].
      unfold owned, is_idle_poll in *. destruct (kind t); try discriminate.
      congruence.
  - destruct (timeoutId w) as [h|] eqn:E.
    + apply (filter_single _ h); [exact Hnd|].
      intros t Ht Hp. destruct (Hall t Ht) as [_ Ho].
      unfold owned, is_command_timeout in *.
      destruct (kind t); try discriminate. congruence.
    + apply (filter_single _ 0%nat); [exact Hnd|].
      intros t Ht Hp. destruct (Hall t Ht) as [_ Ho].
      unfold owned, is_command_timeout in *.
      destruct (kind t); try discriminate. congruence.
Qed.

(** X22. At every moment of a terminal.run call at most one quiet
    timer, at most one idle poll and at most one timeout timer are
    armed: arming a timer again always cancels the one armed before,
    so no callback of an abandoned timer can run. *)
Theorem one_timer_of_each_kind (input : RunCommandOptions)
  (sid : string) (t0 : Z) (a : Adapter) (w0 w : World)
  (es : list Server.Event) :
  invoke input sid t0 (Ok a) = InvokeStarted w0 ->
  Server.run w0 es = Some w ->
  (length (filter is_quiet (timers w)) <= 1)%nat /\
  (length (filter is_idle_poll (timers w)) <= 1)%nat /\
  (length (filter is_command_timeout (timers w)) <= 1)%nat.
Proof.
  intros Hi Hrun. apply timers_ok_single.
  destruct (invoke_started input sid t0 a) as [w0' [Hi' [Hok _]]].
  rewrite Hi in Hi'. injection Hi' as <-.
  exact (server_run_ok es w0 w Hok Hrun).
Qed.

Lemma one_timer_of_each_kind_witness :
  let w := after (started default_input ChildProcessAdapter)
             [Data (lit "a$ "); Server.Advance 100; Data (lit "b$ ")] in
  filter is_quiet (timers w)
  = [mkTimer 3 QuietComplete 400] /\
  (length (filter is_idle_poll (timers w)) <= 1)%nat.
Proof.
  destruct (one_timer_of_each_kind default_input "s1" 0 ChildProcessAdapter
              (started default_input ChildProcessAdapter)
              (after (started default_input ChildProcessAdapter)
                 [Data (lit "a$ "); Server.Advance 100; Data (lit "b$ ")])
              [Data (lit "a$ "); Server.Advance 100; Data (lit "b$ ")])
    as [_ [H _]].
  - vm_compute. reflexivity.
  - vm_compute. reflexivity.
  - split; [vm_compute; reflexivity | exact H].
Defined.

(** *** The kill of the timeout *)

Lemma kill_inv_step D tmo w e w' :
  timers_ok w -> Server.step w e = Some w' ->
  kill_inv D tmo w -> kill_inv D tmo w'.
Proof.
  intros Hok Hs Hinv.
  pose proof (server_step_now w e w' Hs) as Hnow.
  assert (Hold : forall u, In u (timers w') -> kind u = CommandTimeout ->
                           In u (timers w)).
  { intros u Hu Hk. destruct (server_step_in w e w' u Hok Hs Hu)
      as [H | [H | [H | [H _]]]]; [exact H | | |]; try congruence.
    unfold is_idle_poll in H. rewrite Hk in H. discriminate. }
  destruct (server_step_calls w e w' Hs)
    as [Hc | [h [t [Hd [Hk [Hw' Hc]]]]]].
  - destruct Hinv as [[C T] | [C [P [N T]]]].
    + left. split; [congruence|]. intros u Hu Hku.
      apply T; [apply Hold|]; assumption.
    + right. split; [congruence|]. split; [exact P|]. split; [lia|].
      intros u Hu Hku. apply (T u); [apply Hold|]; assumption.
  - apply in_due_timer in Hd. destruct Hd as [Ht [_ Hdue]].
    destruct Hinv as [[C T] | [C [P [N T]]]].
    + destruct (T t Ht Hk) as [HD Hpos].
      right. split; [rewrite Hc, C; reflexivity|].
      split; [exact Hpos|]. split; [lia|].
      intros u Hu Hku. subst w'. rewrite timers_timeout_fired in Hu.
      apply (take_timer_in w t u Hok Ht) in Hu.
      destruct Hu as [[Hu Hne] | [Hi _]].
      * destruct Hok as [_ Hall]. rewrite Forall_forall in Hall.
        destruct (Hall u Hu) as [_ Ou]. destruct (Hall t Ht) as [_ Ot].
        unfold owned in Ou, Ot. rewrite Hku in Ou. rewrite Hk in Ot.
        congruence.
      * unfold is_idle_poll in Hi. rewrite Hk in Hi. discriminate.
    + exfalso. exact (T t Ht Hk).
Qed.

(** X9. A terminal.run call reaches the adapter at most once, with
    [kill('SIGTERM')]: never when the timeout is not positive, and not
    before the (default 30 s) timeout has elapsed since the call
    started. *)
Theorem run_kills_at_most_once (input : RunCommandOptions)
  (sid : string) (t0 : Z) (a : Adapter) (w0 w : World)
  (es : list Server.Event) :
  invoke input sid t0 (Ok a) = InvokeStarted w0 ->
  Server.run w0 es = Some w ->
  let tmo := nullish (timeoutMs input) 30000 in
  calls w = [] \/
  (calls w = [kill_sigterm] /\ 0 < tmo /\
   t0 + timer_delay tmo <= now w).
Proof.
  intros Hi Hrun tmo.
  assert (H : timers_ok w /\ kill_inv (t0 + timer_delay tmo) tmo w).
  { revert Hrun.
    apply (server_run_invariant
             (fun x => timers_ok x /\
                       kill_inv (t0 + timer_delay tmo) tmo x)).
    - intros x e x' [Hok Hk] Hs. split.
      + exact (server_step_ok x e x' Hok Hs).
      + exact (kill_inv_step _ _ x e x' Hok Hs Hk).
    - split.
      + destruct (invoke_started input sid t0 a) as [w0' [Hi' [Hok _]]].
        rewrite Hi in Hi'. injection Hi' as <-. exact Hok.
      + destruct (invoke_world _ _ _ _ _ Hi)
          as [_ [Ht [_ [_ [Hc _]]]]].
        left. split; [exact Hc|]. intros u Hu Hk. cbv zeta in Ht.
        rewrite Ht in Hu. fold tmo in Hu.
        destruct Hu as [<-|Hu]; [discriminate Hk|].
        destruct (tmo >? 0) eqn:E; [|contradiction].
        destruct Hu as [<-|[]]. split; [reflexivity|].
        apply Z.gtb_lt in E. lia. }
  destruct H as [_ [[C _] | [C [P [N _]]]]]; auto.
Qed.

Lemma run_kills_at_most_once_witness :
  let w := after (started (mkRun (Some 5000) None None None None)
                    ChildProcessAdapter)
             [Server.Advance 5000; Server.Fire 1%nat] in
  calls w = [kill_sigterm] /\ 5000 <= now w.
Proof.
  destruct (run_kills_at_most_once (mkRun (Some 5000) None None None None)
              "s1" 0 ChildProcessAdapter
              (started (mkRun (Some 5000) None None None None)
                 ChildProcessAdapter)
              (after (started (mkRun (Some 5000) None None None None)
                        ChildProcessAdapter)
                 [Server.Advance 5000; Server.Fire 1%nat])
              [Server.Advance 5000; Server.Fire 1%nat])
    as [H | [H1 [_ H3]]].
  - vm_compute. reflexivity.
  - vm_compute. reflexivity.
  - vm_compute in H. discriminate H.
  - split; [exact H1 | exact H3].
Defined.

(** *** The 60 s a finished session stays in the store *)

Lemma now_on_exit w code sg : now (on_exit w code sg) = now w.
Proof.
  unfold on_exit, exit_handler_2. rewrite now_cleanup.
  destruct (negb (is_zero code) || some_signal sg);
    rewrite ?now_reject, ?now_resolve; cbn [now with_sess];
    rewrite now_disarm_opt; apply now_exit_handler_1.
Qed.

Lemma kept_step w e w' :
  timers_ok w -> Server.step w e = Some w' -> not_exit e ->
  kept w -> kept w'.
Proof.
  intros Hok Hs Hne [Hst Hno]. split.
  - destruct (server_step_stored w e w' Hs) as [-> | [h [t [_ [Hd Hk]]]]];
      [exact Hst|].
    apply in_due_timer in Hd. destruct Hd as [Ht _].
    exfalso. exact (Hno t Ht Hk).
  - intros u Hu Hk.
    destruct (server_step_in w e w' u Hok Hs Hu)
      as [H | [H | [H | [_ [_ [code [sg ->]]]]]]].
    + exact (Hno u H Hk).
    + congruence.
    + unfold is_idle_poll in H. rewrite Hk in H. discriminate.
    + exact Hne.
Qed.

Lemma grace_step T w e w' :
  timers_ok w -> Server.step w e = Some w' ->
  grace_inv T w -> grace_inv T w'.
Proof.
  intros Hok Hs [Hn [Hdue Hst]].
  pose proof (server_step_now w e w' Hs) as Hnow.
  split; [lia|]. split.
  - intros u Hu Hk.
    destruct (server_step_in w e w' u Hok Hs Hu)
      as [H | [H | [H | [_ [H _]]]]].
    + exact (Hdue u H Hk).
    + congruence.
    + unfold is_idle_poll in H. rewrite Hk in H. discriminate.
    + lia.
  - destruct (server_step_stored w e w' Hs) as [-> | [h [t [_ [Hd Hk]]]]].
    + destruct Hst; [left; assumption | right; lia].
    + apply in_due_timer in Hd. destruct Hd as [Ht [_ Hle]].
      right. specialize (Hdue t Ht Hk). lia.
Qed.

Lemma kept_then_exit w code sg :
  timers_ok w -> kept w -> grace_inv (now w + 60000) (on_exit w code sg).
Proof.
  intros Hok [Hst Hno]. split; [rewrite now_on_exit; lia|]. split.
  - intros u Hu Hk. apply on_exit_in in Hu.
    destruct Hu as [Hu | [_ ->]]; [|lia].
    exfalso. exact (Hno u Hu Hk).
  - left.
    assert (Hs : Server.step w (ProcExit code sg)
                 = Some (on_exit w code sg)) by reflexivity.
    destruct (server_step_stored _ _ _ Hs) as [-> | [h [t [E _]]]];
      [exact Hst | discriminate E].
Qed.

Lemma server_run_id es w w' :
  Server.run w es = Some w' -> id (sess w') = id (sess w).
Proof.
  apply (server_run_invariant (fun x => id (sess x) = id (sess w)));
    [|reflexivity].
  intros x e x' Hx Hs. rewrite <- Hx. apply (server_step_frame x e x' Hs).
Qed.

Lemma kept_run es : forall w w',
  timers_ok w -> Server.run w es = Some w' -> Forall not_exit es ->
  kept w -> timers_ok w' /\ kept w'.
Proof.
  induction es as [|e es IH]; intros w w' Hok; simpl.
  - intros H _ Hk. injection H as <-. auto.
  - destruct (Server.step w e) as [w1|] eqn:E; [|discriminate].
    intros Hrun Hall Hk. inversion Hall as [|? ? He Hes]; subst.
    apply (IH w1 w'); auto.
    + exact (server_step_ok w e w1 Hok E).
    + exact (kept_step w e w1 Hok E He Hk).
Qed.

Lemma grace_run T es : forall w w',
  timers_ok w -> Server.run w es = Some w' ->
  grace_inv T w -> grace_inv T w'.
Proof.
  induction es as [|e es IH]; intros w w' Hok; simpl.
  - intros H Hg. injection H as <-. auto.
  - destruct (Server.step w e) as [w1|] eqn:E; [|discriminate].
    intros Hrun Hg. apply (IH w1 w'); auto.
    + exact (server_step_ok w e w1 Hok E).
    + exact (grace_step T w e w1 Hok E Hg).
Qed.

Lemma store_get_own w : stored w = true ->
  store_get w (id (sess w)) = Some (sess w).
Proof.
  intros H. unfold store_get. rewrite H, String.eqb_refl. reflexivity.
Qed.

(** X10. The session of a terminal.run call is in the store from the
    start of the call until 60 s after the adapter reported exit:
    until then terminal.status and terminal.attach find it and report
    its current status, exit code and output. *)
Theorem session_found_until_grace_period_ends
  (input : RunCommandOptions) (sid : string) (t0 : Z) (a : Adapter)
  (w0 w1 : World) (es1 : list Server.Event) :
  invoke input sid t0 (Ok a) = InvokeStarted w0 ->
  Server.run w0 es1 = Some w1 -> Forall not_exit es1 ->
  Tools.status_invoke w1 sid
  = Ok (Tools.mkStatus (status (sess w1)) (exitCode (sess w1))
          (join (buf (sess w1)))) /\
  forall code sg es2 w2,
    Server.run (on_exit w1 code sg) es2 = Some w2 ->
    now w2 < now w1 + 60000 ->
    Tools.status_invoke w2 sid
    = Ok (Tools.mkStatus (status (sess w2)) (exitCode (sess w2))
            (join (buf (sess w2)))) /\
    Tools.attach_invoke w2 sid
    = Ok (Tools.mkAttach sid (join (buf (sess w2))) (status (sess w2))).
Proof.
  intros Hi Hrun Hne.
  destruct (invoke_started input sid t0 a)
    as [w0' [Hi' [Hok0 [_ [Hid0 _]]]]].
  rewrite Hi in Hi'. injection Hi' as <-.
  assert (Hk0 : kept w0).
  { destruct (invoke_world _ _ _ _ _ Hi)
      as [_ [Ht [_ [_ [_ [_ [Hst _]]]]]]].
    split; [exact Hst|]. intros u Hu Hk. cbv zeta in Ht. rewrite Ht in Hu.
    destruct Hu as [<-|Hu]; [discriminate Hk|].
    destruct (_ >? 0); [|contradiction].
    destruct Hu as [<-|[]]. discriminate Hk. }
  destruct (kept_run es1 w0 w1 Hok0 Hrun Hne Hk0) as [Hok1 Hk1].
  assert (Hid1 : id (sess w1) = sid)
    by (rewrite (server_run_id es1 w0 w1 Hrun); exact Hid0).
  split.
  - unfold Tools.status_invoke. rewrite <- Hid1.
    rewrite (store_get_own w1 (proj1 Hk1)). reflexivity.
  - intros code sg es2 w2 Hrun2 Hlt.
    pose proof (kept_then_exit w1 code sg Hok1 Hk1) as Hg.
    apply (grace_run _ es2 _ w2 (on_exit_ok w1 code sg Hok1) Hrun2) in Hg.
    destruct Hg as [_ [_ [Hst | Hge]]]; [|lia].
    assert (Hid2 : id (sess w2) = sid).
    { rewrite (server_run_id es2 _ w2 Hrun2).
      destruct (on_exit_effect w1 code sg) as [-> _]. exact Hid1. }
    unfold Tools.status_invoke, Tools.attach_invoke. rewrite <- Hid2.
    rewrite (store_get_own w2 Hst). split; reflexivity.
Qed.

Lemma session_found_until_grace_period_ends_witness :
  let w := after exited_world [Server.Advance 59999] in
  Tools.attach_invoke w "s1"
  = Ok (Tools.mkAttach "s1" (lit "hi") Completed) /\
  Tools.attach_invoke
    (after exited_world [Server.Advance 60000; Server.Fire 2%nat]) "s1"
  = Throws "Session not found".
Proof.
  destruct (session_found_until_grace_period_ends default_input "s1" 0
              ChildProcessAdapter
              (started default_input ChildProcessAdapter)
              (after (started default_input ChildProcessAdapter)
                 [Data (lit "hi"); Server.Advance 20])
              [Data (lit "hi"); Server.Advance 20])
    as [_ H].
  - vm_compute. reflexivity.
  - vm_compute. reflexivity.
  - repeat constructor.
  - destruct (H (Some 0) None [Server.Advance 59999]
                (after exited_world [Server.Advance 59999])) as [_ H2].
    + vm_compute. reflexivity.
    + vm_compute. reflexivity.
    + split; [exact H2 | vm_compute; reflexivity].
Defined.

End TimerRuns.

(* ===================================================================== *)
(** ** The quiet-complete timer during a terminal.run call *)
(* ===================================================================== *)

Module QuietRuns.
Import JS Regex Ansi Prompts Host Sessions Server Props Samples RunProps.
Import Frames TimerFacts ServerFacts RunFacts Steps StatusFacts TimerRuns.

Local Open Scope string_scope.

(** *** Counting the pending quiet timers *)




(** *** The two ghost counters *)












(** *** No event but output arms a quiet timer *)




(** *** At most one transition to completed *)




(** *** Timer identifiers are never used twice *)
























End QuietRuns.

(* ===================================================================== *)
(** ** What the exit of the process leaves behind *)
(* ===================================================================== *)

Module ExitFacts.
Import JS Regex Ansi Prompts Host Sessions Server Props Samples RunProps.
Import Frames TimerFacts ServerFacts RunFacts Steps.

Local Open Scope string_scope.

(** The session record after both exit callbacks. *)
Lemma sess_on_exit w code sg :
  sess (on_exit w code sg)
  = let s := set_idleTimer (set_quietTimer (sess w) None) None in
    let s2 := set_exit (set_status s (exit_status_2 code sg)) code sg in
    if negb (is_zero code) || some_signal sg
    then set_errorReason s2 (Some (exit_reason code sg))
    else s2.
Proof.
  unfold on_exit. rewrite sess_exit_handler_2, sess_exit_handler_1.
  cbv zeta. unfold exit_reason.
  destruct (negb (is_zero code) || some_signal sg); reflexivity.
Qed.

(** The fields the exit decides. *)
Lemma outcome_on_exit w code sg :
  status (sess (on_exit w code sg)) = exit_status_2 code sg /\
  exitCode (sess (on_exit w code sg)) = Some code /\
  exitSignal (sess (on_exit w code sg)) = Some sg /\
  errorReason (sess (on_exit w code sg))
  = (if negb (is_zero code) || some_signal sg
     then Some (exit_reason code sg) else errorReason (sess w)).
Proof.
  rewrite sess_on_exit. cbv zeta.
  destruct (negb (is_zero code) || some_signal sg); repeat split.
Qed.

Lemma outcome_onChunk w text :
  status (sess (onChunk w text)) = status (sess w) /\
  exitCode (sess (onChunk w text)) = exitCode (sess w) /\
  exitSignal (sess (onChunk w text)) = exitSignal (sess w) /\
  errorReason (sess (onChunk w text)) = errorReason (sess w).
Proof.
  unfold onChunk.
  cbn [sess with_sess status exitCode exitSignal errorReason
       set_lastByteAt set_totalBytes set_buf].
  destruct (classify_lines_frame (split_lines text) w) as [Hd _].
  apply data_of_fields in Hd. tauto.
Qed.

Lemma idle_poll_fired_final a b w :
  is_terminal (status (sess w)) = true -> idle_poll_fired a b w = w.
Proof.
  unfold idle_poll_fired. intros H.
  destruct (status (sess w)) eqn:E; try discriminate H;
    cbn [status_eqb andb orb]; rewrite E; reflexivity.
Qed.

Lemma timeout_fired_final w :
  is_terminal (status (sess w)) = true -> timeout_fired w = w.
Proof.
  unfold timeout_fired. intros H.
  destruct (status (sess w)); try discriminate H; reflexivity.
Qed.

(** After a final status, an event other than exit leaves the outcome
    of the session alone. *)
Lemma server_step_final w e w' :
  Server.step w e = Some w' -> not_exit e ->
  is_terminal (status (sess w)) = true ->
  status (sess w') = status (sess w) /\
  exitCode (sess w') = exitCode (sess w) /\
  exitSignal (sess w') = exitSignal (sess w) /\
  errorReason (sess w') = errorReason (sess w).
Proof.
  intros H Hne Ht. apply server_step_cases in H.
  destruct H as [[chunk [_ ->]] | [[code [sg [-> _]]] | [[dt [_ [_ ->]]] |
    [h [t [_ [_ [[_ ->] | [[a [b [_ ->]]] | [[_ ->] | [_ ->]]]]]]]]]]].
  - unfold on_data. cbn [sess with_progress]. apply outcome_onChunk.
  - contradiction.
  - repeat split.
  - rewrite sess_quiet_complete_fired, session_after_take_timer, Ht.
    repeat split.
  - rewrite idle_poll_fired_final
      by (rewrite session_after_take_timer; exact Ht).
    rewrite session_after_take_timer. repeat split.
  - rewrite timeout_fired_final
      by (rewrite session_after_take_timer; exact Ht).
    rewrite session_after_take_timer. repeat split.
  - cbn [sess with_stored]. rewrite session_after_take_timer. repeat split.
Qed.

Lemma server_run_final es : forall w w',
  Server.run w es = Some w' -> Forall not_exit es ->
  is_terminal (status (sess w)) = true ->
  status (sess w') = status (sess w) /\
  exitCode (sess w') = exitCode (sess w) /\
  exitSignal (sess w') = exitSignal (sess w) /\
  errorReason (sess w') = errorReason (sess w).
Proof.
  induction es as [|e es IH]; intros w w'; simpl.
  - intros H _ _. injection H as <-. repeat split.
  - destruct (Server.step w e) as [w1|] eqn:E; [|discriminate].
    intros Hrun Hall Ht. inversion Hall as [|? ? He Hes]; subst.
    destruct (server_step_final w e w1 E He Ht) as [A1 [A2 [A3 A4]]].
    destruct (IH w1 w' Hrun Hes) as [B1 [B2 [B3 B4]]];
      [rewrite A1; exact Ht|].
    rewrite B1, B2, B3, B4. auto.
Qed.

(** X11. The exit of the process alone decides how the session ends,
    whatever its status was (completed by the quiet timer, error by the
    timeout): the status is completed exactly for exit code 0 without a
    signal and error otherwise, the error reason of an error is the
    exit text (a timeout's reason is overwritten), and no later output
    or timer changes status, exit code, signal or reason. *)
Theorem exit_decides_final_state (w w' : World) (code : option Z)
  (sg : option string) (es : list Server.Event) :
  Server.run (on_exit w code sg) es = Some w' -> Forall not_exit es ->
  status (sess w')
  = (if is_zero code && negb (some_signal sg) then Completed else Error) /\
  exitCode (sess w') = Some code /\
  exitSignal (sess w') = Some sg /\
  errorReason (sess w')
  = (if is_zero code && negb (some_signal sg)
     then errorReason (sess w) else Some (exit_reason code sg)).
Proof.
  intros Hrun Hne.
  destruct (outcome_on_exit w code sg) as [A1 [A2 [A3 A4]]].
  destruct (server_run_final es _ w' Hrun Hne) as [B1 [B2 [B3 B4]]].
  { rewrite A1. apply exit_status_terminal. }
  rewrite B1, B2, B3, B4, A1, A2, A3, A4. unfold exit_status_2.
  destruct (is_zero code); destruct (some_signal sg); repeat split.
Qed.

Lemma exit_decides_final_state_witness :
  let timed_out :=
    after (started (mkRun (Some 5000) None None None None)
             ChildProcessAdapter)
      [Server.Advance 5000; Server.Fire 1%nat] in
  errorReason (sess timed_out) = Some "Command timed out" /\
  status (sess (after (on_exit timed_out None (Some "SIGTERM"))
                  [Data (lit "late")])) = Error /\
  errorReason (sess (after (on_exit timed_out None (Some "SIGTERM"))
                       [Data (lit "late")]))
  = Some "Process exited with code null, signal: SIGTERM".
Proof.
  cbv zeta.
  destruct (exit_decides_final_state
              (after (started (mkRun (Some 5000) None None None None)
                        ChildProcessAdapter)
                 [Server.Advance 5000; Server.Fire 1%nat])
              (after (on_exit
                        (after (started
                                  (mkRun (Some 5000) None None None None)
                                  ChildProcessAdapter)
                           [Server.Advance 5000; Server.Fire 1%nat])
                        None (Some "SIGTERM"))
                 [Data (lit "late")])
              None (Some "SIGTERM") [Data (lit "late")])
    as [H1 [_ [_ H4]]].
  - vm_compute. reflexivity.
  - repeat constructor.
  - split; [vm_compute; reflexivity|]. split; [exact H1 | exact H4].
Defined.

(** X12. When the PTY adapter reports exit with a signal number, even
    number 0 beside exit code 0, the session ends in status error with
    the signal's decimal text in the reason, although the promise of
    terminal.run, settled by the first callback, reports success for
    exit code 0. *)
Theorem pty_exit_with_signal_number_is_error (w : World)
  (code : option Z) (n : Z) :
  let w' := Tools.adapter_exit w (Tools.PtyExit code (Some n)) in
  status (sess w') = Error /\
  exitSignal (sess w')
  = Some (Some (NilZero.string_of_int (Z.to_int n))) /\
  errorReason (sess w')
  = Some (exit_reason code (Some (NilZero.string_of_int (Z.to_int n)))) /\
  promise w' = match promise w with
               | Pending => Resolved (exit_result w code)
               | p => p
               end /\
  r_success (exit_result w code) = is_zero code.
Proof.
  cbv zeta. unfold Tools.adapter_exit, Tools.pty_signal_name.
  destruct (outcome_on_exit w code
              (Some (NilZero.string_of_int (Z.to_int n))))
    as [A1 [_ [A3 A4]]].
  rewrite A1, A3, A4. unfold exit_status_2. cbn [some_signal].
  rewrite orb_true_r.
  destruct (on_exit_effect w code
              (Some (NilZero.string_of_int (Z.to_int n))))
    as [_ [_ [_ [_ [_ [P _]]]]]].
  rewrite P. repeat split.
Qed.

End ExitFacts.

(* ===================================================================== *)
(** ** What the output buffer holds *)
(* ===================================================================== *)

Module OutputFacts.
Import JS Regex Ansi Prompts Host Sessions Server Props Samples RunProps.
Import Frames TimerFacts BufferFacts ServerFacts RunFacts RunTheorems.
Import Steps TimerRuns.

Lemma byteLength_nonneg s : 0 <= byteLength s.
Proof.
  assert (H : forall n s, (length s <= n)%nat -> 0 <= byteLength s).
  { induction n as [|n IH]; intros [|c r] Hl; cbn [length] in Hl;
      try (cbn [byteLength]; lia).
    assert (Hr : 0 <= byteLength r) by (apply IH; lia).
    cbn [byteLength].
    destruct (c <? 128)%N; [lia|]. destruct (c <? 2048)%N; [lia|].
    destruct (is_high_surrogate c); [|lia].
    destruct r as [|d r']; [lia|].
    destruct (is_low_surrogate d); [|lia].
    assert (0 <= byteLength r') by (apply IH; cbn [length] in Hl; lia). lia. }
  apply (H (length s)). lia.
Qed.

Lemma chunk_bytes_nonneg b : 0 <= chunk_bytes b.
Proof.
  induction b as [|c b IH]; simpl; [lia|].
  pose proof (byteLength_nonneg c). lia.
Qed.

Lemma low_not_high d : is_low_surrogate d = true -> is_high_surrogate d = false.
Proof.
  unfold is_low_surrogate, is_high_surrogate. intros H.
  apply andb_prop in H. destruct H as [H _]. apply N.leb_le in H.
  apply andb_false_iff. right. apply N.leb_gt. lia.
Qed.

Lemma low_is_wide d :
  is_low_surrogate d = true -> (d <? 128)%N = false /\ (d <? 2048)%N = false.
Proof.
  unfold is_low_surrogate. intros H.
  apply andb_prop in H. destruct H as [H _]. apply N.leb_le in H.
  split; apply N.ltb_ge; lia.
Qed.

(** Joining two strings can only merge two lone surrogates into one
    pair: the bytes of the whole are at most the bytes of the parts. *)
Lemma byteLength_app_le a b :
  byteLength (a ++ b) <= byteLength a + byteLength b.
Proof.
  assert (H : forall n a, (length a <= n)%nat ->
                          byteLength (a ++ b) <= byteLength a + byteLength b).
  { induction n as [|n IH]; intros [|c r] Hl; cbn [length] in Hl;
      try (cbn [app byteLength]; lia).
    assert (IHr : byteLength (r ++ b) <= byteLength r + byteLength b)
      by (apply IH; lia).
    cbn [app byteLength].
    destruct (c <? 128)%N; [lia|]. destruct (c <? 2048)%N; [lia|].
    destruct (is_high_surrogate c); [|lia].
    destruct r as [|d r'].
    - cbn [app]. destruct b as [|d b']; [cbn [byteLength]; lia|].
      destruct (is_low_surrogate d) eqn:El; [|lia].
      cbn [byteLength]. destruct (low_is_wide d El) as [-> ->].
      rewrite (low_not_high d El).
      pose proof (byteLength_nonneg b'). lia.
    - cbn [app]. destruct (is_low_surrogate d); [|cbn [app] in IHr; lia].
      assert (byteLength (r' ++ b) <= byteLength r' + byteLength b)
        by (apply IH; cbn [length] in Hl; lia).
      lia. }
  apply (H (length a)). lia.
Qed.

Lemma byteLength_join_le b : byteLength (join b) <= chunk_bytes b.
Proof.
  induction b as [|c b IH]; [simpl; lia|].
  unfold join in *. cbn [concat chunk_bytes fold_right].
  pose proof (byteLength_app_le c (concat b)).
  change (fold_right (fun c acc => byteLength c + acc) 0 b)
    with (chunk_bytes b). lia.
Qed.

Lemma trim_two cap removed r1 rest total :
  trim cap (removed :: r1 :: rest) total
  = if total >? cap
    then trim cap (r1 :: rest) (total - byteLength removed)
    else (removed :: r1 :: rest, total).
Proof. reflexivity. Qed.

(** The trimming loop stops at the longest suffix that fits. *)
Lemma trim_longest cap : forall b total,
  total = chunk_bytes b -> longest_fit cap b (fst (trim cap b total)).
Proof.
  induction b as [|removed b IH]; intros total Ht.
  - exists []. split; [reflexivity | exact I].
  - destruct b as [|r1 rest].
    + exists []. split; [reflexivity | exact I].
    + rewrite trim_two. destruct (total >? cap) eqn:E.
      * destruct (IH (total - byteLength removed)) as [d [Hd Hc]].
        { rewrite Ht. cbn [chunk_bytes fold_right]. lia. }
        exists (removed :: d).
        split; [cbn [app]; apply f_equal; exact Hd|].
        cbn [rev]. destruct (rev d) as [|c l] eqn:Er.
        -- apply (f_equal (@rev _)) in Er. rewrite rev_involutive in Er.
           cbn [rev] in Er. subst d. cbn [app] in Hd. rewrite <- Hd.
           cbn [app]. apply Z.gtb_lt in E. rewrite Ht in E.
           cbn [chunk_bytes fold_right] in *. lia.
        -- cbn [app]. exact Hc.
      * exists []. split; [reflexivity | exact I].
Qed.

Lemma longest_fit_snoc m chunks held text held' :
  longest_fit m chunks held -> longest_fit m (held ++ [text]) held' ->
  longest_fit m (chunks ++ [text]) held'.
Proof.
  intros [d1 [E1 C1]] [d2 [E2 C2]]. exists (d1 ++ d2). split.
  - rewrite E1, <- !app_assoc, E2. reflexivity.
  - rewrite rev_app_distr. destruct (rev d2) as [|c l] eqn:Er.
    + apply (f_equal (@rev _)) in Er. rewrite rev_involutive in Er.
      cbn [rev] in Er. subst d2. cbn [app] in *. subst held'.
      destruct (rev d1) as [|c l]; [exact I|].
      rewrite chunk_bytes_app. cbn [chunk_bytes fold_right].
      pose proof (byteLength_nonneg text). lia.
    + cbn [app]. exact C2.
Qed.

Lemma onChunk_buf m w text :
  0 < m -> buffer_ok m (sess w) ->
  buf (sess (onChunk w text))
  = fst (trim m (buf (sess w) ++ [text])
           (chunk_bytes (buf (sess w)) + byteLength text)).
Proof.
  intros Hm [Hmax [Htot _]]. unfold onChunk.
  destruct (classify_lines_frame (split_lines text) w) as [Hd _].
  apply data_of_fields in Hd.
  destruct Hd as [_ [Hb [_ [_ [_ [_ [_ [Ht [Hx _]]]]]]]]].
  rewrite Hb, Ht, Hx, Hmax, Htot, or_default_total, (or_default_pos _ _ Hm).
  reflexivity.
Qed.

Lemma server_step_longest m w e w' chunks :
  0 < m -> buffer_ok m (sess w) ->
  longest_fit m chunks (buf (sess w)) ->
  Server.step w e = Some w' ->
  buffer_ok m (sess w') /\
  longest_fit m (chunks ++ data_chunks [e]) (buf (sess w')).
Proof.
  intros Hm Hok Hl Hs.
  destruct e as [chunk|code sg|dt|h];
    try (assert (Hb : buffer_of (sess w') = buffer_of (sess w))
           by (apply (server_step_buffer w _ w' Hs); discriminate);
         cbn [data_chunks]; rewrite app_nil_r; split;
         [ exact (buffer_ok_ext m _ _ Hb Hok)
         | unfold buffer_of in Hb; injection Hb as -> _ _; exact Hl ]).
  cbn [Server.step] in Hs. injection Hs as <-.
  unfold on_data. cbn [sess with_progress data_chunks].
  destruct (onChunk_buffer m w chunk Hm Hok) as [Hok' _].
  split; [exact Hok'|].
  apply (longest_fit_snoc m chunks (buf (sess w))); [exact Hl|].
  rewrite (onChunk_buf m w chunk Hm Hok). apply trim_longest.
  rewrite chunk_bytes_app. cbn [chunk_bytes fold_right]. lia.
Qed.

Lemma data_chunks_cons e es :
  data_chunks (e :: es) = data_chunks [e] ++ data_chunks es.
Proof. destruct e; reflexivity. Qed.

Lemma server_run_longest m es : forall w w' chunks,
  0 < m -> buffer_ok m (sess w) ->
  longest_fit m chunks (buf (sess w)) ->
  Server.run w es = Some w' ->
  buffer_ok m (sess w') /\
  longest_fit m (chunks ++ data_chunks es) (buf (sess w')).
Proof.
  induction es as [|e es IH]; intros w w' chunks Hm Hok Hl; simpl.
  - intros H. injection H as <-. rewrite app_nil_r. auto.
  - destruct (Server.step w e) as [w1|] eqn:E; [|discriminate].
    intros Hrun.
    destruct (server_step_longest m w e w1 chunks Hm Hok Hl E) as [Hok1 Hl1].
    destruct (IH w1 w' _ Hm Hok1 Hl1 Hrun) as [Hok' Hl'].
    split; [exact Hok'|].
    change (match e with
            | Data chunk => chunk :: data_chunks es
            | _ => data_chunks es
            end) with (data_chunks (e :: es)).
    rewrite data_chunks_cons, app_assoc. exact Hl'.
Qed.

Lemma invoke_longest input sid t0 a m w0 w es :
  nullish (i_maxBufferBytes input) (2 * 1024 * 1024) = m -> 0 < m ->
  invoke input sid t0 (Ok a) = InvokeStarted w0 ->
  Server.run w0 es = Some w ->
  buffer_ok m (sess w) /\ longest_fit m (data_chunks es) (buf (sess w)).
Proof.
  intros Hcap Hm Hi Hrun.
  assert (Hok0 : buffer_ok m (sess w0))
    by (apply (server_run_buffer input sid t0 a m w0 w0 []); auto).
  destruct (invoke_world _ _ _ _ _ Hi) as [Hs _].
  apply (server_run_longest m es w0 w [] Hm Hok0); [|exact Hrun].
  rewrite Hs. exists []. split; [reflexivity | exact I].
Qed.

Lemma longest_fit_all m chunks held :
  longest_fit m chunks held -> chunk_bytes chunks <= m -> held = chunks.
Proof.
  intros [d [E C]] Hle. destruct (rev d) as [|c l] eqn:Er.
  - apply (f_equal (@rev _)) in Er. rewrite rev_involutive in Er.
    cbn [rev] in Er. subst d. symmetry. exact E.
  - exfalso. apply (f_equal (@rev _)) in Er. rewrite rev_involutive in Er.
    cbn [rev] in Er. subst d chunks.
    rewrite !chunk_bytes_app in Hle. cbn [chunk_bytes fold_right] in Hle.
    pose proof (chunk_bytes_nonneg (rev l)). lia.
Qed.

(** X13. The buffer of a terminal.run session is the longest suffix of
    the chunks received that fits in the cap: nothing is dropped unless
    the total exceeds the cap, and the chunk dropped last would not fit
    beside what is kept. *)
Theorem buffer_is_longest_fitting_suffix (input : RunCommandOptions)
  (sid : string) (t0 : Z) (a : Adapter) (m : Z) (w0 w : World)
  (es : list Server.Event) :
  nullish (i_maxBufferBytes input) (2 * 1024 * 1024) = m -> 0 < m ->
  invoke input sid t0 (Ok a) = InvokeStarted w0 ->
  Server.run w0 es = Some w ->
  longest_fit m (data_chunks es) (buf (sess w)).
Proof.
  intros Hcap Hm Hi Hrun.
  exact (proj2 (invoke_longest input sid t0 a m w0 w es Hcap Hm Hi Hrun)).
Qed.

Lemma buffer_is_longest_fitting_suffix_witness :
  let w := after (started (mkRun None None None None (Some 8))
                    ChildProcessAdapter)
             [Data (lit "aaaaa"); Data (lit "bbbbb"); Data (lit "c")] in
  buf (sess w) = [lit "bbbbb"; lit "c"] /\
  longest_fit 8 [lit "aaaaa"; lit "bbbbb"; lit "c"] (buf (sess w)).
Proof.
  split; [vm_compute; reflexivity|].
  apply (buffer_is_longest_fitting_suffix
           (mkRun None None None None (Some 8)) "s1" 0 ChildProcessAdapter 8
           (started (mkRun None None None None (Some 8))
              ChildProcessAdapter)
           _ [Data (lit "aaaaa"); Data (lit "bbbbb"); Data (lit "c")]).
  - reflexivity.
  - lia.
  - vm_compute. reflexivity.
  - vm_compute. reflexivity.
Defined.

(** X14. When all the output of a command fits in the cap, nothing of
    it is lost: terminal.attach returns the concatenation of every
    chunk received, and when the process exits the promise of
    terminal.run resolves with that complete output. *)
Theorem complete_output_within_cap (input : RunCommandOptions)
  (sid : string) (t0 : Z) (a : Adapter) (m : Z) (w0 w : World)
  (es : list Server.Event) (code : option Z) (sg : option string) :
  nullish (i_maxBufferBytes input) (2 * 1024 * 1024) = m -> 0 < m ->
  invoke input sid t0 (Ok a) = InvokeStarted w0 ->
  Server.run w0 es = Some w -> Forall not_exit es ->
  chunk_bytes (data_chunks es) <= m ->
  Tools.attach_invoke w sid
  = Ok (Tools.mkAttach sid (join (data_chunks es)) (status (sess w))) /\
  promise (on_exit w code sg)
  = Resolved (mkResult sid (join (data_chunks es)) code (is_zero code)
                (if is_zero code then None
                 else Some ("Process exited with code "
                            ++ show_code code)%string)).
Proof.
  intros Hcap Hm Hi Hrun Hne Hle.
  destruct (invoke_longest input sid t0 a m w0 w es Hcap Hm Hi Hrun)
    as [_ Hl].
  apply longest_fit_all in Hl; [|exact Hle].
  destruct (invoke_started input sid t0 a)
    as [w0' [Hi' [Hok0 [Hp0 [Hid0 _]]]]].
  rewrite Hi in Hi'. injection Hi' as <-.
  assert (Hk0 : kept w0).
  { destruct (invoke_world _ _ _ _ _ Hi)
      as [_ [Ht [_ [_ [_ [_ [Hst _]]]]]]].
    split; [exact Hst|]. intros u Hu Hk. cbv zeta in Ht. rewrite Ht in Hu.
    destruct Hu as [<-|Hu]; [discriminate Hk|].
    destruct (_ >? 0); [|contradiction].
    destruct Hu as [<-|[]]. discriminate Hk. }
  destruct (kept_run es w0 w Hok0 Hrun Hne Hk0) as [_ [Hst _]].
  destruct (server_run_frame es w0 w Hrun) as [Hid [_ [Hp _]]].
  rewrite Hid0 in Hid. split.
  - unfold Tools.attach_invoke. rewrite <- Hid at 1.
    rewrite (store_get_own w Hst), Hl, Hid. reflexivity.
  - destruct (on_exit_effect w code sg) as [_ [_ [_ [_ [_ [P _]]]]]].
    rewrite P, (Hp Hne), Hp0. unfold exit_result. rewrite Hid, Hl.
    reflexivity.
Qed.

Lemma complete_output_within_cap_witness :
  promise exited_world
  = Resolved (mkResult "s1" (lit "hi") (Some 0) true None).
Proof.
  destruct (complete_output_within_cap default_input "s1" 0
              ChildProcessAdapter (2 * 1024 * 1024)
              (started default_input ChildProcessAdapter)
              (after (started default_input ChildProcessAdapter)
                 [Data (lit "hi"); Server.Advance 20])
              [Data (lit "hi"); Server.Advance 20] (Some 0) None)
    as [_ H].
  - reflexivity.
  - lia.
  - vm_compute. reflexivity.
  - vm_compute. reflexivity.
  - repeat constructor.
  - vm_compute. discriminate.
  - exact H.
Defined.

(** X15. The text terminal.status and terminal.attach return is at most
    the cap in UTF-8 bytes, unless the buffer holds one single chunk. *)
Theorem joined_output_within_cap (input : RunCommandOptions)
  (sid : string) (t0 : Z) (a : Adapter) (m : Z) (w0 w : World)
  (es : list Server.Event) :
  nullish (i_maxBufferBytes input) (2 * 1024 * 1024) = m -> 0 < m ->
  invoke input sid t0 (Ok a) = InvokeStarted w0 ->
  Server.run w0 es = Some w ->
  byteLength (join (buf (sess w))) <= m \/ length (buf (sess w)) = 1%nat.
Proof.
  intros Hcap Hm Hi Hrun.
  destruct (server_run_buffer input sid t0 a m w0 w es Hcap Hm Hi Hrun)
    as [_ [_ [H|H]]]; [left|right; exact H].
  pose proof (byteLength_join_le (buf (sess w))). lia.
Qed.

Lemma joined_output_within_cap_witness :
  let w := after (started (mkRun None None None None (Some 8))
                    ChildProcessAdapter)
             [Data (lit "aaaaa"); Data (lit "bbbbb"); Data (lit "c")] in
  byteLength (join (buf (sess w))) <= 8 \/ length (buf (sess w)) = 1%nat.
Proof.
  apply (joined_output_within_cap
           (mkRun None None None None (Some 8)) "s1" 0 ChildProcessAdapter 8
           (started (mkRun None None None None (Some 8))
              ChildProcessAdapter)
           _ [Data (lit "aaaaa"); Data (lit "bbbbb"); Data (lit "c")]).
  - reflexivity.
  - lia.
  - vm_compute. reflexivity.
  - vm_compute. reflexivity.
Defined.

End OutputFacts.

(* ===================================================================== *)
(** ** Requests, tools and the store *)
(* ===================================================================== *)

Module RequestFacts.
Import Jsonrpc Mcp RequestProps.

Local Open Scope string_scope.

Lemma prop_some_not_falsy msg key v :
  prop msg key = Some v -> falsy msg = false.
Proof. destruct msg; simpl; try discriminate. reflexivity. Qed.

Lemma reply_some (stringify : JSONValue -> string) msg r :
  reply stringify msg r
  = match prop msg "id" with
    | Some i => Some (stringify (r i))
    | None => None
    end.
Proof. reflexivity. Qed.

(** What [dispatch] returns for a request that carries an id. *)
Lemma dispatch_request parse stringify handlers raw msg method i :
  request parse raw msg method i ->
  dispatch parse stringify handlers raw
  = Some (stringify
            (match handlers method with
             | None => error_response i (-32601)
                         ("Method not found: " ++ method)
             | Some h =>
                 match h (prop msg "params") (Some i) with
                 | Returns res =>
                     result_response i
                       (match res with Some v => v | None => JNull end)
                 | Raises m => error_response i (-32000) m
                 end
             end)).
Proof.
  intros [Hp [Hj [Hm Hi]]]. unfold dispatch.
  rewrite Hp, (prop_some_not_falsy _ _ _ Hj), Hj, Hm.
  cbn [String.eqb Ascii.eqb Bool.eqb negb andb].
  destruct (handlers method) as [h|]; rewrite ?Hi.
  - destruct (h (prop msg "params") (Some i)); rewrite reply_some, Hi;
      reflexivity.
  - rewrite reply_some, Hi. reflexivity.
Qed.




(** How numbers print: all digits up to [2 ^ 53], above it the fewest
    digits that read back as the same Number, exponent form from
    [10 ^ 21] on. *)
Example Number_toString_samples :
  Number_toString 9007199254740991 = "9007199254740991" /\
  Number_toString (2 ^ 53 + 1) = "9007199254740992" /\
  Number_toString (2 ^ 60) = "1152921504606847000" /\
  Number_toString (10 ^ 21) = "1e+21" /\
  Number_toString (- 2 ^ 70) = "-1.1805916207174113e+21" /\
  Number_toString (2 ^ 1024) = "Infinity".
Proof. vm_compute. repeat split. Qed.

(** How arrays and objects print. *)
Example template_samples :
  template (JArr [JNum 1; JNull; JArr [JStr "a"; JBool true]])
  = Some "1,,a,true" /\
  template (JObj [("a", JNum 1)]) = Some "[object Object]" /\
  template (JObj [("toString", JNum 1)]) = None /\
  template (JArr [JObj [("toString", JNull)]]) = None.
Proof. vm_compute. repeat split. Qed.

(** X17. A tools/call request for a name that no tool has, or without
    a name, is answered with the JSON-RPC error -32000. Its text is
    [Unknown tool: ] followed by the name as a template literal prints
    it: a string as it is, [undefined] when the name is missing, a
    number as [Number::toString] prints it. When the name cannot be
    printed (an object with an own property [toString], or an array
    that holds one) the text is that of the TypeError the template
    literal throws. *)
Theorem unknown_tool_is_error_32000
  (parse : string -> option JSONValue) (stringify : JSONValue -> string)
  (opts : ServerOptions) (tools : list ToolDef) (raw : string)
  (msg i : JSONValue) :
  request parse raw msg "tools/call" i ->
  find_tool tools (prop (params_or_empty (prop msg "params")) "name")
  = None ->
  let nm := prop (params_or_empty (prop msg "params")) "name" in
  on_line parse stringify opts tools raw
  = sent (Some (stringify
                  (error_response i (-32000) (unknown_tool_text nm)))) /\
  (forall n, nm = Some (JStr n) ->
             unknown_tool_text nm = "Unknown tool: " ++ n) /\
  (nm = None -> unknown_tool_text nm = "Unknown tool: undefined") /\
  (forall z, nm = Some (JNum z) ->
             unknown_tool_text nm = "Unknown tool: " ++ Number_toString z) /\
  (forall fields, nm = Some (JObj fields) ->
             unknown_tool_text nm
             = if has_own fields "toString" then to_primitive_error
               else "Unknown tool: [object Object]").
Proof.
  intros Hreq Hfind. cbv zeta. split.
  - unfold on_line.
    rewrite (dispatch_request _ stringify (handlers opts tools) _ _ _ _
               Hreq).
    cbn [handlers String.eqb Ascii.eqb Bool.eqb].
    unfold tools_call. fold (params_or_empty (prop msg "params")).
    rewrite Hfind. unfold unknown_tool_text.
    destruct (template_opt _); reflexivity.
  - repeat split.
    + intros n ->. reflexivity.
    + intros ->. reflexivity.
    + intros z ->. reflexivity.
    + intros fields ->. unfold unknown_tool_text.
      cbn [template_opt template].
      destruct (has_own fields "toString"); reflexivity.
Qed.

Lemma unknown_tool_is_error_32000_witness :
  let parse := fun _ : string =>
    Some (JObj [("jsonrpc", JStr "2.0"); ("id", JNum 7);
                ("method", JStr "tools/call");
                ("params", JObj [("name", JStr "terminal.exec")])]) in
  let stringify := fun v : JSONValue =>
    match prop v "error" with
    | Some e => match prop e "message" with
                | Some (JStr m) => m
                | _ => "error"
                end
    | None => "result"
    end in
  on_line parse stringify (mkServerOptions "mcp-terminal-awareness" "0.1.0")
    (startServer_tools
       (mkBodies (fun _ => JNull) (fun _ => Returns None)
          (fun _ => Returns None) (fun _ => Returns None)
          (fun _ => Returns None) (fun _ => Returns None)
          (fun _ => Returns None) (fun _ => Returns None)))
    "line"
  = Some "Unknown tool: terminal.exec".
Proof.
  cbv zeta.
  match goal with
  | |- on_line ?p ?s ?o ?t ?r = _ =>
      destruct (unknown_tool_is_error_32000 p s o t r
                  (JObj [("jsonrpc", JStr "2.0"); ("id", JNum 7);
                         ("method", JStr "tools/call");
                         ("params",
                          JObj [("name", JStr "terminal.exec")])])
                  (JNum 7)) as [H _]
  end.
  - repeat split.
  - reflexivity.
  - rewrite H. reflexivity.
Defined.

(** X18. In the tool list of [startServer] the run tool of server.ts
    stands behind the tool of [TerminalAwareness], which has the same
    name [terminal.run]: a tools/call never reaches it, a call of
    [terminal.run] goes to the [TerminalAwareness] tool. *)
Theorem server_run_tool_is_shadowed (b : ToolBodies)
  (f : option JSONValue -> Handled)
  (params i : option JSONValue) :
  tools_call (startServer_tools b) params i
  = tools_call (startServer_tools (set_run_invoke b f)) params i /\
  (prop (params_or_empty params) "name" = Some (JStr "terminal.run") ->
   tools_call (startServer_tools b) params i
   = match exec_invoke b (prop (params_or_empty params) "arguments") with
     | Returns result => Returns (Some (wrap_result result))
     | Raises m => Raises m
     end).
Proof.
  unfold tools_call. fold (params_or_empty params). split.
  - destruct (prop (params_or_empty params) "name") as [[| | |n| |]|];
      try reflexivity.
    unfold find_tool, startServer_tools. cbn [find name].
    destruct (String.eqb "terminal.run" n); reflexivity.
  - intros ->. reflexivity.
Qed.

Lemma server_run_tool_is_shadowed_witness :
  tools_call
    (startServer_tools
       (mkBodies (fun _ => JNull) (fun _ => Returns (Some (JStr "exec")))
          (fun _ => Returns (Some (JStr "run"))) (fun _ => Returns None)
          (fun _ => Returns None) (fun _ => Returns None)
          (fun _ => Returns None) (fun _ => Returns None)))
    (Some (JObj [("name", JStr "terminal.run")])) None
  = Returns (Some (JObj [("content", JArr [JStr "exec"])])).
Proof.
  rewrite (proj2 (server_run_tool_is_shadowed _ (fun _ => Returns None)
                    (Some (JObj [("name", JStr "terminal.run")])) None));
    reflexivity.
Defined.

End RequestFacts.

Module StoreFacts.
Import Host Store.

Lemma find_map_set_same st sid s :
  find (fun kv => String.eqb (fst kv) sid) (map_set st sid s)
  = Some (sid, s).
Proof.
  induction st as [|[k v] st IH]; cbn [map_set find fst].
  - rewrite String.eqb_refl. reflexivity.
  - destruct (String.eqb k sid) eqn:E; cbn [find fst].
    + rewrite String.eqb_refl. reflexivity.
    + rewrite E. exact IH.
Qed.

Lemma find_map_set_other st sid sid' s :
  sid' <> sid ->
  find (fun kv => String.eqb (fst kv) sid') (map_set st sid s)
  = find (fun kv => String.eqb (fst kv) sid') st.
Proof.
  intros Hne. induction st as [|[k v] st IH]; cbn [map_set find fst].
  - destruct (String.eqb sid sid') eqn:E; [|reflexivity].
    apply String.eqb_eq in E. congruence.
  - destruct (String.eqb k sid) eqn:E; cbn [find fst].
    + apply String.eqb_eq in E. subst k.
      destruct (String.eqb sid sid') eqn:E'; [|reflexivity].
      apply String.eqb_eq in E'. congruence.
    + destruct (String.eqb k sid'); [reflexivity | exact IH].
Qed.

Lemma find_remove st sid sid' :
  find (fun kv => String.eqb (fst kv) sid') (remove st sid)
  = if String.eqb sid sid' then None
    else find (fun kv => String.eqb (fst kv) sid') st.
Proof.
  unfold remove. induction st as [|[k v] st IH]; cbn [filter find fst].
  - destruct (String.eqb sid sid'); reflexivity.
  - destruct (String.eqb k sid) eqn:E; cbn [negb find fst].
    + apply String.eqb_eq in E. subst k. rewrite IH.
      destruct (String.eqb sid sid'); reflexivity.
    + destruct (String.eqb k sid') eqn:E'.
      * apply String.eqb_eq in E'. subst k.
        rewrite String.eqb_sym, E. reflexivity.
      * exact IH.
Qed.

(** X19. The session store behaves as a map: a session just created is
    found under its id and is new (idle, empty buffer), creating or
    removing a session leaves the sessions under other ids as they
    are, a removed session is not found, and an empty store finds
    nothing. *)
Theorem store_lookup_laws (st : SessionStore) (sid sid' : string) (t : Z) :
  get (snd (newSession st sid t)) sid = Some (fst (newSession st sid t)) /\
  fst (newSession st sid t)
  = mkSession sid [] t Idle None None None None None None
      (Some 0) (Some 2000000) None /\
  (sid' <> sid -> get (snd (newSession st sid t)) sid' = get st sid') /\
  get (remove st sid) sid = None /\
  (sid' <> sid -> get (remove st sid) sid' = get st sid') /\
  get empty sid = None.
Proof.
  unfold get, newSession. cbn [fst snd]. repeat split.
  - rewrite find_map_set_same. reflexivity.
  - intros Hne. rewrite (find_map_set_other _ _ _ _ Hne). reflexivity.
  - rewrite find_remove, String.eqb_refl. reflexivity.
  - intros Hne. rewrite find_remove.
    destruct (String.eqb sid sid') eqn:E; [|reflexivity].
    apply String.eqb_eq in E. congruence.
Qed.

Lemma store_lookup_laws_witness :
  get (remove (snd (newSession (snd (newSession empty "a" 0)) "b" 5)) "a")
      "a" = None /\
  get (snd (newSession (snd (newSession empty "a" 0)) "b" 5)) "a"
  = Some (Sessions.newSession "a" 0).
Proof.
  destruct (store_lookup_laws (snd (newSession (snd (newSession empty "a" 0))
                                      "b" 5)) "a" "a" 0)
    as [_ [_ [_ [H _]]]].
  destruct (store_lookup_laws (snd (newSession empty "a" 0)) "b" "a" 5)
    as [_ [_ [H3 _]]].
  split; [exact H|]. rewrite H3 by discriminate. reflexivity.
Defined.

End StoreFacts.

Module ListFacts.
Import JS Host Tools RequestProps.

Lemma first_line_prefix s :
  forallb (fun c => negb (c =? 0x0A)%N) (first_line s) = true /\
  exists rest,
    s = first_line s ++ rest /\ (rest = [] \/ exists r, rest = (0x0A)%N :: r).
Proof.
  induction s as [|c s [IH1 [rest [IH2 IH3]]]]; cbn [first_line].
  - split; [reflexivity|]. exists []. auto.
  - destruct (c =? 0x0A)%N eqn:E.
    + split; [reflexivity|]. exists (c :: s). split; [reflexivity|].
      right. apply N.eqb_eq in E. subst c. eauto.
    + split; [cbn [forallb]; rewrite E; exact IH1|].
      exists rest. split; [cbn [app]; congruence | exact IH3].
Qed.

(** X26. [terminal.list] returns one entry per stored session, in the
    order of the store, with the session's id, status and last
    activity; what it reports as [command] is the session's output up
    to its first line feed (the command line itself is not kept in the
    session). *)
Theorem list_reports_first_output_line (st : Store.SessionStore) :
  Forall2 lists_session (Store.all st) (list_invoke (Store.all st)).
Proof.
  induction (Store.all st) as [|s ss IH]; [constructor|].
  cbn [list_invoke map]. constructor; [|exact IH].
  unfold lists_session. cbn [le_id le_status le_lastActivity le_command].
  repeat split; apply first_line_prefix.
Qed.

End ListFacts.

(* ===================================================================== *)
(** ** Spinner frames as a relation *)
(* ===================================================================== *)

Module SpinnerFacts.
Import JS Regex Ansi Props AnsiFacts.

Lemma jsstring_eqb_true a b : jsstring_eqb a b = true <-> a = b.
Proof.
  unfold jsstring_eqb. destruct (list_eq_dec N.eq_dec a b); split;
    auto; discriminate.
Qed.

Lemma jsstring_eqb_sym a b : jsstring_eqb a b = jsstring_eqb b a.
Proof.
  unfold jsstring_eqb.
  destruct (list_eq_dec N.eq_dec a b), (list_eq_dec N.eq_dec b a);
    congruence.
Qed.

Lemma spinner_parts prev next :
  isLikelySpinnerFrame prev next = true <->
  length (trimEnd (stripAnsi prev)) = length (trimEnd (stripAnsi next)) /\
  includes_short spinners (at_last (trimEnd (stripAnsi prev))) = true /\
  includes_short spinners (at_last (trimEnd (stripAnsi next))) = true /\
  slice_init (trimEnd (stripAnsi prev))
  = slice_init (trimEnd (stripAnsi next)).
Proof.
  rewrite isLikelySpinnerFrame_unfold. cbv zeta.
  rewrite !andb_true_iff, Nat.eqb_eq, jsstring_eqb_true. tauto.
Qed.

(** X20. [isLikelySpinnerFrame] is symmetric and transitive: lines that
    are frames of one spinner form a class, whatever the order in which
    they are compared. *)
Theorem isLikelySpinnerFrame_symmetric_transitive :
  (forall a b, isLikelySpinnerFrame a b = isLikelySpinnerFrame b a) /\
  (forall a b c,
      isLikelySpinnerFrame a b = true -> isLikelySpinnerFrame b c = true ->
      isLikelySpinnerFrame a c = true).
Proof.
  split.
  - intros a b. rewrite !isLikelySpinnerFrame_unfold. cbv zeta.
    rewrite (Nat.eqb_sym (length (trimEnd (stripAnsi a)))).
    rewrite (jsstring_eqb_sym (slice_init (trimEnd (stripAnsi a)))).
    destruct (_ =? _)%nat; [|reflexivity].
    destruct (includes_short spinners (at_last (trimEnd (stripAnsi a))));
      destruct (includes_short spinners (at_last (trimEnd (stripAnsi b))));
      reflexivity.
  - intros a b c Hab Hbc. apply spinner_parts in Hab, Hbc.
    apply spinner_parts. intuition congruence.
Qed.

Lemma isLikelySpinnerFrame_symmetric_transitive_witness :
  isLikelySpinnerFrame (lit "load -") (lit "load |") = true.
Proof.
  destruct isLikelySpinnerFrame_symmetric_transitive as [Hs Ht].
  rewrite Hs.
  apply (Ht (lit "load |") (lit "load /") (lit "load -"));
    vm_compute; reflexivity.
Defined.

End SpinnerFacts.

(* ===================================================================== *)
(** ** Starting the process *)
(* ===================================================================== *)

Module SpawnFacts.
Import JS Host Sessions Server Props Steps.

Local Open Scope string_scope.

Lemma invoke_ok_started input sid t0 a :
  exists w, invoke input sid t0 (Ok a) = InvokeStarted w /\
            adapter (sess w) = Some a /\ status (sess w) = Running.
Proof.
  destruct (ServerFacts.invoke_started input sid t0 a)
    as [w [H [_ [_ [_ [Ha [Hs _]]]]]]].
  exists w. auto.
Qed.

Lemma invoke_throws input sid t0 m :
  exists w,
    invoke input sid t0 (Throws m)
    = InvokeThrew ("Failed to start command: " ++ m) w /\
    status (sess w) = Error /\ errorReason (sess w) = Some m /\
    adapter (sess w) = None /\ stored w = true /\ promise w = Pending.
Proof.
  unfold invoke. eexists. split; [reflexivity|].
  cbn [sess with_sess status errorReason adapter set_errorReason set_status
       stored promise].
  rewrite sess_cleanup. repeat split.
Qed.

(** X21. A terminal.run call starts with the PTY adapter exactly when
    USE_PTY is set and the PTY spawns; a PTY failure alone never fails the
    call, which then runs on the child process; only a failure of the
    child process makes the call throw, with the start-failure prefix
    twice in the message and once in the session's error reason, the
    session left in status error and without adapter. *)
Theorem spawn_falls_back_to_child_process (input : RunCommandOptions)
  (sid : string) (t0 : Z) (usePty : bool) (pty child : Outcome unit) :
  let started_with a :=
    exists w, invoke input sid t0 (maybeRunPTY usePty pty child)
              = InvokeStarted w /\
              adapter (sess w) = Some a /\ status (sess w) = Running in
  (usePty = true -> pty = Ok tt -> started_with PtyAdapter) /\
  ((usePty = false \/ exists e, pty = Throws e) ->
   (child = Ok tt -> started_with ChildProcessAdapter) /\
   (forall m, child = Throws m ->
      exists w,
        invoke input sid t0 (maybeRunPTY usePty pty child)
        = InvokeThrew
            ("Failed to start command: Failed to start command: " ++ m) w /\
        status (sess w) = Error /\
        errorReason (sess w) = Some ("Failed to start command: " ++ m) /\
        adapter (sess w) = None)).
Proof.
  cbv zeta. split.
  - intros -> ->. cbn [maybeRunPTY]. apply invoke_ok_started.
  - intros Hfall.
    assert (E : maybeRunPTY usePty pty child
                = match child with
                  | Ok _ => Ok ChildProcessAdapter
                  | Throws m => Throws ("Failed to start command: " ++ m)
                  end).
    { unfold maybeRunPTY. destruct Hfall as [-> | [e ->]];
        [reflexivity | destruct usePty; reflexivity]. }
    rewrite E. split.
    + intros ->. apply invoke_ok_started.
    + intros m ->.
      destruct (invoke_throws input sid t0 ("Failed to start command: " ++ m))
        as [w [H1 [H2 [H3 [H4 _]]]]].
      exists w. auto.
Qed.

Lemma spawn_falls_back_to_child_process_witness :
  exists w,
    invoke Samples.default_input "s1" 0
      (maybeRunPTY true (Throws "no node-pty") (Ok tt))
    = InvokeStarted w /\
    adapter (sess w) = Some ChildProcessAdapter /\
    status (sess w) = Running.
Proof.
  destruct (spawn_falls_back_to_child_process Samples.default_input "s1" 0
              true (Throws "no node-pty") (Ok tt)) as [_ H].
  destruct H as [H _]; [right; eauto|].
  apply H. reflexivity.
Defined.

End SpawnFacts.

(* ===================================================================== *)
(** ** Progress messages and idle thresholds *)
(* ===================================================================== *)

Module ProgressFacts.
Import JS Regex Ansi Prompts Host Sessions Server Props Samples RunProps.
Import Frames TimerFacts ServerFacts RunFacts Steps StatusFacts TimerRuns.
Import OutputFacts.

Lemma idle_poll_received a b w :
  filter is_received_msg (progressLog (idle_poll_fired a b w))
  = filter is_received_msg (progressLog w).
Proof.
  unfold idle_poll_fired.
  destruct (status_eqb (status (sess w)) Running
            && (now w - lastByteAt (sess w) >? a));
    cbn [sess with_progress with_sess status set_status progressLog];
    match goal with |- context [if ?c then _ else _] => destruct c end;
    cbn [sess with_progress with_sess status set_status progressLog];
    rewrite ?filter_app; cbn [filter is_received_msg];
    rewrite ?app_nil_r; reflexivity.
Qed.

Lemma server_step_received w e w' :
  Server.step w e = Some w' ->
  filter is_received_msg (progressLog w')
  = filter is_received_msg (progressLog w)
    ++ map (fun c => Received (length c)) (data_chunks [e]).
Proof.
  intros H. apply server_step_cases in H.
  destruct H as [[chunk [-> ->]] | [[code [sg [-> ->]]] | [[dt [-> [_ ->]]] |
    [h [t [-> [_ [[_ ->] | [[a [b [_ ->]]] | [[_ ->] | [_ ->]]]]]]]]]]];
    cbn [data_chunks map]; rewrite ?app_nil_r.
  - unfold on_data. cbn [progressLog with_progress].
    rewrite filter_app, log_onChunk. reflexivity.
  - rewrite log_on_exit. reflexivity.
  - reflexivity.
  - rewrite log_quiet_complete_fired, log_take_timer. reflexivity.
  - rewrite idle_poll_received, log_take_timer. reflexivity.
  - rewrite log_timeout_fired, log_take_timer. reflexivity.
  - cbn [progressLog with_stored]. rewrite log_take_timer. reflexivity.
Qed.

Lemma server_run_received es : forall w w',
  Server.run w es = Some w' ->
  filter is_received_msg (progressLog w')
  = filter is_received_msg (progressLog w)
    ++ map (fun c => Received (length c)) (data_chunks es).
Proof.
  induction es as [|e es IH]; intros w w'.
  - simpl. intros H. injection H as <-. rewrite app_nil_r. reflexivity.
  - cbn [Server.run].
    destruct (Server.step w e) as [w1|] eqn:E; [|discriminate].
    intros Hrun. rewrite (IH w1 w' Hrun), (server_step_received w e w1 E).
    rewrite (data_chunks_cons e es), map_app, app_assoc. reflexivity.
Qed.

(** X23. A terminal.run call sends exactly one [Received N bytes]
    message per chunk of output, in the order of the chunks, and [N]
    is the length of the chunk in UTF-16 code units (not its UTF-8
    byte count). *)
Theorem one_received_message_per_chunk (input : RunCommandOptions)
  (sid : string) (t0 : Z) (a : Adapter) (w0 w : World)
  (es : list Server.Event) :
  invoke input sid t0 (Ok a) = InvokeStarted w0 ->
  Server.run w0 es = Some w ->
  filter is_received_msg (progressLog w)
  = map (fun c => Received (length c)) (data_chunks es).
Proof.
  intros Hi Hrun. rewrite (server_run_received es w0 w Hrun).
  destruct (invoke_world _ _ _ _ _ Hi) as [_ [_ [_ [_ [_ [-> _]]]]]].
  reflexivity.
Qed.

Lemma one_received_message_per_chunk_witness :
  filter is_received_msg (progressLog stuck_world) = [Received 1].
Proof.
  apply (one_received_message_per_chunk
           (mkRun (Some 0) None None None None) "s1" 0 ChildProcessAdapter
           (started (mkRun (Some 0) None None None None)
              ChildProcessAdapter) stuck_world
           [Data (lit "x"); Server.Advance 11000; Server.Fire 0%nat;
            Server.Advance 35000; Server.Fire 0%nat]).
  - vm_compute. reflexivity.
  - vm_compute. reflexivity.
Defined.

(** *** No alarm before the thresholds *)

(** The kind of a timer armed after an event is the kind of a timer
    armed before it, unless it is a new quiet timer or removal. *)
Lemma server_step_kind w e w' u :
  timers_ok w -> Server.step w e = Some w' -> In u (timers w') ->
  (exists t, In t (timers w) /\ kind u = kind t) \/
  kind u = QuietComplete \/ kind u = StoreRemove.
Proof.
  intros Hok H. apply server_step_cases in H.
  destruct H as [[chunk [_ ->]] | [[code [sg [He ->]]] | [[dt [_ [_ ->]]] |
    [h [t [_ [Hd [[_ ->] | [[a [b [_ ->]]] | [[_ ->] | [_ ->]]]]]]]]]]];
    intros Hu.
  - unfold on_data in Hu. cbn [timers with_progress] in Hu.
    apply onChunk_in in Hu. destruct Hu; eauto.
  - apply on_exit_in in Hu. destruct Hu as [Hu|[H1 H2]]; eauto.
  - eauto.
  - apply quiet_complete_fired_in in Hu.
    apply in_due_timer in Hd. destruct Hd as [Ht _].
    apply (take_timer_in w t u Hok Ht) in Hu.
    destruct Hu as [[Hu _]|[_ [Hk _]]]; eauto.
  - destruct (idle_poll_frame a b (take_timer w t)) as [E _].
    rewrite E in Hu.
    apply in_due_timer in Hd. destruct Hd as [Ht _].
    apply (take_timer_in w t u Hok Ht) in Hu.
    destruct Hu as [[Hu _]|[_ [Hk _]]]; eauto.
  - rewrite timers_timeout_fired in Hu.
    apply in_due_timer in Hd. destruct Hd as [Ht _].
    apply (take_timer_in w t u Hok Ht) in Hu.
    destruct Hu as [[Hu _]|[_ [Hk _]]]; eauto.
  - cbn [timers with_stored] in Hu.
    apply in_due_timer in Hd. destruct Hd as [Ht _].
    apply (take_timer_in w t u Hok Ht) in Hu.
    destruct Hu as [[Hu _]|[_ [Hk _]]]; eauto.
Qed.

Lemma lastByteAt_on_exit w code sg :
  lastByteAt (sess (on_exit w code sg)) = lastByteAt (sess w).
Proof.
  unfold on_exit. rewrite sess_exit_handler_2, sess_exit_handler_1.
  cbv zeta. destruct (negb (is_zero code) || some_signal sg); reflexivity.
Qed.

Lemma idle_poll_thresholds a b w :
  let w' := idle_poll_fired a b w in
  lastByteAt (sess w') = lastByteAt (sess w) /\
  (status (sess w') = Waiting ->
   status (sess w) = Waiting \/ a < now w - lastByteAt (sess w)) /\
  (status (sess w') = PossiblyStuck ->
   status (sess w) = PossiblyStuck \/ b < now w - lastByteAt (sess w)).
Proof.
  cbv zeta. unfold idle_poll_fired.
  destruct (status (sess w)) eqn:Es;
    destruct (Z.gtb_spec (now w - lastByteAt (sess w)) a);
    destruct (Z.gtb_spec (now w - lastByteAt (sess w)) b);
    cbn [sess with_progress with_sess status set_status status_eqb
         andb orb lastByteAt];
    rewrite ?Es;
    cbn [sess with_progress with_sess status set_status status_eqb
         andb orb lastByteAt];
    rewrite ?Es;
    repeat split; intros; try discriminate; auto; try lia.
Qed.

Lemma idle_inv_step t0 wa st w e w' :
  timers_ok w -> Server.step w e = Some w' ->
  idle_inv t0 wa st w -> idle_inv t0 wa st w'.
Proof.
  intros Hok Hs [Hnow [Hlast [Hk [Hw Hp]]]].
  pose proof (server_step_now w e w' Hs) as Hmono.
  assert (Hk' : forall u a b, In u (timers w') -> kind u = IdlePoll a b ->
                              a = wa /\ b = st).
  { intros u a b Hu Hku.
    destruct (server_step_kind w e w' u Hok Hs Hu)
      as [[t [Ht E]] | [E | E]]; try congruence.
    apply (Hk t a b Ht). congruence. }
  split; [lia|].
  pose proof Hs as Hc. apply server_step_cases in Hc.
  destruct Hc as [[chunk [_ ->]] | [[code [sg [_ ->]]] | [[dt [_ [Hdt ->]]] |
    [h [t [_ [Hd [[_ ->] | [[a [b [Hkt ->]]] | [[_ ->] | [_ ->]]]]]]]]]]].
  - unfold on_data in *. cbn [sess with_progress timers now] in *.
    destruct (onChunk_frame w chunk) as [_ [-> [_ [-> _]]]].
    split; [first [assumption | lia]|]. split; [exact Hk'|].
      split; intros G; [apply Hw in G | apply Hp in G]; lia.
  - rewrite lastByteAt_on_exit, status_on_exit.
    split; [exact Hlast|]. split; [exact Hk'|].
    unfold exit_status_2. destruct (_ || _); split; discriminate.
  - cbn [sess with_now now] in *.
    split; [first [assumption | lia]|]. split; [exact Hk'|].
      split; intros G; [apply Hw in G | apply Hp in G]; lia.
  - rewrite sess_quiet_complete_fired, session_after_take_timer in *.
    destruct (is_terminal (status (sess w))).
    + split; [first [assumption | lia]|]. split; [exact Hk'|].
      split; intros G; [apply Hw in G | apply Hp in G]; lia.
    + cbn [lastByteAt status set_status].
      split; [exact Hlast|]. split; [exact Hk'|]. split; discriminate.
  - apply in_due_timer in Hd. destruct Hd as [Ht _].
    destruct (Hk t a b Ht Hkt) as [-> ->].
    destruct (idle_poll_thresholds wa st (take_timer w t)) as [E1 [E2 E3]].
    rewrite session_after_take_timer in E1, E2, E3.
    assert (En : now (take_timer w t) = now w).
    { destruct (take_timer_frame w t) as [_ [E _]].
      apply env_of_fields in E. tauto. }
    rewrite En in E2, E3.
    split; [rewrite E1; exact Hlast|]. split; [exact Hk'|].
    split; intros G.
    + destruct (E2 G) as [G'|G']; [apply Hw in G'|]; lia.
    + destruct (E3 G) as [G'|G']; [apply Hp in G'|]; lia.
  - rewrite sess_timeout_fired, session_after_take_timer in *.
    destruct (running_or_waiting (status (sess w))).
    + cbn [lastByteAt status set_status set_errorReason].
      split; [exact Hlast|]. split; [exact Hk'|]. split; discriminate.
    + split; [first [assumption | lia]|]. split; [exact Hk'|].
      split; intros G; [apply Hw in G | apply Hp in G]; lia.
  - cbn [sess with_stored] in *. rewrite session_after_take_timer in *.
    split; [first [assumption | lia]|]. split; [exact Hk'|].
      split; intros G; [apply Hw in G | apply Hp in G]; lia.
Qed.

(** X24. A terminal.run session is waiting only when more than
    [waitingMs] have passed since the call started, and possibly stuck
    only when more than [stuckMs] have passed (defaults 10 s and
    45 s). *)
Theorem no_idle_status_before_threshold (input : RunCommandOptions)
  (sid : string) (t0 : Z) (a : Adapter) (w0 w : World)
  (es : list Server.Event) :
  invoke input sid t0 (Ok a) = InvokeStarted w0 ->
  Server.run w0 es = Some w ->
  (status (sess w) = Waiting ->
   t0 + nullish (i_waitingMs input) 10000 < now w) /\
  (status (sess w) = PossiblyStuck ->
   t0 + nullish (i_stuckMs input) 45000 < now w).
Proof.
  intros Hi Hrun.
  assert (H : timers_ok w /\
              idle_inv t0 (nullish (i_waitingMs input) 10000)
                (nullish (i_stuckMs input) 45000) w).
  { revert Hrun.
    apply (server_run_invariant
             (fun x => timers_ok x /\
                       idle_inv t0 (nullish (i_waitingMs input) 10000)
                         (nullish (i_stuckMs input) 45000) x)).
    - intros x e x' [Hok Hinv] Hs. split.
      + exact (server_step_ok x e x' Hok Hs).
      + exact (idle_inv_step _ _ _ x e x' Hok Hs Hinv).
    - split.
      + destruct (invoke_started input sid t0 a) as [w0' [Hi' [Hok _]]].
        rewrite Hi in Hi'. injection Hi' as <-. exact Hok.
      + destruct (invoke_world _ _ _ _ _ Hi)
          as [Hs [Ht [_ [Hn _]]]].
        unfold idle_inv. rewrite Hs, Hn. cbn [lastByteAt status].
        split; [lia|]. split; [lia|].
        split; [|split; discriminate].
        intros u x y Hu Hk. cbv zeta in Ht. rewrite Ht in Hu.
        destruct Hu as [<-|Hu].
        * cbn [kind] in Hk. injection Hk as <- <-. auto.
        * destruct (_ >? 0); [|contradiction].
          destruct Hu as [<-|[]]. discriminate Hk. }
  destruct H as [_ [_ [_ [_ H]]]]. exact H.
Qed.

Lemma no_idle_status_before_threshold_witness :
  status (sess stuck_world) = PossiblyStuck /\ 0 + 45000 < now stuck_world.
Proof.
  split; [reflexivity|].
  destruct (no_idle_status_before_threshold
              (mkRun (Some 0) None None None None) "s1" 0
              ChildProcessAdapter
              (started (mkRun (Some 0) None None None None)
                 ChildProcessAdapter) stuck_world
              [Data (lit "x"); Server.Advance 11000; Server.Fire 0%nat;
               Server.Advance 35000; Server.Fire 0%nat]) as [_ H].
  - vm_compute. reflexivity.
  - vm_compute. reflexivity.
  - apply H. reflexivity.
Defined.

(** *** A timeout beyond the host's limit *)

Lemma timer_delay_clamped tmo : 2147483647 < tmo -> timer_delay tmo = 1.
Proof.
  intros H. unfold timer_delay.
  replace (2147483647 <? tmo) with true by (symmetry; apply Z.ltb_lt; lia).
  rewrite orb_true_r. reflexivity.
Qed.

(** X25. A [timeoutMs] above 2147483647 (the largest delay the host's
    [setTimeout] takes; it runs a larger one after 1 ms) makes
    terminal.run time out at once: 1 ms after the start the timeout
    callback can run, kills the process and marks the running session
    as error with reason [Command timed out]. *)
Theorem timeout_beyond_host_limit_fires_at_once
  (input : RunCommandOptions) (sid : string) (t0 : Z) (a : Adapter)
  (w0 : World) (tmo : Z) :
  timeoutMs input = Some tmo -> 2147483647 < tmo ->
  invoke input sid t0 (Ok a) = InvokeStarted w0 ->
  exists w,
    Server.run w0 [Server.Advance 1; Server.Fire 1%nat] = Some w /\
    now w = t0 + 1 /\
    status (sess w) = Error /\
    errorReason (sess w) = Some "Command timed out"%string /\
    calls w = [kill_sigterm].
Proof.
  intros Htmo Hbig Hi.
  destruct (invoke_world _ _ _ _ _ Hi)
    as [Hs [Ht [_ [Hn [Hc _]]]]].
  cbv zeta in Ht. rewrite Htmo in Ht. cbn [nullish] in Ht.
  replace (tmo >? 0) with true in Ht by (symmetry; apply Z.gtb_lt; lia).
  rewrite (timer_delay_clamped tmo Hbig) in Ht.
  set (t := mkTimer 1 CommandTimeout (t0 + 1)) in *.
  set (w1 := with_now w0 (now w0 + 1)).
  assert (Hd : due_timer w1 1 = Some t).
  { unfold due_timer, find_timer, w1. cbn [timers with_now now].
    rewrite Ht. subst t. cbn [find tid Nat.eqb due].
    rewrite Hn, Z.leb_refl. reflexivity. }
  exists (timeout_fired (take_timer w1 t)). split.
  - cbn [Server.run Server.step]. change (0 <=? 1) with true. cbv iota.
    fold w1. unfold Server.fire. rewrite Hd. reflexivity.
  - assert (Hst : running_or_waiting (status (sess w1)) = true)
      by (unfold w1; cbn [sess with_now]; rewrite Hs; reflexivity).
    split.
    { unfold timeout_fired.
      destruct (_ || _); cbn [now with_call with_sess];
        destruct (take_timer_frame w1 t) as [_ [E _]];
        apply env_of_fields in E; destruct E as [_ [-> _]];
        unfold w1; cbn [now with_now]; rewrite Hn; reflexivity. }
    rewrite sess_timeout_fired, session_after_take_timer, Hst.
    split; [reflexivity|]. split; [reflexivity|].
    unfold timeout_fired. rewrite session_after_take_timer.
    unfold running_or_waiting in Hst. rewrite Hst.
    cbn [calls with_call with_sess]. rewrite calls_take_timer'.
    unfold w1. cbn [calls with_now]. rewrite Hc. reflexivity.
Qed.

Lemma timeout_beyond_host_limit_fires_at_once_witness :
  let w := after (started (mkRun (Some 3000000000) None None None None)
                    ChildProcessAdapter)
             [Server.Advance 1; Server.Fire 1%nat] in
  status (sess w) = Error /\ calls w = [kill_sigterm] /\ now w = 1.
Proof.
  destruct (timeout_beyond_host_limit_fires_at_once
              (mkRun (Some 3000000000) None None None None) "s1" 0
              ChildProcessAdapter
              (started (mkRun (Some 3000000000) None None None None)
                 ChildProcessAdapter) 3000000000)
    as [w [H1 [H2 [H3 [_ H5]]]]].
  - reflexivity.
  - lia.
  - vm_compute. reflexivity.
  - cbv zeta. unfold after. rewrite H1. auto.
Defined.

End ProgressFacts.
